(** * Statistics service worker of the profile view addon

    A shallow embedding of [src/view/services/statistics_worker.py]:
    the bounded "last changed" list ([analyze_change], [KeyWrapper] and
    the library routine [bisect] it drives), the dictionary merge
    [fold], the database open/close discipline of the [examine_*]
    workers, [get_object_list], the fan-out / fan-in skeleton of
    [main], and the counting loops of [examine_families],
    [examine_citations] and [examine_people] with the entry of the
    gender statistics in the payload.

    The first part holds the embedding, the second part the lemmas and
    the theorems about it. *)

From stdpp Require Import gmap strings list sorting pretty.
From Stdlib Require Import ZArith Lia Ascii.

Set Default Proof Using "Type".

(** * Part I: the embedding *)

(** ** Python list primitives used by the worker *)

Module PyList.

(** [list.insert(i, x)] for an index [i >= 0]: positions past the end
    are clamped to the end. *)
Definition insert {A} (i : nat) (x : A) (l : list A) : list A :=
  take i l ++ x :: drop i l.

(** [list.pop(i)]: a negative index counts from the end, and an index
    outside the list raises [IndexError] (here [None]).  The popped
    element is dropped, as every caller in the worker ignores it. *)
Definition pop {A} (l : list A) (i : Z) : option (list A) :=
  let n := Z.of_nat (length l) in
  let j := if (i <? 0)%Z then (i + n)%Z else i in
  if ((j <? 0) || (n <=? j))%Z then None
  else Some (delete (Z.to_nat j) l).

End PyList.

(** ** [KeyWrapper] and [bisect] *)

(** The two slots of the class, [iter] and [key]. *)
Record KeyWrapper (A K : Type) := mkKeyWrapper { iter : list A; key : A -> K }.
Arguments mkKeyWrapper {A K} _ _.
Arguments iter {A K} _.
Arguments key {A K} _ _.

(** [__getitem__]: [self.key(self.iter[i])]; an index past the end
    raises [IndexError]. *)
Definition getitem {A K} (w : KeyWrapper A K) (i : nat) : option K :=
  key w <$> iter w !! i.

(** [__len__]: [len(self.iter)]. *)
Definition len {A K} (w : KeyWrapper A K) : nat := length (iter w).

(** [bisect.bisect] (that is [bisect_right]) of the Python library, run
    on a [KeyWrapper]:
<<
    while lo < hi:
        mid = (lo + hi) // 2
        if x < a[mid]: hi = mid
        else: lo = mid + 1
    return lo
>>
    The loop is unrolled on [fuel]; [bisect] starts it with [len a]
    units, which [bisect_loop_spec] shows to be enough. *)
Fixpoint bisect_loop {A} (fuel : nat) (a : KeyWrapper A Z) (x : Z)
    (lo hi : nat) : option nat :=
  if lo <? hi then
    match fuel with
    | O => None
    | S fuel =>
        let mid := (lo + hi) `div` 2 in
        v ← getitem a mid;
        if (x <? v)%Z then bisect_loop fuel a x lo mid
        else bisect_loop fuel a x (S mid) hi
    end
  else Some lo.

Definition bisect {A} (a : KeyWrapper A Z) (x : Z) : option nat :=
  bisect_loop (len a) a x 0 (len a).

(** ** [analyze_change] *)

Definition handle := string.

(** An element of a "last changed" list: the tuple [(obj_handle, change)]. *)
Definition entry : Type := handle * Z.

Definition analyze_change (obj_list : list entry) (obj_handle : handle)
    (change max_length : Z) : option (list entry) :=
  bsindex ← bisect (mkKeyWrapper obj_list snd) change;
  let obj_list := PyList.insert bsindex (obj_handle, change) obj_list in
  if (max_length <? Z.of_nat (length obj_list))%Z
  then PyList.pop obj_list max_length
  else Some obj_list.

(** Feeding a sequence of records one at a time, as the loop of every
    [examine_*] worker does. *)
Fixpoint analyze_changes (obj_list : list entry) (records : list entry)
    (max_length : Z) : option (list entry) :=
  match records with
  | [] => Some obj_list
  | (h, c) :: records =>
      obj_list ← analyze_change obj_list h c max_length;
      analyze_changes obj_list records max_length
  end.

(** Ascending order on the change component. *)
Definition change_le (a b : entry) : Prop := (a.2 <= b.2)%Z.

(** Reference insertion: after every entry that is not newer. *)
Fixpoint insort (e : entry) (l : list entry) : list entry :=
  match l with
  | [] => [e]
  | y :: l' => if (e.2 <? y.2)%Z then e :: l else y :: insort e l'
  end.

(** The records in ascending order of change, records of equal change
    in their order of arrival. *)
Definition sort_by_change (records : list entry) : list entry :=
  foldl (fun l e => insort e l) [] records.

(** ** Python dictionaries and the object store

    A dictionary keeps its keys in insertion order, so it is a list of
    bindings; [update] on a present key replaces the value in place and
    on an absent key appends the binding. *)

Module PyDict.

Fixpoint get {V} (k : string) (d : list (string * V)) : option V :=
  match d with
  | [] => None
  | (k', v) :: d => if decide (k = k') then Some v else get k d
  end.

(** [k in d] *)
Definition mem {V} (k : string) (d : list (string * V)) : bool :=
  match get k d with Some _ => true | None => false end.

(** [d.update({k: v})] *)
Fixpoint update {V} (k : string) (v : V) (d : list (string * V))
    : list (string * V) :=
  match d with
  | [] => [(k, v)]
  | (k', v') :: d' =>
      if decide (k = k') then (k, v) :: d' else (k', v') :: update k v d'
  end.

(** [d.keys()], also the order in which [for k in d] visits [d]. *)
Definition keys {V} (d : list (string * V)) : list string := d.*1.

End PyDict.

(** A [for] loop whose body may raise. *)
Fixpoint for_each {S A} (body : S -> A -> option S) (l : list A) (s : S)
    : option S :=
  match l with
  | [] => Some s
  | a :: l => s' ← body s a; for_each body l s'
  end.

(** Dictionaries are objects: a two-level dictionary is an outer
    dictionary whose values are references to inner dictionaries, and
    two keys (of one or of two outer dictionaries) may refer to the same
    inner dictionary.  The store maps references to the dictionaries
    they denote; a reference the store does not know denotes the empty
    dictionary. *)
Record Store (V : Type) := mkStore {
  outer : gmap nat (list (string * nat));
  inner : gmap nat (list (string * V));
}.
Arguments mkStore {V} _ _.
Arguments outer {V} _.
Arguments inner {V} _.

Definition set_outer {V} (d : nat) (o : list (string * nat)) (σ : Store V)
    : Store V :=
  mkStore (<[d := o]> (outer σ)) (inner σ).

Definition set_inner {V} (x : nat) (i : list (string * V)) (σ : Store V)
    : Store V :=
  mkStore (outer σ) (<[x := i]> (inner σ)).

(** ** [fold] *)

(** The body of the inner loop,
<<
    if subkey not in one[key]:
        one[key].update({subkey: two[key][subkey]})
>>
    A subscript of an absent key raises [KeyError] (here [None]). *)
Definition fold_subkey {V} (one two : nat) (key : string) (σ : Store V)
    (subkey : string) : option (Store V) :=
  x ← PyDict.get key (outer σ !!! one);
  if negb (PyDict.mem subkey (inner σ !!! x)) then
    y ← PyDict.get key (outer σ !!! two);
    v ← PyDict.get subkey (inner σ !!! y);
    Some (set_inner x (PyDict.update subkey v (inner σ !!! x)) σ)
  else Some σ.

(** The body of the outer loop. *)
Definition fold_key {V} (one two : nat) (σ : Store V) (key : string)
    : option (Store V) :=
  if negb (PyDict.mem key (outer σ !!! one)) then
    y ← PyDict.get key (outer σ !!! two);
    Some (set_outer one (PyDict.update key y (outer σ !!! one)) σ)
  else
    y ← PyDict.get key (outer σ !!! two);
    for_each (fold_subkey one two key) (PyDict.keys (inner σ !!! y)) σ.

(** [fold(one, two)], on the references of the two outer dictionaries.
    Each loop visits the keys its dictionary has when the loop starts. *)
Definition fold {V} (one two : nat) (σ : Store V) : option (Store V) :=
  for_each (fold_key one two) (PyDict.keys (outer σ !!! two)) σ.

(** [d[k][sk]] *)
Definition lookup2 {V} (σ : Store V) (d : nat) (k sk : string) : option V :=
  x ← PyDict.get k (outer σ !!! d);
  PyDict.get sk (inner σ !!! x).

(** The first of two optional values that is present. *)
Definition or_else {V} (a b : option V) : option V :=
  match a with Some v => Some v | None => b end.

(** The two-level dictionary at [d] is in [σ'] what it was in [σ]: the
    same keys referring to the same inner dictionaries, each with the
    bindings it had. *)
Definition same_dict2 {V} (σ σ' : Store V) (d : nat) : Prop :=
  outer σ' !!! d = outer σ !!! d /\
  forall k y, PyDict.get k (outer σ !!! d) = Some y ->
              inner σ' !!! y = inner σ !!! y.

(** What [fold(one, two)] is to achieve from the store [σ]: it returns,
    no entry of [one] is overwritten, every entry of [two] that [one]
    lacked is in [one] with the value it has in [two], and [two] is
    left as it was. *)
Definition fold_merges {V} (σ : Store V) (one two : nat) : Prop :=
  exists σ', fold one two σ = Some σ' /\
    (forall k sk v, lookup2 σ one k sk = Some v ->
                    lookup2 σ' one k sk = Some v) /\
    (forall k sk v, lookup2 σ one k sk = None ->
                    lookup2 σ two k sk = Some v ->
                    lookup2 σ' one k sk = Some v /\
                    lookup2 σ' two k sk = Some v) /\
    same_dict2 σ σ' two.


(** No inner dictionary is shared: neither between two keys of [one],
    nor between a key of [one] and a different key of [two]. *)
Definition unshared {V} (σ : Store V) (one two : nat) : Prop :=
  (forall k k' x, PyDict.get k (outer σ !!! one) = Some x ->
                  PyDict.get k' (outer σ !!! one) = Some x -> k = k') /\
  (forall k k' x, PyDict.get k (outer σ !!! one) = Some x ->
                  PyDict.get k' (outer σ !!! two) = Some x -> k = k').

(** The state of the outer loop of [fold(one, two)], started in [σ],
    once the keys [visited] of [two] have been handled and under
    [unshared σ one two]: [two] still has its keys, [one] has gained
    the visited keys it lacked, and an inner dictionary has changed only
    if [one] holds it under a visited key that [two] binds to another
    dictionary, which has then been merged into it. *)
Definition fold_invariant {V} (σ : Store V) (one two : nat)
    (visited : list string) (σc : Store V) : Prop :=
  let o1 := outer σ !!! one in
  let o2 := outer σ !!! two in
  outer σc !!! two = o2 /\
  (forall k, PyDict.get k (outer σc !!! one)
             = or_else (PyDict.get k o1)
                 (if decide (k ∈ visited) then PyDict.get k o2 else None)) /\
  (forall z, (forall k y, k ∈ visited -> PyDict.get k o1 = Some z ->
                          PyDict.get k o2 = Some y -> z = y) ->
             inner σc !!! z = inner σ !!! z) /\
  (forall k x y, k ∈ visited -> PyDict.get k o1 = Some x ->
                 PyDict.get k o2 = Some y -> x <> y ->
     forall sk, PyDict.get sk (inner σc !!! x)
                = or_else (PyDict.get sk (inner σ !!! x))
                    (PyDict.get sk (inner σ !!! y))).

(** Three stores.  In each, the outer dictionaries [one] and [two] are
    the objects 0 and 1.

    [store_apart]: [one = {"a": {"p": 1}}] and
    [two = {"a": {"p": 5, "q": 2}, "b": {"r": 3}}], all inner
    dictionaries distinct objects. *)
Definition store_apart : Store Z :=
  mkStore
    (<[0 := [("a", 10)]]> (<[1 := [("a", 11); ("b", 12)]]> ∅))
    (<[10 := [("p", 1%Z)]]>
       (<[11 := [("p", 5%Z); ("q", 2%Z)]]> (<[12 := [("r", 3%Z)]]> ∅))).

(** [store_shared]: with [x = {}], [one = {"a": x}] and
    [two = {"a": {"p": 1}, "b": x}]. *)
Definition store_shared : Store Z :=
  mkStore
    (<[0 := [("a", 10)]]> (<[1 := [("a", 11); ("b", 10)]]> ∅))
    (<[10 := []]> (<[11 := [("p", 1%Z)]]> ∅)).


(** ** Values and host objects *)

(** The values the workers put into their payloads: integers, lists of
    paths, "last changed" lists, and the histograms, which are kept
    uninterpreted. *)
Inductive PyVal :=
| VInt (n : Z)
| VStrs (l : list string)
| VChanged (l : list entry)
| VOther (code : nat).

(** A two-level dictionary as a value, that is, as pickling sees it. *)
Definition Dict2 : Type := list (string * list (string * PyVal)).

(** The fields of a media object that [examine_media] reads;
    [m_date] is what [get_date(media)] returns. *)
Record MediaObject := mkMedia {
  m_handle : handle;
  m_change : Z;
  m_desc : string;
  m_date : string;
  m_mime : string;
  m_private : bool;
  m_tag_list : list handle;
  m_path : string;
}.

(** A loaded family tree.  Of the objects other than media only the
    handle and the change time are kept, and [bookmarks] gives the
    bookmark list of each kind. *)
Record Database := mkDatabase {
  save_path : string;
  iter_people : list entry;
  iter_families : list entry;
  iter_events : list entry;
  iter_places : list entry;
  iter_media : list MediaObject;
  iter_sources : list entry;
  iter_citations : list entry;
  iter_repositories : list entry;
  iter_notes : list entry;
  iter_tags : list entry;
  bookmarks : string -> list handle;
}.

(** The parsed command line. *)
Record Args := mkArgs { tree_name : string; time : bool; yaml : bool }.

(** What the worker takes from outside: the host functions, by their
    effect on the files; the value of each named counter or histogram
    that a worker accumulates, and the entries that [examine_people]
    derives from the gender statistics for each section of its payload,
    none of which is interpreted here; and the two serialisers. *)
Record Env := mkEnv {
  lookup_family_tree : string -> option Database;
  db_close : Database -> gmap string Z -> gmap string Z;
  write_lock_file : string -> gmap string Z -> gmap string Z;
  media_path_full : Database -> string -> string;
  statistic : string -> Database -> PyVal;
  gender_statistics : string -> Database -> list (string * PyVal);
  pickle_dumps : Dict2 -> list Byte.byte;
  pickle_loads : list Byte.byte -> option Dict2;
  yaml_dump : option (Dict2 -> list N);
}.

(** The host constant [DBLOCKFN]. *)
Definition DBLOCKFN : string := "lock".

(** [os.path.join(a, b)] for a relative [b], POSIX flavour. *)
Definition path_join (a b : string) : string :=
  if decide (a = "") then b
  else if decide (String.substring (String.length a - 1) 1 a = "/")
       then a +:+ b
       else a +:+ "/" +:+ b.

(** ** Effects *)

(** What a process does to the outside: database sessions, the lock
    file, queues, processes and the two output streams.  [InProcess p a]
    is the action [a] done by the worker process [p]. *)
Inductive Action :=
| DbLoad (tree : string)
| DbClose (dir : string)
| LockWritten (dir : string)
| QueueNew (q : nat)
| QueuePut (q : nat) (payload : Dict2)
| QueueGet (q : nat)
| ProcessStart (p : nat) (target : string) (q : nat)
| ProcessJoin (p : nat)
| Stderr
| Stdout (text : list N)
| InProcess (p : nat) (a : Action).

(** The world: the regular files with their sizes, what has been done
    so far, the payloads waiting in each queue, the next fresh queue,
    process and object, and the dictionaries of the main process. *)
Record World := mkWorld {
  files : gmap string Z;
  log : list Action;
  pending : gmap nat (list Dict2);
  next_queue : nat;
  next_process : nat;
  next_object : nat;
  store : Store PyVal;
}.

Definition set_files (f : gmap string Z) (w : World) : World :=
  mkWorld f (log w) (pending w) (next_queue w) (next_process w)
    (next_object w) (store w).
Definition set_log (l : list Action) (w : World) : World :=
  mkWorld (files w) l (pending w) (next_queue w) (next_process w)
    (next_object w) (store w).
Definition set_pending (q : gmap nat (list Dict2)) (w : World) : World :=
  mkWorld (files w) (log w) q (next_queue w) (next_process w)
    (next_object w) (store w).
Definition set_store (n : nat) (σ : Store PyVal) (w : World) : World :=
  mkWorld (files w) (log w) (pending w) (next_queue w) (next_process w) n σ.

(** A computation changes the world and returns a value, or raises
    ([None]); what it did before raising stays done. *)
Definition M (A : Type) : Type := World -> option A * World.

Global Instance M_ret : MRet M := fun A a w => (Some a, w).
Global Instance M_bind : MBind M := fun A B f c w =>
  match c w with
  | (Some a, w') => f a w'
  | (None, w') => (None, w')
  end.

Definition raise {A} : M A := fun w => (None, w).

(** A value that may be an exception. *)
Definition lift {A} (o : option A) : M A :=
  match o with Some a => mret a | None => raise end.

(** [try: c except: ...], the handler being run by the caller. *)
Definition catch {A} (c : M A) : M (option A) := fun w =>
  let '(r, w') := c w in (Some r, w').

Definition emit (a : Action) : M unit := fun w =>
  (Some tt, set_log (log w ++ [a]) w).

(** A [for] loop over [l] that carries the state [s]. *)
Fixpoint for_eachM {S A} (body : S -> A -> M S) (l : list A) (s : S) : M S :=
  match l with
  | [] => mret s
  | a :: l => s' ← body s a; for_eachM body l s'
  end.

(** [os.path.isfile] *)
Definition isfile (p : string) : M bool := fun w =>
  (Some (bool_decide (is_Some (files w !! p))), w).

(** [os.path.getsize] under [try ... except OSError]: [None] when the
    file cannot be read. *)
Definition getsize (p : string) : M (option Z) := fun w =>
  (Some (files w !! p), w).

(** ** Opening and closing the database *)

(** [lookup_family_tree] returns [None] for an unknown tree, on which
    unpacking raises [TypeError]. *)
Definition open_readonly_database (env : Env) (dbname : string) : M Database :=
  db ← lift (lookup_family_tree env dbname);
  emit (DbLoad dbname);;
  mret db.

Definition close_readonly_database (env : Env) (db : Database) : M unit :=
  let save_dir := save_path db in
  present ← isfile (path_join save_dir DBLOCKFN);
  let save_dir := if negb present then None else Some save_dir in
  (fun w => (Some tt, set_files (db_close env db (files w)) w));;
  emit (DbClose (save_path db));;
  match save_dir with
  | Some dir =>
      if negb (bool_decide (dir = "")) then
        (fun w => (Some tt, set_files (write_lock_file env dir (files w)) w));;
        emit (LockWritten dir)
      else mret tt
  | None => mret tt
  end.

(** ** Queues, processes and objects of the main process *)

(** [Queue()] *)
Definition queue_new : M nat := fun w =>
  (Some (next_queue w),
   mkWorld (files w) (log w ++ [QueueNew (next_queue w)]) (pending w)
     (S (next_queue w)) (next_process w) (next_object w) (store w)).

(** [queue.put(payload)] *)
Definition queue_put (q : nat) (payload : Dict2) : M unit := fun w =>
  (Some tt,
   set_log (log w ++ [QueuePut q payload])
     (set_pending (<[q := (pending w !!! q) ++ [payload]]> (pending w)) w)).

(** A two-level dictionary built as a fresh object: one fresh inner
    dictionary for each key, then the outer one. *)
Fixpoint alloc_inners (d : Dict2) (n : nat) (σ : Store PyVal)
    : list (string * nat) * nat * Store PyVal :=
  match d with
  | [] => ([], n, σ)
  | (k, i) :: d =>
      let '(o, n', σ') := alloc_inners d (S n) (set_inner n i σ) in
      ((k, n) :: o, n', σ')
  end.

Definition new_dict2 (d : Dict2) : M nat := fun w =>
  let '(o, n, σ) := alloc_inners d (next_object w) (store w) in
  (Some n, set_store (S n) (set_outer n o σ) w).

(** [queue.get()]: the first waiting payload, unpickled into fresh
    objects.  On an empty queue the call would wait; as nothing is put
    while the main process runs, it then waits for ever, which is
    modelled as raising. *)
Definition queue_get (q : nat) : M nat := fun w =>
  match pending w !!! q with
  | [] => (None, w)
  | payload :: rest =>
      new_dict2 payload
        (set_log (log w ++ [QueueGet q])
           (set_pending (<[q := rest]> (pending w)) w))
  end.

(** [Process(target=..., args=(args, queue))] *)
Definition process_new : M nat := fun w =>
  (Some (next_process w),
   mkWorld (files w) (log w) (pending w) (next_queue w)
     (S (next_process w)) (next_object w) (store w)).

(** [process.start()].  The worker is run to its end at once; the
    files and the queues are shared with it, the objects of the main
    process are not, and an exception in the worker ends the worker
    only. *)
Definition process_start (p : nat) (target : string) (q : nat)
    (body : M unit) : M unit := fun w =>
  let w1 := set_log (log w ++ [ProcessStart p target q]) w in
  let '(_, w2) := body (set_log [] w1) in
  (Some tt,
   set_log (log w1 ++ (InProcess p <$> log w2))
     (set_store (next_object w1) (store w1) w2)).

(** [process.join()] *)
Definition process_join (p : nat) : M unit := emit (ProcessJoin p).

(** [fold(one, two)] on the objects of the main process. *)
Definition fold_objects (one two : nat) : M unit := fun w =>
  match fold one two (store w) with
  | Some σ => (Some tt, set_store (next_object w) σ w)
  | None => (None, w)
  end.

(** The value a two-level dictionary denotes: its keys, in order, each
    with the bindings of its inner dictionary. *)
Definition value2 {V} (σ : Store V) (d : nat)
    : list (string * list (string * V)) :=
  (fun b : string * nat => (b.1, inner σ !!! b.2)) <$> (outer σ !!! d).

(** The timing line on the error stream, printed under [--time]. *)
Definition print_time (args : Args) : M unit :=
  if time args then emit Stderr else mret tt.

(** ** The workers *)

(** An entry of a payload whose value is not interpreted, and one
    that is a number of objects. *)
Definition stat (env : Env) (db : Database) (name : string)
    : string * PyVal :=
  (name, statistic env name db).

Definition total {A} (name : string) (l : list A) : string * PyVal :=
  (name, VInt (Z.of_nat (length l))).

(** [d.update({k: v})] for each entry in turn. *)
Definition update_all {V} (entries : list (string * V))
    (d : list (string * V)) : list (string * V) :=
  foldl (fun d e => PyDict.update e.1 e.2 d) d entries.

(** The workers other than [examine_people] and [examine_media] share
    one shape: open the tree, visit every object keeping the "last
    changed" list, close the tree, put the payload, print the timing
    line.  They differ in the objects they visit and in the sections of
    the payload that follow ["changed"], whose keys are those of the
    source and whose values are the uninterpreted statistics. *)
Definition examine (type_name : string) (iter : Database -> list entry)
    (sections : Env -> Database -> Dict2)
    (env : Env) (args : Args) (queue : nat) : M unit :=
  db ← open_readonly_database env (tree_name args);
  last_changed ←
    for_eachM (fun last_changed (obj : entry) =>
                 lift (analyze_change last_changed obj.1 obj.2 20))
      (iter db) [];
  close_readonly_database env db;;
  let payload :=
    ("changed", [(type_name, VChanged last_changed)]) :: sections env db in
  queue_put queue payload;;
  print_time args.

Definition families_sections (env : Env) (db : Database) : Dict2 :=
  [ ("family",
     [ total "family_total" (iter_families db);
       stat env db "family_surname_total";
       stat env db "family_missing_one";
       stat env db "family_missing_both";
       stat env db "family_no_child";
       stat env db "family_relations";
       stat env db "family_no_events" ]);
    ("uncited", [stat env db "family_uncited"; stat env db "child_uncited"]);
    ("privacy",
     [ stat env db "family_private"; stat env db "child_private";
       stat env db "family_participant_private" ]);
    ("tag", [stat env db "family_tagged"]);
    ("children",
     [ stat env db "child_refs"; stat env db "child_mother_relations";
       stat env db "child_father_relations" ]);
    ("participant", [stat env db "family_participant_roles"]);
    ("media", [stat env db "family_media"; stat env db "family_media_refs"]) ].

Definition events_sections (env : Env) (db : Database) : Dict2 :=
  [ ("event",
     [ total "event_total" (iter_events db);
       stat env db "event_no_place";
       stat env db "event_no_date";
       stat env db "event_no_description";
       stat env db "event_types" ]);
    ("uncited", [stat env db "event_uncited"]);
    ("privacy", [stat env db "event_private"]);
    ("tag", [stat env db "event_tagged"]);
    ("media", [stat env db "event_media"; stat env db "event_media_refs"]) ].

Definition places_sections (env : Env) (db : Database) : Dict2 :=
  [ ("place",
     [ total "place_total" (iter_places db);
       stat env db "place_no_name";
       stat env db "place_no_latitude";
       stat env db "place_no_longitude";
       stat env db "place_no_code";
       stat env db "place_types" ]);
    ("uncited", [stat env db "place_uncited"]);
    ("privacy", [stat env db "place_private"]);
    ("tag", [stat env db "place_tagged"]);
    ("media", [stat env db "place_media"; stat env db "place_media_refs"]) ].

Definition sources_sections (env : Env) (db : Database) : Dict2 :=
  [ ("source",
     [ total "source_total" (iter_sources db);
       stat env db "source_no_title";
       stat env db "source_no_author";
       stat env db "source_no_pubinfo";
       stat env db "source_no_abbrev";
       stat env db "source_no_repository" ]);
    ("privacy", [stat env db "source_private"]);
    ("tag", [stat env db "source_tagged"]);
    ("media", [stat env db "source_media"; stat env db "source_media_refs"]) ].

Definition citations_sections (env : Env) (db : Database) : Dict2 :=
  [ ("citation",
     [ total "citation_total" (iter_citations db);
       stat env db "citation_no_source";
       stat env db "citation_no_date";
       stat env db "citation_no_page";
       stat env db "citation_very_low";
       stat env db "citation_low";
       stat env db "citation_normal";
       stat env db "citation_high";
       stat env db "citation_very_high" ]);
    ("privacy", [stat env db "citation_private"]);
    ("tag", [stat env db "citation_tagged"]);
    ("media",
     [stat env db "citation_media"; stat env db "citation_media_refs"]) ].

Definition repositories_sections (env : Env) (db : Database) : Dict2 :=
  [ ("repository",
     [ total "repository_total" (iter_repositories db);
       stat env db "repository_no_name";
       stat env db "repository_no_address";
       stat env db "repository_types" ]);
    ("privacy", [stat env db "repository_private"]);
    ("tag", [stat env db "repository_tagged"]) ].

Definition notes_sections (env : Env) (db : Database) : Dict2 :=
  [ ("note",
     [ total "note_total" (iter_notes db);
       stat env db "note_no_text";
       stat env db "note_types" ]);
    ("privacy", [stat env db "note_private"]);
    ("tag", [stat env db "note_tagged"]) ].

Definition tags_sections (env : Env) (db : Database) : Dict2 :=
  [ ("tag", [total "tag_total" (iter_tags db)]) ].

Definition examine_families := examine "Family" iter_families families_sections.
Definition examine_events := examine "Event" iter_events events_sections.
Definition examine_places := examine "Place" iter_places places_sections.
Definition examine_sources := examine "Source" iter_sources sources_sections.
Definition examine_citations :=
  examine "Citation" iter_citations citations_sections.
Definition examine_repositories :=
  examine "Repository" iter_repositories repositories_sections.
Definition examine_notes := examine "Note" iter_notes notes_sections.
Definition examine_tags := examine "Tag" iter_tags tags_sections.

(** The payload of [examine_people] once the entries derived from the
    gender statistics have been entered in its sections, and the
    dictionary [append] that is folded into it. *)
Definition people_payload (env : Env) (db : Database)
    (last_changed : list entry) : Dict2 :=
  [ ("changed", [("Person", VChanged last_changed)]);
    ("person",
     update_all (gender_statistics env "person" db)
       [ total "person_total" (iter_people db);
         stat env db "person_incomplete_names";
         stat env db "person_no_family_connection" ]);
    ("media", [stat env db "person_media"; stat env db "person_media_refs"]);
    ("uncited", update_all (gender_statistics env "uncited" db) []);
    ("privacy", update_all (gender_statistics env "privacy" db) []);
    ("tag", update_all (gender_statistics env "tag" db) []) ].

Definition people_append (env : Env) (db : Database) : Dict2 :=
  [ ("association",
     [ stat env db "association_total"; stat env db "association_refs";
       stat env db "association_roles" ]);
    ("participant",
     [ stat env db "participant_total"; stat env db "participant_refs";
       stat env db "participant_roles" ]);
    ("uncited", [stat env db "association_uncited"]);
    ("privacy",
     [ stat env db "association_private";
       stat env db "participant_private" ]) ].

(** [examine_people] builds its payload and [append] as two
    dictionaries of its own and folds the second into the first before
    it puts the payload. *)
Definition examine_people (env : Env) (args : Args) (queue : nat) : M unit :=
  db ← open_readonly_database env (tree_name args);
  last_changed ←
    for_eachM (fun last_changed (obj : entry) =>
                 lift (analyze_change last_changed obj.1 obj.2 20))
      (iter_people db) [];
  close_readonly_database env db;;
  payload ← new_dict2 (people_payload env db last_changed);
  append ← new_dict2 (people_append env db);
  fold_objects payload append;;
  sent ← (fun w => (Some (value2 (store w) payload), w));
  queue_put queue sent;;
  print_time args.

(** The local variables of [examine_media]. *)
Record MediaAcc := mkMediaAcc {
  no_desc : Z; no_date : Z; no_path : Z; no_mime : Z;
  uncited : Z; private : Z; tagged : Z; size_bytes : Z;
  not_found : list string;
  last_changed : list entry;
}.

Definition media_acc0 : MediaAcc := mkMediaAcc 0 0 0 0 0 0 0 0 [] [].

(** [s in l] for a list of strings. *)
Definition list_mem (s : string) (l : list string) : bool :=
  bool_decide (s ∈ l).

(** [x + 1] when [b] holds. *)
Definition count_if (b : bool) (x : Z) : Z := if b then (x + 1)%Z else x.

(** The body of the loop of [examine_media]. *)
Definition examine_media_step (env : Env) (db : Database) (acc : MediaAcc)
    (media : MediaObject) : M MediaAcc :=
  '(size_bytes', not_found') ←
    (if bool_decide (m_path media = "")
     then mret (size_bytes acc, not_found acc)
     else
       let fullname := media_path_full env db (m_path media) in
       size ← getsize fullname;
       match size with
       | Some n => mret ((size_bytes acc + n)%Z, not_found acc)
       | None =>
           mret (size_bytes acc,
                 if negb (list_mem (m_path media) (not_found acc))
                 then not_found acc ++ [m_path media]
                 else not_found acc)
       end);
  last_changed' ←
    lift (analyze_change (last_changed acc) (m_handle media)
            (m_change media) 20);
  mret (mkMediaAcc
          (count_if (bool_decide (m_desc media = "")) (no_desc acc))
          (count_if (bool_decide (m_date media = "")) (no_date acc))
          (count_if (bool_decide (m_path media = "")) (no_path acc))
          (count_if (bool_decide (m_mime media = "")) (no_mime acc))
          (uncited acc)
          (count_if (m_private media) (private acc))
          (count_if (negb (bool_decide (m_tag_list media = []))) (tagged acc))
          size_bytes' not_found' last_changed').

(** The payload of [examine_media].  The quotient [size_bytes / 1048576]
    is taken on floating point numbers and cut by [int]; this is the
    integer quotient as long as [size_bytes] is below [2 ^ 53]. *)
Definition media_payload (total_media : Z) (acc : MediaAcc) : Dict2 :=
  let megabytes := (size_bytes acc `quot` 1048576)%Z in
  [ ("changed", [("Media", VChanged (last_changed acc))]);
    ("media",
     [ ("media_total", VInt total_media);
       ("media_size", VInt megabytes);
       ("media_no_path", VInt (no_path acc));
       ("media_not_found", VStrs (not_found acc));
       ("media_no_description", VInt (no_desc acc));
       ("media_no_date", VInt (no_date acc));
       ("media_no_mime", VInt (no_mime acc)) ]);
    ("uncited", [("media_uncited", VInt (uncited acc))]);
    ("privacy", [("media_private", VInt (private acc))]);
    ("tag", [("media_tagged", VInt (tagged acc))]) ].

Definition examine_media (env : Env) (args : Args) (queue : nat) : M unit :=
  db ← open_readonly_database env (tree_name args);
  let total_media := Z.of_nat (length (iter_media db)) in
  acc ← for_eachM (examine_media_step env db) (iter_media db) media_acc0;
  let payload := media_payload total_media acc in
  queue_put queue payload;;
  print_time args.

(** The payload of [examine_bookmarks]. *)
Definition bookmarks_payload (db : Database) : Dict2 :=
  let count kind := VInt (Z.of_nat (length (bookmarks db kind))) in
  [ ("bookmarks",
     [ ("bookmarks_person", count "person");
       ("bookmarks_family", count "family");
       ("bookmarks_event", count "event");
       ("bookmarks_place", count "place");
       ("bookmarks_media", count "media");
       ("bookmarks_source", count "source");
       ("bookmarks_citation", count "citation");
       ("bookmarks_repository", count "repository");
       ("bookmarks_note", count "note") ]) ].

Definition examine_bookmarks (env : Env) (args : Args) : M nat :=
  db ← open_readonly_database env (tree_name args);
  payload ← new_dict2 (bookmarks_payload db);
  close_readonly_database env db;;
  print_time args;;
  mret payload.

(** ** [get_object_list] *)

(** [l.sort(key=key, reverse=True)]: descending on the key, elements of
    equal key staying in their order. *)
Fixpoint sort_insert {A} (key : A -> Z) (x : A) (l : list A) : list A :=
  match l with
  | [] => [x]
  | y :: l' =>
      if (key x <? key y)%Z then y :: sort_insert key x l' else x :: l
  end.

Definition sort_reverse {A} (key : A -> Z) (l : list A) : list A :=
  foldr (sort_insert key) [] l.

(** [sum(l)] *)
Definition sum (l : list Z) : Z := foldr Z.add 0%Z l.

(** The list [get_object_list] builds before it sorts it. *)
Definition object_counts (db : Database) : list (string * Z) :=
  [ ("Person", Z.of_nat (length (iter_people db)));
    ("Family", Z.of_nat (length (iter_families db)));
    ("Event", Z.of_nat (length (iter_events db)));
    ("Place", Z.of_nat (length (iter_places db)));
    ("Media", Z.of_nat (length (iter_media db)));
    ("Source", Z.of_nat (length (iter_sources db)));
    ("Citation", Z.of_nat (length (iter_citations db)));
    ("Repository", Z.of_nat (length (iter_repositories db)));
    ("Note", Z.of_nat (length (iter_notes db)));
    ("Tag", Z.of_nat (length (iter_tags db))) ].

Definition get_object_list (env : Env) (dbname : string)
    : M (Z * list string) :=
  db ← open_readonly_database env dbname;
  let object_list := object_counts db in
  close_readonly_database env db;;
  let object_list := sort_reverse snd object_list in
  let total := sum (snd <$> object_list) in
  mret (total, fst <$> object_list).

Definition TASK_HANDLERS : list (string * (Env -> Args -> nat -> M unit)) :=
  [ ("Person", examine_people);
    ("Family", examine_families);
    ("Event", examine_events);
    ("Place", examine_places);
    ("Media", examine_media);
    ("Source", examine_sources);
    ("Citation", examine_citations);
    ("Repository", examine_repositories);
    ("Note", examine_notes);
    ("Tag", examine_tags) ].

(** The ten object type names, which are the keys of [TASK_HANDLERS]. *)
Definition object_types : list string :=
  ["Person"; "Family"; "Event"; "Place"; "Media"; "Source"; "Citation";
   "Repository"; "Note"; "Tag"].

(** ** [main] *)

(** The body of the first loop: a queue and a started process for
    [obj_type], entered in the dictionaries [queues] and [workers]. *)
Definition spawn (env : Env) (args : Args)
    (st : list (string * nat) * list (string * nat)) (obj_type : string)
    : M (list (string * nat) * list (string * nat)) :=
  let '(workers, queues) := st in
  q ← queue_new;
  let queues := PyDict.update obj_type q queues in
  target ← lift (PyDict.get obj_type TASK_HANDLERS);
  p ← process_new;
  let workers := PyDict.update obj_type p workers in
  process_start p obj_type q (target env args q);;
  mret (workers, queues).

(** The body of the second loop. *)
Definition gather (workers queues : list (string * nat)) (facts : nat)
    (_ : unit) (obj_type : string) : M unit :=
  q ← lift (PyDict.get obj_type queues);
  result_set ← queue_get q;
  p ← lift (PyDict.get obj_type workers);
  process_join p;;
  fold_objects facts result_set.

(** The [latin-1] codec: a byte is the code point of the same number,
    and a code point above 255 cannot be encoded. *)
Definition latin1_decode (b : list Byte.byte) : list N := Byte.to_N <$> b.
Definition latin1_encode (t : list N) : option (list Byte.byte) :=
  mapM Byte.of_N t.

(** [print(text, end=end_)] on the standard output. *)
Definition print (text end_ : list N) : M unit := emit (Stdout (text ++ end_)).

(** The end of [main]: the facts in YAML, or pickled and decoded. *)
Definition print_facts (env : Env) (args : Args) (facts : Dict2) : M unit :=
  if yaml args then
    match yaml_dump env with
    | Some dump => print (dump facts) [10%N]
    | None => emit Stderr
    end
  else print (latin1_decode (pickle_dumps env facts)) [].

(** [main] returns the exit status. *)
Definition main (env : Env) (args : Args) : M Z :=
  r ← catch (get_object_list env (tree_name args));
  match r with
  | None => emit Stderr;; mret 1%Z
  | Some (total, obj_list) =>
      print_time args;;
      '(workers, queues) ← for_eachM (spawn env args) obj_list ([], []);
      facts ← examine_bookmarks env args;
      let obj_list := rev obj_list in
      for_eachM (gather workers queues facts) obj_list tt;;
      merged ← (fun w => (Some (value2 (store w) facts), w));
      print_facts env args merged;;
      print_time args;;
      mret 0%Z
  end.

(** ** A sample run

    A host in which closing a tree deletes its lock file, as the
    docstring of [close_readonly_database] says the host does, and
    writing the lock file creates it; a small tree named ["t"] with
    three media objects, two of which share a path whose file is
    missing. *)
Definition sample_db : Database :=
  mkDatabase "/trees/t"
    [("p1", 5%Z); ("p2", 3%Z)] [("f1", 4%Z)] [] [("l1", 1%Z)]
    [ mkMedia "m1" 7 "scan" "1900" "image/png" false [] "a.png";
      mkMedia "m2" 6 "" "" "" true ["tg"] "gone.png";
      mkMedia "m3" 9 "copy" "" "image/png" false [] "gone.png" ]
    [] [] [] [("n1", 2%Z)] []
    (fun kind => if decide (kind = "person") then ["p1"] else []).

Global Instance PyVal_eq_dec : EqDecision PyVal.
Proof. solve_decision. Defined.

Global Instance PyVal_countable : Countable PyVal.
Proof.
  refine (inj_countable'
    (fun v => match v with
              | VInt n => inl n
              | VStrs l => inr (inl l)
              | VChanged l => inr (inr (inl l))
              | VOther c => inr (inr (inr c))
              end)
    (fun s => match s with
              | inl n => VInt n
              | inr (inl l) => VStrs l
              | inr (inr (inl l)) => VChanged l
              | inr (inr (inr c)) => VOther c
              end) _).
  by intros [].
Defined.

(** A serialiser standing for [pickle] in the sample: the code of the
    value among the positive numbers, one byte for each binary digit. *)
Fixpoint positive_to_bytes (p : positive) : list Byte.byte :=
  match p with
  | xH => []
  | xO p => Byte.x00 :: positive_to_bytes p
  | xI p => Byte.x01 :: positive_to_bytes p
  end.

Fixpoint bytes_to_positive (b : list Byte.byte) : option positive :=
  match b with
  | [] => Some xH
  | Byte.x00 :: b => xO <$> bytes_to_positive b
  | Byte.x01 :: b => xI <$> bytes_to_positive b
  | _ => None
  end.

Definition sample_dumps (d : Dict2) : list Byte.byte :=
  positive_to_bytes (encode d).

Definition sample_loads (b : list Byte.byte) : option Dict2 :=
  bytes_to_positive b ≫= decode.

Definition sample_env : Env :=
  mkEnv
    (fun name => if decide (name = "t") then Some sample_db else None)
    (fun db fs => delete (path_join (save_path db) DBLOCKFN) fs)
    (fun dir fs => <[path_join dir DBLOCKFN := 0%Z]> fs)
    (fun db p => "/media/" +:+ p)
    (fun name db => VOther (String.length name))
    (fun section db =>
       if decide (section = "person") then [("male_total", VInt 1)] else [])
    sample_dumps
    sample_loads
    None.

Definition sample_args : Args := mkArgs "t" false false.

Definition sample_world : World :=
  mkWorld (<["/trees/t/lock" := 0%Z]> (<["/media/a.png" := 2097152%Z]> ∅))
    [] ∅ 0 0 0 (mkStore ∅ ∅).

(** ** Reference descriptions used in the statements *)

(** [close_readonly_database] writes the lock file again when it found
    it and the save path is a non-empty string. *)
Definition lock_kept (db : Database) (fs : gmap string Z) : bool :=
  bool_decide (is_Some (fs !! path_join (save_path db) DBLOCKFN))
  && negb (bool_decide (save_path db = "")).

Definition closed_files (env : Env) (db : Database) (fs : gmap string Z)
    : gmap string Z :=
  if lock_kept db fs then write_lock_file env (save_path db) (db_close env db fs)
  else db_close env db fs.

Definition closed_log (db : Database) (fs : gmap string Z) : list Action :=
  DbClose (save_path db)
    :: (if lock_kept db fs then [LockWritten (save_path db)] else []).

Definition closed_world (env : Env) (db : Database) (w : World) : World :=
  set_log (log w ++ closed_log db (files w))
    (set_files (closed_files env db (files w)) w).



(** The database session is closed before the payload is put. *)
Definition closes_before_put (l : list Action) : Prop :=
  exists l1 l2 l3 dir q payload,
    l = l1 ++ DbClose dir :: l2 ++ QueuePut q payload :: l3.

(** A world at the start of a program: no action yet, no queue, no
    process, no object. *)
Definition initial_world (fs : gmap string Z) : World :=
  mkWorld fs [] ∅ 0 0 0 (mkStore ∅ ∅).

(** The size lookup of [examine_media] for the media object [m] fails:
    it has a path, and no file is at the full name of that path. *)
Definition size_lookup_fails (env : Env) (db : Database)
    (fs : gmap string Z) (m : MediaObject) : Prop :=
  m_path m <> "" /\ fs !! media_path_full env db (m_path m) = None.

(** What [m] adds to the byte total when its size lookup succeeds. *)
Definition size_found (env : Env) (db : Database) (fs : gmap string Z)
    (m : MediaObject) : Z :=
  if bool_decide (m_path m = "") then 0%Z
  else default 0%Z (fs !! media_path_full env db (m_path m)).

(** The actions on queues, on processes and on the standard output,
    also when done by a worker; the other actions are the database
    sessions, the lock file and the lines on the error stream. *)
Fixpoint is_io_action (a : Action) : bool :=
  match a with
  | QueueNew _ | QueuePut _ _ | QueueGet _
  | ProcessStart _ _ _ | ProcessJoin _ | Stdout _ => true
  | InProcess _ a => is_io_action a
  | _ => false
  end.

Definition io_view (l : list Action) : list Action :=
  List.filter is_io_action l.

(** The world after [queue.put(payload)] and after the timing line. *)
Definition put_world (q : nat) (payload : Dict2) (w : World) : World :=
  set_log (log w ++ [QueuePut q payload])
    (set_pending (<[q := (pending w !!! q) ++ [payload]]> (pending w)) w).

Definition timed_world (args : Args) (w : World) : World :=
  if time args then set_log (log w ++ [Stderr]) w else w.

(** A worker given the queue [q] has run from [w] to [w']: of the
    actions on queues, processes and the standard output it did one,
    putting [payload] on [q], and it created no queue and no
    process. *)
Definition worker_ran (q : nat) (payload : Dict2) (w w' : World) : Prop :=
  (exists own, log w' = log w ++ own /\
               io_view own = [QueuePut q payload]) /\
  pending w' = <[q := (pending w !!! q) ++ [payload]]> (pending w) /\
  next_queue w' = next_queue w /\
  next_process w' = next_process w.

(** The number of objects of the type called [name], as
    [get_object_list] reads it. *)
Definition count_of (db : Database) (name : string) : Z :=
  default 0%Z (PyDict.get name (object_counts db)).

(** Every key and subkey of [σ] is still there in [σ']. *)
Definition keeps_keys {V} (σ σ' : Store V) : Prop :=
  (forall d k, is_Some (PyDict.get k (outer σ !!! d)) ->
               is_Some (PyDict.get k (outer σ' !!! d))) /\
  (forall z sk, is_Some (PyDict.get sk (inner σ !!! z)) ->
                is_Some (PyDict.get sk (inner σ' !!! z))).

(** What the two loops of [main] do to queues and processes, for the
    jobs (object type and payload of its worker) in the order of the
    first loop, the first queue being [q] and the first process [p]:
    the first loop makes a queue and starts a process for each job, and
    the worker puts its payload; the second loop, in reverse order,
    gets from the queue of each job and joins its process. *)
Fixpoint spawn_view (q p : nat) (jobs : list (string * Dict2)) : list Action :=
  match jobs with
  | [] => []
  | (name, payload) :: jobs =>
      QueueNew q :: ProcessStart p name q :: InProcess p (QueuePut q payload)
        :: spawn_view (S q) (S p) jobs
  end.

Fixpoint gather_view (q p : nat) (jobs : list (string * Dict2)) : list Action :=
  match jobs with
  | [] => []
  | _ :: jobs => gather_view (S q) (S p) jobs ++ [QueueGet q; ProcessJoin p]
  end.

(** What [print_facts] does. *)
Definition printed_facts (env : Env) (args : Args) (facts : Dict2)
    : list Action :=
  if yaml args then
    match yaml_dump env with
    | Some dump => [Stdout (dump facts ++ [10%N])]
    | None => [Stderr]
    end
  else [Stdout (latin1_decode (pickle_dumps env facts))].

(** What reaches the standard output, which the workers share with the
    main process. *)
Fixpoint is_stdout (a : Action) : bool :=
  match a with
  | Stdout _ => true
  | InProcess _ a => is_stdout a
  | _ => false
  end.

Definition stdout_view (l : list Action) : list Action :=
  List.filter is_stdout l.

(** [d[k][sk]] in a two-level dictionary given as a value. *)
Definition find2 (d : Dict2) (k sk : string) : option PyVal :=
  PyDict.get k d ≫= PyDict.get sk.

(** The entry at [(k, sk)] once the payloads have been folded, one
    after the other, into a dictionary whose entry was [base]: the
    first that is present. *)
Definition merged_entry (base : option PyVal) (payloads : list Dict2)
    (k sk : string) : option PyVal :=
  foldl (fun r d => or_else r (find2 d k sk)) base payloads.

(** The two-level dictionary at [d] was built before the object [n]
    and is a tree: its inner dictionaries are objects below [n], no two
    keys share one, and [d] itself is below [n]. *)
Definition fresh_tree {V} (n : nat) (σ : Store V) (d : nat) : Prop :=
  d < n /\
  (forall k x, PyDict.get k (outer σ !!! d) = Some x -> x < n) /\
  (forall k k' x, PyDict.get k (outer σ !!! d) = Some x ->
                  PyDict.get k' (outer σ !!! d) = Some x -> k = k').

(** The number of elements of [l] that satisfy [P]. *)
Definition how_many {A} (P : A -> Prop) `{forall x, Decision (P x)}
    (l : list A) : Z :=
  Z.of_nat (length (filter P l)).

(** The records (handle and change time) of the objects of the type
    called [name], in the order in which the worker of that type visits
    them. *)
Definition changes_of (db : Database) (name : string) : list entry :=
  default []
    (PyDict.get name
       [ ("Person", iter_people db);
         ("Family", iter_families db);
         ("Event", iter_events db);
         ("Place", iter_places db);
         ("Media", (fun m => (m_handle m, m_change m)) <$> iter_media db);
         ("Source", iter_sources db);
         ("Citation", iter_citations db);
         ("Repository", iter_repositories db);
         ("Note", iter_notes db);
         ("Tag", iter_tags db) ]).

(** ** The counters of the workers

    The loops of [examine_families], [examine_citations] and
    [examine_people], on the fields of the host objects that they read.
    The local variables of a worker are the fields of a record [Acc],
    in a module named after the objects. *)

(** Dictionaries whose keys are not strings: the histograms, keyed by a
    serialised type (the pair that [serialize()] returns), and the
    gender statistics, keyed by the gender. *)
Module PyMap.

Fixpoint get {K V} `{EqDecision K} (k : K) (d : list (K * V)) : option V :=
  match d with
  | [] => None
  | (k', v) :: d => if decide (k = k') then Some v else get k d
  end.

(** [k in d] *)
Definition mem {K V} `{EqDecision K} (k : K) (d : list (K * V)) : bool :=
  match get k d with Some _ => true | None => false end.

(** [d[k] = v] *)
Fixpoint set {K V} `{EqDecision K} (k : K) (v : V) (d : list (K * V))
    : list (K * V) :=
  match d with
  | [] => [(k, v)]
  | (k', v') :: d' =>
      if decide (k = k') then (k, v) :: d' else (k', v') :: set k v d'
  end.

End PyMap.

(** The idiom of every histogram,
<<
    if key not in d:
        d[key] = 0
    d[key] += 1
>>
    where [d[key] += 1] reads [d[key]] (a [KeyError] when absent) and
    stores the sum. *)
Definition count_key {K} `{EqDecision K} (key : K) (d : list (K * Z))
    : option (list (K * Z)) :=
  let d := if negb (PyMap.mem key d) then PyMap.set key 0%Z d else d in
  n ← PyMap.get key d;
  Some (PyMap.set key (n + 1)%Z d).

(** The media references of an object,
<<
    length = len(obj.media_list)
    if length > 0:
        media += 1
        media_refs += length
>>
    giving the new [media] and [media_refs]. *)
Definition count_media (media_list : list handle) (media media_refs : Z)
    : Z * Z :=
  let length := Z.of_nat (length media_list) in
  if (0 <? length)%Z then ((media + 1)%Z, (media_refs + length)%Z)
  else (media, media_refs).

(** The truth value of a handle that may be [None]: [None] and the
    empty string are false. *)
Definition truth (h : option handle) : bool :=
  match h with
  | Some s => negb (bool_decide (s = ""))
  | None => false
  end.

(** A histogram: the value of each key, and the sum of all values. *)
Definition histogram (K : Type) : Type := list (K * Z).

Definition histogram_total {K} (d : histogram K) : Z := sum (d.*2).

(** The serialised form of a host type, a number and a string. *)
Definition type_key : Type := Z * string.

(** An event reference: [get_role().serialize()] and [private]. *)
Record EventRef := mkEventRef { er_role : type_key; er_private : bool }.

(** A child reference: [private], [citation_list] and the serialised
    [mrel] and [frel]. *)
Record ChildRef := mkChildRef {
  cr_private : bool;
  cr_citation_list : list handle;
  cr_mrel : type_key;
  cr_frel : type_key;
}.

(** The fields of a family that [examine_families] reads; [f_type] is
    [family.type.serialize()]. *)
Record Family := mkFamily {
  f_handle : handle;
  f_change : Z;
  f_media_list : list handle;
  f_father_handle : option handle;
  f_mother_handle : option handle;
  f_type : type_key;
  f_citation_list : list handle;
  f_private : bool;
  f_tag_list : list handle;
  f_event_ref_list : list EventRef;
  f_child_ref_list : list ChildRef;
}.

Module Families.

(** The local variables of [examine_families]. *)
Record Acc := mkAcc {
  media : Z; media_refs : Z;
  missing_one : Z; missing_both : Z;
  family_relations : histogram type_key;
  uncited : Z; no_events : Z; private : Z; tagged : Z;
  child : Z; no_child : Z; child_private : Z; child_uncited : Z;
  child_mother_relations : histogram type_key;
  child_father_relations : histogram type_key;
  participant_roles : histogram type_key;
  participant_private : Z;
  last_changed : list entry;
}.

Definition acc0 : Acc :=
  mkAcc 0 0 0 0 [] 0 0 0 0 0 0 0 0 [] [] [] 0 [].

(** The body of the loop over [family.event_ref_list], on
    [participant_roles] and [participant_private]. *)
Definition event_ref_step (st : histogram type_key * Z) (event_ref : EventRef)
    : option (histogram type_key * Z) :=
  let '(participant_roles, participant_private) := st in
  participant_roles ← count_key (er_role event_ref) participant_roles;
  Some (participant_roles,
        count_if (er_private event_ref) participant_private).

(** The body of the loop over [family.child_ref_list], on [child],
    [child_private], [child_uncited] and the two histograms. *)
Definition child_ref_step
    (st : Z * Z * Z * histogram type_key * histogram type_key)
    (child_ref : ChildRef)
    : option (Z * Z * Z * histogram type_key * histogram type_key) :=
  let '(child, child_private, child_uncited, child_mother_relations,
        child_father_relations) := st in
  child_mother_relations ← count_key (cr_mrel child_ref) child_mother_relations;
  child_father_relations ← count_key (cr_frel child_ref) child_father_relations;
  Some ((child + 1)%Z,
        count_if (cr_private child_ref) child_private,
        count_if (bool_decide (cr_citation_list child_ref = [])) child_uncited,
        child_mother_relations, child_father_relations).

(** The body of the loop over the families. *)
Definition step (acc : Acc) (family : Family) : option Acc :=
  let '(media', media_refs') :=
    count_media (f_media_list family) (media acc) (media_refs acc) in
  let father := truth (f_father_handle family) in
  let mother := truth (f_mother_handle family) in
  let '(missing_both', missing_one') :=
    if negb father && negb mother
    then ((missing_both acc + 1)%Z, missing_one acc)
    else if negb father || negb mother
         then (missing_both acc, (missing_one acc + 1)%Z)
         else (missing_both acc, missing_one acc) in
  family_relations' ← count_key (f_type family) (family_relations acc);
  '(no_events', participant_roles', participant_private') ←
    (if bool_decide (f_event_ref_list family = [])
     then Some ((no_events acc + 1)%Z, participant_roles acc,
                participant_private acc)
     else
       '(roles', private') ←
         for_each event_ref_step (f_event_ref_list family)
           (participant_roles acc, participant_private acc);
       Some (no_events acc, roles', private'));
  '(no_child', children) ←
    (if bool_decide (f_child_ref_list family = [])
     then Some ((no_child acc + 1)%Z,
                (child acc, child_private acc, child_uncited acc,
                 child_mother_relations acc, child_father_relations acc))
     else
       children ←
         for_each child_ref_step (f_child_ref_list family)
           (child acc, child_private acc, child_uncited acc,
            child_mother_relations acc, child_father_relations acc);
       Some (no_child acc, children));
  let '(child', child_private', child_uncited', child_mother_relations',
        child_father_relations') := children in
  last_changed' ←
    analyze_change (last_changed acc) (f_handle family) (f_change family) 20;
  Some (mkAcc media' media_refs' missing_one' missing_both' family_relations'
          (count_if (bool_decide (f_citation_list family = [])) (uncited acc))
          no_events'
          (count_if (f_private family) (private acc))
          (count_if (negb (bool_decide (f_tag_list family = []))) (tagged acc))
          child' no_child' child_private' child_uncited'
          child_mother_relations' child_father_relations'
          participant_roles' participant_private' last_changed').

(** The loop of [examine_families] from the initial values. *)
Definition loop (families : list Family) : option Acc :=
  for_each step families acc0.

End Families.

(** The fields of a citation that [examine_citations] reads; [c_date]
    is what [get_date(citation)] returns. *)
Record Citation := mkCitation {
  c_handle : handle;
  c_change : Z;
  c_media_list : list handle;
  c_date : string;
  c_source_handle : option handle;
  c_page : string;
  c_private : bool;
  c_tag_list : list handle;
  c_confidence : Z;
}.

(** The host constants [Citation.CONF_VERY_LOW] to
    [Citation.CONF_VERY_HIGH]. *)
Definition CONF_VERY_LOW : Z := 0.
Definition CONF_LOW : Z := 1.
Definition CONF_NORMAL : Z := 2.
Definition CONF_HIGH : Z := 3.
Definition CONF_VERY_HIGH : Z := 4.

Module Citations.

(** The local variables of [examine_citations]. *)
Record Acc := mkAcc {
  media : Z; media_refs : Z;
  no_source : Z; no_page : Z; no_date : Z; private : Z; tagged : Z;
  very_low : Z; low : Z; normal : Z; high : Z; very_high : Z;
  last_changed : list entry;
}.

Definition acc0 : Acc := mkAcc 0 0 0 0 0 0 0 0 0 0 0 0 [].

(** The body of the loop over the citations. *)
Definition step (acc : Acc) (citation : Citation) : option Acc :=
  let '(media', media_refs') :=
    count_media (c_media_list citation) (media acc) (media_refs acc) in
  let confidence := c_confidence citation in
  let '(very_low', low', normal', high', very_high') :=
    if bool_decide (confidence = CONF_VERY_LOW)
    then ((very_low acc + 1)%Z, low acc, normal acc, high acc, very_high acc)
    else if bool_decide (confidence = CONF_LOW)
    then (very_low acc, (low acc + 1)%Z, normal acc, high acc, very_high acc)
    else if bool_decide (confidence = CONF_NORMAL)
    then (very_low acc, low acc, (normal acc + 1)%Z, high acc, very_high acc)
    else if bool_decide (confidence = CONF_HIGH)
    then (very_low acc, low acc, normal acc, (high acc + 1)%Z, very_high acc)
    else if bool_decide (confidence = CONF_VERY_HIGH)
    then (very_low acc, low acc, normal acc, high acc, (very_high acc + 1)%Z)
    else (very_low acc, low acc, normal acc, high acc, very_high acc) in
  last_changed' ←
    analyze_change (last_changed acc) (c_handle citation)
      (c_change citation) 20;
  Some (mkAcc media' media_refs'
          (count_if (negb (truth (c_source_handle citation))) (no_source acc))
          (count_if (bool_decide (c_page citation = "")) (no_page acc))
          (count_if (bool_decide (c_date citation = "")) (no_date acc))
          (count_if (c_private citation) (private acc))
          (count_if (negb (bool_decide (c_tag_list citation = [])))
             (tagged acc))
          very_low' low' normal' high' very_high' last_changed').

(** The loop of [examine_citations] from the initial values. *)
Definition loop (citations : list Citation) : option Acc :=
  for_each step citations acc0.

End Citations.

(** [ks] counted into the histogram [d], one key after the other. *)
Definition tally {K} `{EqDecision K} (ks : list K) (d : histogram K)
    : histogram K :=
  foldl (fun d k => PyMap.set k (default 0%Z (PyMap.get k d) + 1)%Z d) d ks.

(** A name of a person: whether [get_first_name().strip()] is the
    empty string, and for each entry of [get_surname_list()] whether
    [get_surname().strip()] is. *)
Record Name := mkName {
  n_first_name_blank : bool;
  n_surname_list : list bool;
}.

(** A person reference (an association): [private], [citation_list]
    and [rel]. *)
Record PersonRef := mkPersonRef {
  pr_private : bool;
  pr_citation_list : list handle;
  pr_rel : string;
}.

(** The fields of a birth or death event that [examine_people] reads;
    [le_date] is what [get_date] returns for it. *)
Record LifeEvent := mkLifeEvent {
  le_date : string;
  le_place : option handle;
  le_citation_list : list handle;
  le_private : bool;
}.

(** The fields of a person that [examine_people] reads.  [p_birth_ref]
    and [p_death_ref] hold the [ref] of the reference that
    [get_birth_ref()] and [get_death_ref()] return, if any, and
    [p_probably_alive] is what [probably_alive(person, db)] returns. *)
Record Person := mkPerson {
  p_handle : handle;
  p_change : Z;
  p_media_list : list handle;
  p_primary_name : Name;
  p_alternate_names : list Name;
  p_parent_family_list : list handle;
  p_family_list : list handle;
  p_gender : Z;
  p_private : bool;
  p_tag_list : list handle;
  p_citation_list : list handle;
  p_birth_ref : option handle;
  p_death_ref : option handle;
  p_probably_alive : bool;
  p_person_ref_list : list PersonRef;
  p_event_ref_list : list EventRef;
}.

(** The host constants [Person.FEMALE], [Person.MALE] and
    [Person.UNKNOWN]. *)
Definition FEMALE : Z := 0.
Definition MALE : Z := 1.
Definition UNKNOWN : Z := 2.

Module People.

(** The statistics of one gender, a dictionary with sixteen keys. *)
Definition gender_dict : Type := list (string * Z).

(** The local variables of [examine_people]. *)
Record Acc := mkAcc {
  gender_stats : list (Z * gender_dict);
  media : Z; media_refs : Z;
  incomplete_names : Z; no_families : Z;
  association_roles : histogram string;
  association : Z; association_refs : Z;
  association_private : Z; association_uncited : Z;
  participant_roles : histogram type_key;
  participant : Z; participant_refs : Z;
  participant_private : Z;
  last_changed : list entry;
}.

Definition acc0 : Acc := mkAcc [] 0 0 0 0 [] 0 0 0 0 [] 0 0 0 [].

(** The dictionary that [get_gender_stats] enters for a new gender. *)
Definition new_gender_stats : gender_dict :=
  [ ("total", 0%Z); ("private", 0%Z); ("tagged", 0%Z); ("uncited", 0%Z);
    ("births_missing", 0%Z); ("births_missing_date", 0%Z);
    ("births_missing_place", 0%Z); ("births_uncited", 0%Z);
    ("births_private", 0%Z);
    ("deaths_missing", 0%Z); ("deaths_missing_date", 0%Z);
    ("deaths_missing_place", 0%Z); ("deaths_uncited", 0%Z);
    ("deaths_private", 0%Z);
    ("living", 0%Z); ("living_not_private", 0%Z) ].

(** [get_gender_stats]: the dictionary of the gender, entered first
    when the gender is new.  The function returns the dictionary that
    [gender_stats] holds, not a copy: what the caller then adds to it is
    in [gender_stats], which [step] renders by storing the dictionary
    back. *)
Definition get_gender_stats (gender_stats : list (Z * gender_dict))
    (gender : Z) : option (list (Z * gender_dict) * gender_dict) :=
  let gender_stats :=
    if negb (PyMap.mem gender gender_stats)
    then PyMap.set gender new_gender_stats gender_stats
    else gender_stats in
  stats ← PyMap.get gender gender_stats;
  Some (gender_stats, stats).

(** [gender[key] += 1], and the same under a condition. *)
Definition incr (key : string) (gender : gender_dict) : option gender_dict :=
  n ← PyMap.get key gender;
  Some (PyMap.set key (n + 1)%Z gender).

Definition incr_if (b : bool) (key : string) (gender : gender_dict)
    : option gender_dict :=
  if b then incr key gender else Some gender.

(** The body of the loop over the names of a person, on
    [incomplete_names]. *)
Definition name_step (incomplete_names : Z) (name : Name) : Z :=
  if n_first_name_blank name then (incomplete_names + 1)%Z
  else if negb (bool_decide (n_surname_list name = []))
       then foldl (fun n (blank : bool) => count_if blank n) incomplete_names
              (n_surname_list name)
       else (incomplete_names + 1)%Z.

(** The statements on the birth and on the death of a person.
    [get_event_from_handle] raises for a handle that the tree does not
    have. *)
Definition birth_step (get_event_from_handle : handle -> option LifeEvent)
    (person : Person) (gender : gender_dict) : option gender_dict :=
  match p_birth_ref person with
  | Some ref =>
      birth ← get_event_from_handle ref;
      gender ← incr_if (bool_decide (le_date birth = ""))
                 "births_missing_date" gender;
      gender ← incr_if (negb (truth (le_place birth)))
                 "births_missing_place" gender;
      gender ← incr_if (bool_decide (le_citation_list birth = []))
                 "births_uncited" gender;
      incr_if (le_private birth) "births_private" gender
  | None => incr "births_missing" gender
  end.

Definition death_step (get_event_from_handle : handle -> option LifeEvent)
    (person : Person) (gender : gender_dict) : option gender_dict :=
  match p_death_ref person with
  | Some ref =>
      death ← get_event_from_handle ref;
      gender ← incr_if (bool_decide (le_date death = ""))
                 "deaths_missing_date" gender;
      gender ← incr_if (negb (truth (le_place death)))
                 "deaths_missing_place" gender;
      gender ← incr_if (bool_decide (le_citation_list death = []))
                 "deaths_uncited" gender;
      incr_if (le_private death) "deaths_private" gender
  | None =>
      gender ← incr "deaths_missing" gender;
      if p_probably_alive person then
        gender ← incr "living" gender;
        incr_if (negb (p_private person)) "living_not_private" gender
      else Some gender
  end.

(** The body of the loop over [person.person_ref_list], on
    [association_refs], [association_private], [association_uncited]
    and [association_roles]. *)
Definition person_ref_step (st : Z * Z * Z * histogram string)
    (person_ref : PersonRef) : option (Z * Z * Z * histogram string) :=
  let '(association_refs, association_private, association_uncited,
        association_roles) := st in
  association_roles ← count_key (pr_rel person_ref) association_roles;
  Some ((association_refs + 1)%Z,
        count_if (pr_private person_ref) association_private,
        count_if (bool_decide (pr_citation_list person_ref = []))
          association_uncited,
        association_roles).

(** The body of the loop over [person.event_ref_list], on
    [participant_refs], [participant_roles] and
    [participant_private]. *)
Definition event_ref_step (st : Z * histogram type_key * Z)
    (event_ref : EventRef) : option (Z * histogram type_key * Z) :=
  let '(participant_refs, participant_roles, participant_private) := st in
  participant_roles ← count_key (er_role event_ref) participant_roles;
  Some ((participant_refs + 1)%Z, participant_roles,
        count_if (er_private event_ref) participant_private).

(** The body of the loop over the people. *)
Definition step (get_event_from_handle : handle -> option LifeEvent)
    (acc : Acc) (person : Person) : option Acc :=
  let '(media', media_refs') :=
    count_media (p_media_list person) (media acc) (media_refs acc) in
  let incomplete_names' :=
    foldl name_step (incomplete_names acc)
      ([p_primary_name person] ++ p_alternate_names person) in
  let no_families' :=
    count_if (bool_decide (p_parent_family_list person = [])
              && bool_decide (p_family_list person = []))
      (no_families acc) in
  '(gender_stats', gender) ←
    get_gender_stats (gender_stats acc) (p_gender person);
  gender ← incr "total" gender;
  gender ← incr_if (p_private person) "private" gender;
  gender ← incr_if (negb (bool_decide (p_tag_list person = []))) "tagged"
             gender;
  gender ← incr_if (bool_decide (p_citation_list person = [])) "uncited"
             gender;
  gender ← birth_step get_event_from_handle person gender;
  gender ← death_step get_event_from_handle person gender;
  let gender_stats' := PyMap.set (p_gender person) gender gender_stats' in
  '(association', associations) ←
    (if negb (bool_decide (p_person_ref_list person = []))
     then
       associations ←
         for_each person_ref_step (p_person_ref_list person)
           (association_refs acc, association_private acc,
            association_uncited acc, association_roles acc);
       Some ((association acc + 1)%Z, associations)
     else Some (association acc,
                (association_refs acc, association_private acc,
                 association_uncited acc, association_roles acc)));
  let '(association_refs', association_private', association_uncited',
        association_roles') := associations in
  '(participant', participants) ←
    (if negb (bool_decide (p_event_ref_list person = []))
     then
       participants ←
         for_each event_ref_step (p_event_ref_list person)
           (participant_refs acc, participant_roles acc,
            participant_private acc);
       Some ((participant acc + 1)%Z, participants)
     else Some (participant acc,
                (participant_refs acc, participant_roles acc,
                 participant_private acc)));
  let '(participant_refs', participant_roles', participant_private') :=
    participants in
  last_changed' ←
    analyze_change (last_changed acc) (p_handle person) (p_change person) 20;
  Some (mkAcc gender_stats' media' media_refs' incomplete_names' no_families'
          association_roles' association' association_refs'
          association_private' association_uncited'
          participant_roles' participant' participant_refs'
          participant_private' last_changed').

(** The loop of [examine_people] from the initial values. *)
Definition loop (get_event_from_handle : handle -> option LifeEvent)
    (people : list Person) : option Acc :=
  for_each (step get_event_from_handle) people acc0.

End People.

(** The keys of the statistics of a gender that a person adds one to:
    those of the statements on the birth, those of the statements on the
    death, and all of them in the order of the statements of the
    loop. *)
Definition birth_bumps (get_event_from_handle : handle -> option LifeEvent)
    (person : Person) : list string :=
  match p_birth_ref person with
  | Some ref =>
      match get_event_from_handle ref with
      | Some birth =>
          (if bool_decide (le_date birth = "")
           then ["births_missing_date"] else [])
          ++ (if truth (le_place birth) then [] else ["births_missing_place"])
          ++ (if bool_decide (le_citation_list birth = [])
              then ["births_uncited"] else [])
          ++ (if le_private birth then ["births_private"] else [])
      | None => []
      end
  | None => ["births_missing"]
  end.

Definition death_bumps (get_event_from_handle : handle -> option LifeEvent)
    (person : Person) : list string :=
  match p_death_ref person with
  | Some ref =>
      match get_event_from_handle ref with
      | Some death =>
          (if bool_decide (le_date death = "")
           then ["deaths_missing_date"] else [])
          ++ (if truth (le_place death) then [] else ["deaths_missing_place"])
          ++ (if bool_decide (le_citation_list death = [])
              then ["deaths_uncited"] else [])
          ++ (if le_private death then ["deaths_private"] else [])
      | None => []
      end
  | None =>
      ["deaths_missing"]
      ++ (if p_probably_alive person
          then ["living"]
               ++ (if p_private person then [] else ["living_not_private"])
          else [])
  end.

Definition bumps (get_event_from_handle : handle -> option LifeEvent)
    (person : Person) : list string :=
  ["total"]
  ++ (if p_private person then ["private"] else [])
  ++ (if bool_decide (p_tag_list person = []) then [] else ["tagged"])
  ++ (if bool_decide (p_citation_list person = []) then ["uncited"] else [])
  ++ birth_bumps get_event_from_handle person
  ++ death_bumps get_event_from_handle person.

(** The birth and death references of [person] are handles of events
    of the tree. *)
Definition refs_resolve (get_event_from_handle : handle -> option LifeEvent)
    (person : Person) : Prop :=
  (forall ref, p_birth_ref person = Some ref ->
               is_Some (get_event_from_handle ref)) /\
  (forall ref, p_death_ref person = Some ref ->
               is_Some (get_event_from_handle ref)).

(** The number that [name] adds to [incomplete_names]. *)
Definition incomplete (name : Name) : Z :=
  if n_first_name_blank name then 1%Z
  else if bool_decide (n_surname_list name = []) then 1%Z
       else how_many (fun blank : bool => blank = true) (n_surname_list name).

(** The names of a person. *)
Definition names_of (person : Person) : list Name :=
  p_primary_name person :: p_alternate_names person.

(** The sixteen keys of the statistics of a gender. *)
Definition gender_keys : list string := People.new_gender_stats.*1.

(** Every dictionary of [gender_stats] has the sixteen keys. *)
Definition gender_stats_ok (gender_stats : list (Z * People.gender_dict))
    : Prop :=
  forall gender stats, PyMap.get gender gender_stats = Some stats ->
    forall key, key ∈ gender_keys -> is_Some (PyMap.get key stats).

(** The statistics of [gender] once [person] has been counted. *)
Definition count_person (get_event_from_handle : handle -> option LifeEvent)
    (gender_stats : list (Z * People.gender_dict)) (person : Person)
    : list (Z * People.gender_dict) :=
  PyMap.set (p_gender person)
    (tally (bumps get_event_from_handle person)
       (default People.new_gender_stats
          (PyMap.get (p_gender person) gender_stats)))
    gender_stats.

(** Whether the event that the reference [ref] names passes [test];
    false when there is no reference. *)
Definition event_has (get_event_from_handle : handle -> option LifeEvent)
    (ref : option handle) (test : LifeEvent -> bool) : bool :=
  match ref ≫= get_event_from_handle with
  | Some event => test event
  | None => false
  end.

(** [sub in s] for two strings: [sub] begins at some position of
    [s]. *)
Fixpoint contains (sub s : string) : bool :=
  String.prefix sub s
  || match s with
     | EmptyString => false
     | String _ s' => contains sub s'
     end.

(** The prefix of the keys under which the statistics of a gender are
    entered in the payload; [str(gender)] is the decimal numeral. *)
Definition gender_prefix (gender : Z) : string :=
  if bool_decide (gender = MALE) then "male_"
  else if bool_decide (gender = FEMALE) then "female_"
  else if bool_decide (gender = UNKNOWN) then "unknown_"
  else pretty gender +:+ "_".

(** The section of the payload that [new_key] is entered in. *)
Definition gender_index (new_key : string) : string :=
  if contains "uncited" new_key then "uncited"
  else if contains "private" new_key then "privacy"
  else if contains "tagged" new_key then "tag"
  else "person".

(** The body of the loop over the items of the statistics of a gender:
    [payload[index].update({new_key: value})], which raises when the
    payload has no section [index]. *)
Definition route_entry (prefix : string) (payload : Dict2)
    (item : string * Z) : option Dict2 :=
  let new_key := prefix +:+ item.1 in
  let index := gender_index new_key in
  section ← PyDict.get index payload;
  Some (PyDict.update index (PyDict.update new_key (VInt item.2) section)
          payload).

(** The loop over [gender_stats] that enters every statistic of every
    gender in the payload. *)
Definition route_gender_stats (gender_stats : list (Z * People.gender_dict))
    (payload : Dict2) : option Dict2 :=
  for_each (fun payload gender =>
              stats ← PyMap.get gender gender_stats;
              for_each (route_entry (gender_prefix gender)) stats payload)
    gender_stats.*1 payload.

(** The payload of [examine_people] as the literal builds it, before
    the statistics of the genders are entered. *)
Definition people_sections (total_people : Z) (acc : People.Acc) : Dict2 :=
  [ ("changed", [("Person", VChanged (People.last_changed acc))]);
    ("person",
     [ ("person_total", VInt total_people);
       ("person_incomplete_names", VInt (People.incomplete_names acc));
       ("person_no_family_connection", VInt (People.no_families acc)) ]);
    ("media",
     [ ("person_media", VInt (People.media acc));
       ("person_media_refs", VInt (People.media_refs acc)) ]);
    ("uncited", []);
    ("privacy", []);
    ("tag", []) ].

(** Every character of [s] passes [test]. *)
Fixpoint all_chars (test : Ascii.ascii -> bool) (s : string) : bool :=
  match s with
  | EmptyString => true
  | String a s' => test a && all_chars test s'
  end.

Definition is_not (c a : Ascii.ascii) : bool := negb (Ascii.eqb a c).

Definition digit_or_dash (a : Ascii.ascii) : bool :=
  bool_decide (a ∈ ["0"; "1"; "2"; "3"; "4"; "5"; "6"; "7"; "8"; "9"; "-"]%char).

(** The part of [gender_prefix] before the underscore. *)
Definition gender_body (gender : Z) : string :=
  if bool_decide (gender = MALE) then "male"
  else if bool_decide (gender = FEMALE) then "female"
  else if bool_decide (gender = UNKNOWN) then "unknown"
  else pretty gender.

(** The statistics of the genders as one list of items, each under its
    new key. *)
Definition new_items (gender_stats : list (Z * People.gender_dict))
    : list (string * Z) :=
  gender_stats ≫= (fun g => (fun item : string * Z =>
                               (gender_prefix g.1 +:+ item.1, item.2)) <$> g.2).

(** The section that the statistic [key] of a gender is entered in. *)
Definition section_of (key : string) : string :=
  if bool_decide (key ∈ ["uncited"; "births_uncited"; "deaths_uncited"])
  then "uncited"
  else if bool_decide (key ∈ ["private"; "births_private"; "deaths_private";
                              "living_not_private"])
  then "privacy"
  else if bool_decide (key = "tagged") then "tag"
  else "person".

(** ** Sample people *)

(** A tree with one event, and two people: a man whose birth is that
    event and who has no death, and a person of a fourth gender with
    neither. *)
Definition sample_events (ref : handle) : option LifeEvent :=
  if decide (ref = "e1")
  then Some (mkLifeEvent "1900-01-01" (Some "pl1") [] false)
  else None.

Definition sample_people : list Person :=
  [ mkPerson "p1" 5 ["m1"] (mkName false [false]) [] [] ["f1"] MALE false
      [] ["c1"] (Some "e1") None true
      [mkPersonRef false [] "Friend"] [mkEventRef (1%Z, "") false];
    mkPerson "p2" 7 [] (mkName true []) [mkName false []] [] [] 3 true
      ["t1"] [] None None false [] [] ].

(** Statistics of one gender, and a payload with the four sections
    that the statistics are entered in. *)
Definition sample_gender_stats : list (Z * People.gender_dict) :=
  [(MALE, [("total", 2%Z); ("births_uncited", 1%Z)])].

Definition sample_sections : Dict2 :=
  [("person", [("person_total", VInt 2)]); ("uncited", []); ("privacy", []);
   ("tag", [])].

(** * Part II: lemmas and theorems *)

(** ** List primitives *)

Lemma PyList_length_insert {A} i (x : A) l :
  length (PyList.insert i x l) = S (length l).
Proof.
  unfold PyList.insert. rewrite length_app. cbn [length].
  rewrite length_take, length_drop. lia.
Qed.

Lemma PyList_pop_in_range {A} (l : list A) (i : Z) :
  (0 <= i < Z.of_nat (length l))%Z ->
  PyList.pop l i = Some (delete (Z.to_nat i) l).
Proof.
  intros Hi. unfold PyList.pop.
  destruct (Z.ltb_spec i 0) as [?|_]; [lia|].
  destruct (Z.ltb_spec i 0) as [?|_]; [lia|].
  destruct (Z.leb_spec (Z.of_nat (length l)) i) as [?|_]; [lia|].
  reflexivity.
Qed.

Lemma delete_last_take {A} (l : list A) n :
  length l = S n -> delete n l = take n l.
Proof.
  revert n. induction l as [|a l IH]; intros [|n] Hl; simpl in *; try lia.
  - destruct l; [reflexivity | simpl in Hl; lia].
  - f_equal. apply IH. lia.
Qed.

(** ** The reference insertion *)

Global Instance change_le_trans : Transitive change_le.
Proof. intros a b c; unfold change_le; lia. Qed.

Lemma length_insort e l : length (insort e l) = S (length l).
Proof.
  induction l as [|y l IH]; simpl; [reflexivity|].
  destruct (e.2 <? y.2)%Z; simpl; lia.
Qed.

Lemma insort_elem_of e l x : x ∈ insort e l <-> x = e \/ x ∈ l.
Proof.
  induction l as [|y l IH]; simpl.
  - rewrite list_elem_of_singleton, elem_of_nil. tauto.
  - destruct (e.2 <? y.2)%Z; rewrite !elem_of_cons; [tauto|].
    rewrite IH. tauto.
Qed.

Lemma insort_sorted e l :
  StronglySorted change_le l -> StronglySorted change_le (insort e l).
Proof.
  induction 1 as [|y l Hl IH Hy]; simpl.
  - repeat constructor.
  - destruct (Z.ltb_spec e.2 y.2) as [Hlt|Hge].
    + constructor; [by constructor|].
      constructor; [unfold change_le; lia|].
      eapply Forall_impl; [exact Hy|].
      intros z Hz; unfold change_le in *; lia.
    + constructor; [exact IH|].
      apply Forall_forall. intros z Hz.
      apply insort_elem_of in Hz as [->|Hz]; [exact Hge|].
      rewrite Forall_forall in Hy. by apply Hy.
Qed.

Lemma insort_Permutation e l : insort e l ≡ₚ e :: l.
Proof.
  induction l as [|y l IH]; simpl; [reflexivity|].
  destruct (e.2 <? y.2)%Z; [reflexivity|].
  rewrite IH. apply Permutation_swap.
Qed.

(** Inserting at an index that separates the entries not newer than [e]
    from the strictly newer ones is the reference insertion. *)
Lemma insert_is_insort e l r :
  Forall (fun y => (y.2 <= e.2)%Z) (take r l) ->
  Forall (fun y => (e.2 < y.2)%Z) (drop r l) ->
  PyList.insert r e l = insort e l.
Proof.
  unfold PyList.insert. revert r.
  induction l as [|y l IH]; intros r Hle Hgt.
  - by destruct r.
  - destruct r as [|r]; simpl in *.
    + apply Forall_cons in Hgt as [Hy _].
      destruct (Z.ltb_spec e.2 y.2); [reflexivity|lia].
    + apply Forall_cons in Hle as [Hy Hle].
      destruct (Z.ltb_spec e.2 y.2); [lia|].
      f_equal. by apply IH.
Qed.

Lemma take_insort_take e l n :
  take n (insort e (take n l)) = take n (insort e l).
Proof.
  revert n. induction l as [|y l IH]; intros [|n]; simpl; try reflexivity.
  destruct (e.2 <? y.2)%Z; simpl.
  - f_equal. destruct n; simpl; [reflexivity|].
    rewrite take_take. do 2 f_equal. lia.
  - f_equal. apply IH.
Qed.

(** ** [bisect] on a list in ascending order *)

Lemma bisect_loop_spec fuel (l : list entry) x lo hi :
  StronglySorted change_le l ->
  hi - lo <= fuel -> lo <= hi -> hi <= length l ->
  Forall (fun y => (y.2 <= x)%Z) (take lo l) ->
  Forall (fun y => (x < y.2)%Z) (drop hi l) ->
  exists r, bisect_loop fuel (mkKeyWrapper l snd) x lo hi = Some r /\
    Forall (fun y => (y.2 <= x)%Z) (take r l) /\
    Forall (fun y => (x < y.2)%Z) (drop r l).
Proof.
  intros Hs. revert lo hi.
  induction fuel as [|fuel IH]; intros lo hi Hfuel Hlohi Hhi Hlo Hup;
    cbn [bisect_loop].
  - destruct (Nat.ltb_spec lo hi); [lia|].
    assert (lo = hi) as -> by lia. eauto.
  - destruct (Nat.ltb_spec lo hi) as [Hlt|Hge].
    2:{ assert (lo = hi) as -> by lia. eauto. }
    set (mid := (lo + hi) `div` 2).
    assert (lo <= mid < hi) as Hmid.
    { subst mid. split.
      - apply Nat.div_le_lower_bound; lia.
      - apply Nat.Div0.div_lt_upper_bound; lia. }
    destruct (lookup_lt_is_Some_2 l mid) as [y Hy]; [lia|].
    fold mid. unfold getitem; cbn [iter key]. rewrite Hy. cbn [fmap option_fmap option_map mbind option_bind].
    pose proof (take_drop_middle l mid y Hy) as Hsplit.
    rewrite <- Hsplit in Hs.
    apply StronglySorted_app in Hs as (Hcross & _ & Hs2).
    apply StronglySorted_cons in Hs2 as [Hs2 _].
    destruct (Z.ltb_spec x y.2) as [Hxy|Hxy].
    + apply IH; [lia|lia|lia|exact Hlo|].
      rewrite (drop_S l y mid Hy). constructor; [exact Hxy|].
      eapply Forall_impl; [exact Hs2|].
      intros z Hz. unfold change_le in Hz. lia.
    + apply IH; [lia|lia|lia| |].
      * rewrite (take_S_r l mid y Hy). apply Forall_app. split.
        -- apply Forall_forall. intros z Hz.
           specialize (Hcross z y Hz). unfold change_le in Hcross.
           rewrite elem_of_cons in Hcross. specialize (Hcross (or_introl eq_refl)).
           lia.
        -- repeat constructor. exact Hxy.
      * exact Hup.
Qed.

Lemma bisect_spec (l : list entry) x :
  StronglySorted change_le l ->
  exists r, bisect (mkKeyWrapper l snd) x = Some r /\
    Forall (fun y => (y.2 <= x)%Z) (take r l) /\
    Forall (fun y => (x < y.2)%Z) (drop r l).
Proof.
  intros Hs. unfold bisect, len; cbn [iter].
  apply bisect_loop_spec; [exact Hs|lia|lia|lia|by rewrite take_0|].
  rewrite drop_all. constructor.
Qed.

(** On a bounded ascending list [analyze_change] is the reference
    insertion followed by a cut at [max_length]. *)
Lemma analyze_change_sorted l h c (max_length : Z) :
  StronglySorted change_le l ->
  (Z.of_nat (length l) <= max_length)%Z ->
  analyze_change l h c max_length
  = Some (take (Z.to_nat max_length) (insort (h, c) l)).
Proof.
  intros Hs Hlen. unfold analyze_change.
  destruct (bisect_spec l c Hs) as (r & -> & Hle & Hgt). cbn.
  rewrite (insert_is_insort (h, c) l r Hle Hgt).
  rewrite length_insort.
  destruct (Z.ltb_spec max_length (Z.of_nat (S (length l)))) as [Hlt|Hge].
  - rewrite PyList_pop_in_range by (rewrite length_insort; lia).
    f_equal. apply delete_last_take. rewrite length_insort. lia.
  - f_equal. symmetry. apply take_ge. rewrite length_insort. lia.
Qed.

(** ** Dictionaries *)

Lemma PyDict_get_update_eq {V} k (v : V) d :
  PyDict.get k (PyDict.update k v d) = Some v.
Proof.
  induction d as [|[k' v'] d IH]; simpl.
  - by rewrite decide_True.
  - destruct (decide (k = k')) as [->|Hne]; simpl.
    + by rewrite decide_True.
    + by rewrite decide_False.
Qed.

Lemma PyDict_get_update_ne {V} k k' (v : V) d :
  k <> k' -> PyDict.get k' (PyDict.update k v d) = PyDict.get k' d.
Proof.
  intros Hne. induction d as [|[k0 v0] d IH]; simpl.
  - by rewrite decide_False.
  - destruct (decide (k = k0)) as [->|Hne0]; simpl.
    + by rewrite !decide_False.
    + by rewrite IH.
Qed.

Lemma PyDict_mem_true {V} k (d : list (string * V)) :
  PyDict.mem k d = true <-> is_Some (PyDict.get k d).
Proof.
  unfold PyDict.mem. destruct (PyDict.get k d); split; intros H; try done;
    try (by eexists); by destruct H.
Qed.

Lemma PyDict_mem_false {V} k (d : list (string * V)) :
  PyDict.mem k d = false <-> PyDict.get k d = None.
Proof. unfold PyDict.mem. by destruct (PyDict.get k d). Qed.

Lemma PyDict_elem_of_keys {V} k (d : list (string * V)) :
  k ∈ PyDict.keys d <-> is_Some (PyDict.get k d).
Proof.
  unfold PyDict.keys. induction d as [|[k' v] d IH]; simpl.
  - rewrite elem_of_nil. split; [done|]. by intros [? ?].
  - rewrite elem_of_cons, IH. destruct (decide (k = k')) as [->|Hne].
    + split; eauto.
    + split; [by intros [?|?]|by right].
Qed.

Lemma or_else_keys {V} k (ks : list string) (d : list (string * V)) :
  ks = PyDict.keys d ->
  (if decide (k ∈ ks) then PyDict.get k d else None) = PyDict.get k d.
Proof.
  intros ->. destruct (decide _) as [|Hn]; [done|].
  rewrite PyDict_elem_of_keys in Hn.
  destruct (PyDict.get k d); [|done]. destruct Hn; eauto.
Qed.

(** ** Loops *)

(** A loop invariant indexed by the elements already visited. *)
Lemma for_each_invariant {S A} (body : S -> A -> option S)
    (P : list A -> S -> Prop) (l : list A) (s : S) :
  P [] s ->
  (forall visited a s, a ∈ l -> P visited s ->
     exists s', body s a = Some s' /\ P (visited ++ [a]) s') ->
  exists s', for_each body l s = Some s' /\ P l s'.
Proof.
  intros H0 Hstep.
  assert (forall rest visited s, (forall a, a ∈ rest -> a ∈ l) -> P visited s ->
     exists s', for_each body rest s = Some s' /\ P (visited ++ rest) s') as Hgen.
  { induction rest as [|a rest IH]; intros visited s0 Hin HP; simpl.
    - rewrite app_nil_r. eauto.
    - destruct (Hstep visited a s0) as (s1 & -> & HP1);
        [apply Hin; by left|exact HP|]. simpl.
      destruct (IH (visited ++ [a]) s1) as (s2 & Hs2 & HP2);
        [intros; apply Hin; by right|exact HP1|].
      rewrite <- app_assoc in HP2. eauto. }
  apply (Hgen l [] s); auto.
Qed.

Lemma for_each_fixed {S A} (body : S -> A -> option S) (l : list A) (s : S) :
  (forall a, a ∈ l -> body s a = Some s) -> for_each body l s = Some s.
Proof.
  induction l as [|a l IH]; intros H; simpl; [done|].
  rewrite H by (by left). simpl. apply IH. intros; apply H; by right.
Qed.

Lemma if_elem_of_snoc_ne {A B} `{EqDecision A} (x a : A) (l : list A) (u w : B) :
  x <> a ->
  (if decide (x ∈ l ++ [a]) then u else w) = (if decide (x ∈ l) then u else w).
Proof.
  intros Hne. destruct (decide (x ∈ l)) as [Hin|Hin].
  - rewrite decide_True; [done|]. apply elem_of_app. by left.
  - rewrite decide_False; [done|]. rewrite elem_of_app, list_elem_of_singleton.
    tauto.
Qed.

Lemma if_elem_of_snoc_eq {A B} `{EqDecision A} (a : A) (l : list A) (u w : B) :
  (if decide (a ∈ l ++ [a]) then u else w) = u.
Proof.
  rewrite decide_True; [done|].
  apply elem_of_app. right. by apply list_elem_of_singleton.
Qed.

(** ** The inner loop of [fold] *)

Section fold_facts.
Context {V : Type}.
Implicit Types σ : Store V.

(** Nothing happens when [one[key]] already has every subkey. *)
Lemma fold_inner_noop σ one two key x (d : list (string * V)) :
  PyDict.get key (outer σ !!! one) = Some x ->
  (forall sk, is_Some (PyDict.get sk d) ->
              is_Some (PyDict.get sk (inner σ !!! x))) ->
  for_each (fold_subkey one two key) (PyDict.keys d) σ = Some σ.
Proof.
  intros Hx Hsub. apply for_each_fixed. intros sk Hsk.
  unfold fold_subkey. rewrite Hx. simpl.
  apply PyDict_elem_of_keys, Hsub, PyDict_mem_true in Hsk. by rewrite Hsk.
Qed.

(** Otherwise [two[key]] is merged into [one[key]], which is the only
    object that changes. *)
Lemma fold_inner_merge σ one two key x y :
  PyDict.get key (outer σ !!! one) = Some x ->
  PyDict.get key (outer σ !!! two) = Some y ->
  x <> y ->
  exists σ',
    for_each (fold_subkey one two key) (PyDict.keys (inner σ !!! y)) σ
    = Some σ' /\
    outer σ' = outer σ /\
    (forall z, z <> x -> inner σ' !!! z = inner σ !!! z) /\
    forall sk, PyDict.get sk (inner σ' !!! x)
               = or_else (PyDict.get sk (inner σ !!! x))
                   (PyDict.get sk (inner σ !!! y)).
Proof.
  intros Hx Hy Hxy.
  destruct (for_each_invariant (fold_subkey one two key)
    (fun visited σc =>
       outer σc = outer σ /\
       (forall z, z <> x -> inner σc !!! z = inner σ !!! z) /\
       forall sk, PyDict.get sk (inner σc !!! x)
                  = or_else (PyDict.get sk (inner σ !!! x))
                      (if decide (sk ∈ visited)
                       then PyDict.get sk (inner σ !!! y) else None))
    (PyDict.keys (inner σ !!! y)) σ) as (σ' & Hrun & Ho & Hz & Hsk).
  - split; [done|]. split; [done|]. intros sk.
    rewrite decide_False by apply not_elem_of_nil.
    by destruct (PyDict.get sk (inner σ !!! x)).
  - intros visited a σc Ha (Ho & Hz & Hsk).
    unfold fold_subkey. rewrite Ho, Hx. simpl.
    destruct (PyDict.mem a (inner σc !!! x)) eqn:Hmem; simpl.
    + eexists; split; [done|]. split; [done|]. split; [done|].
      intros sk. rewrite Hsk.
      destruct (decide (sk = a)) as [->|Hne].
      * rewrite if_elem_of_snoc_eq.
        apply PyDict_mem_true in Hmem. rewrite Hsk in Hmem.
        destruct (PyDict.get a (inner σ !!! x)); [done|]. simpl in *.
        destruct (decide (a ∈ visited)); [done|]. by destruct Hmem.
      * by rewrite if_elem_of_snoc_ne.
    + rewrite Hy. simpl. rewrite (Hz y) by done.
      apply PyDict_elem_of_keys in Ha as [v Hv]. rewrite Hv. simpl.
      eexists; split; [done|]. unfold set_inner; simpl.
      split; [done|]. split.
      * intros z Hzx. rewrite lookup_total_insert_ne by congruence.
        by apply Hz.
      * intros sk. rewrite lookup_total_insert_eq.
        destruct (decide (sk = a)) as [->|Hne].
        -- rewrite PyDict_get_update_eq, if_elem_of_snoc_eq.
           apply PyDict_mem_false in Hmem. rewrite Hsk in Hmem.
           by destruct (PyDict.get a (inner σ !!! x)).
        -- rewrite PyDict_get_update_ne by done.
           by rewrite Hsk, if_elem_of_snoc_ne.
  - exists σ'. split; [done|]. split; [done|]. split; [done|].
    intros sk. by rewrite Hsk, or_else_keys.
Qed.

(** ** The outer loop of [fold] *)

Lemma or_else_idem (p q : option V) : or_else (or_else p q) q = or_else p q.
Proof. destruct p; [reflexivity|]. simpl. by destruct q. Qed.

Lemma fold_outcome σ one two :
  unshared σ one two ->
  exists σ', fold one two σ = Some σ' /\
    fold_invariant σ one two (PyDict.keys (outer σ !!! two)) σ'.
Proof.
  intros [Hinj Hcross]. unfold fold.
  apply for_each_invariant.
  - split; [done|]. split.
    + intros k. rewrite decide_False by apply not_elem_of_nil.
      by destruct (PyDict.get k _).
    + split; [done|]. intros k x y Hk. by apply not_elem_of_nil in Hk.
  - intros visited a σc Ha (HA & HB & HC & HD).
    apply PyDict_elem_of_keys in Ha as [y Hy].
    unfold fold_key. rewrite HA, Hy. simpl.
    destruct (PyDict.mem a (outer σc !!! one)) eqn:Hmem; simpl.
    + pose proof Hmem as Hmem'.
      apply PyDict_mem_true in Hmem' as [x' Hx'].
      destruct (decide (x' = y)) as [->|Hne].
      * exists σc. split.
        { eapply fold_inner_noop; [exact Hx'|auto]. }
        split; [done|]. split.
        { intros k. rewrite HB. destruct (decide (k = a)) as [->|Hka].
          - rewrite if_elem_of_snoc_eq. rewrite HB in Hx'.
            destruct (PyDict.get a (outer σ !!! one)); [done|]. simpl in *.
            by destruct (decide (a ∈ visited)).
          - by rewrite if_elem_of_snoc_ne. }
        split.
        { intros z Hz. apply HC. intros k y0 Hk. apply Hz.
          apply elem_of_app; by left. }
        intros k x0 y0 Hk Hk1 Hk2 Hne0. apply elem_of_app in Hk as [Hk|Hk].
        { by apply (HD k x0 y0). }
        apply list_elem_of_singleton in Hk as ->. exfalso.
        rewrite HB, Hk1 in Hx'. simpl in Hx'. congruence.
      * assert (PyDict.get a (outer σ !!! one) = Some x') as Hx1.
        { rewrite HB in Hx'.
          destruct (PyDict.get a (outer σ !!! one)); [done|]. simpl in Hx'.
          destruct (decide (a ∈ visited)); congruence. }
        assert (PyDict.get a (outer σc !!! two) = Some y) as HAc
          by (by rewrite HA).
        destruct (fold_inner_merge σc one two a x' y Hx' HAc Hne)
          as (σ' & Hrun & Ho & Hz & Hsk).
        assert (inner σc !!! y = inner σ !!! y) as Hyy.
        { apply HC. intros k y0 _ Hk1 Hk2.
          pose proof (Hcross k a y Hk1 Hy) as ->. congruence. }
        exists σ'. split; [exact Hrun|].
        split; [by rewrite Ho|]. split.
        { intros k. rewrite Ho, HB. destruct (decide (k = a)) as [->|Hka].
          - by rewrite Hx1.
          - by rewrite if_elem_of_snoc_ne. }
        split.
        { intros z Hzp. assert (z <> x') as Hzx.
          { intros ->. apply Hne. apply (Hzp a y); [|done|done].
            apply elem_of_app. right. by apply list_elem_of_singleton. }
          rewrite Hz by done. apply HC. intros k y0 Hk. apply Hzp.
          apply elem_of_app; by left. }
        intros k x0 y0 Hk Hk1 Hk2 Hne0 sk.
        destruct (decide (k = a)) as [->|Hka].
        { assert (x0 = x') as -> by congruence.
          assert (y0 = y) as -> by congruence.
          rewrite Hsk, Hyy. destruct (decide (a ∈ visited)) as [Hin|Hin].
          - rewrite (HD a x' y Hin Hx1 Hy Hne). apply or_else_idem.
          - rewrite (HC x'); [done|]. intros k y1 Hk' Hk1' _.
            pose proof (Hinj k a x' Hk1' Hx1) as ->. done. }
        assert (x0 <> x') as Hx0.
        { intros ->. apply Hka. by apply (Hinj k a x'). }
        rewrite Hz by done. apply (HD k x0 y0); try done.
        apply elem_of_app in Hk as [|Hk]; [done|].
        by apply list_elem_of_singleton in Hk.
    + apply PyDict_mem_false in Hmem.
      assert (one <> two) as Hot.
      { intros ->. rewrite HA, Hy in Hmem. done. }
      assert (PyDict.get a (outer σ !!! one) = None /\ a ∉ visited)
        as [Hnone Hnv].
      { rewrite HB in Hmem.
        destruct (PyDict.get a (outer σ !!! one)); [done|]. simpl in Hmem.
        split; [done|]. intros Hin. rewrite decide_True in Hmem by done.
        congruence. }
      eexists. split; [done|]. unfold fold_invariant, set_outer; simpl.
      split. { by rewrite lookup_total_insert_ne. }
      split.
      { intros k. rewrite lookup_total_insert_eq.
        destruct (decide (k = a)) as [->|Hka].
        - by rewrite PyDict_get_update_eq, if_elem_of_snoc_eq, Hnone.
        - rewrite PyDict_get_update_ne by done.
          by rewrite HB, if_elem_of_snoc_ne. }
      split.
      { intros z Hzp. apply HC. intros k y0 Hk. apply Hzp.
        apply elem_of_app; by left. }
      intros k x0 y0 Hk Hk1 Hk2 Hne0. apply elem_of_app in Hk as [Hk|Hk].
      { by apply (HD k x0 y0). }
      apply list_elem_of_singleton in Hk as ->. congruence.
Qed.

(** The state [fold] stops in, read off the invariant once every key of
    [two] has been visited. *)
Lemma fold_outcome_final σ one two :
  unshared σ one two ->
  exists σ', fold one two σ = Some σ' /\
    outer σ' !!! two = outer σ !!! two /\
    (forall k, PyDict.get k (outer σ' !!! one)
               = or_else (PyDict.get k (outer σ !!! one))
                   (PyDict.get k (outer σ !!! two))) /\
    (forall z, (forall k y, PyDict.get k (outer σ !!! one) = Some z ->
                            PyDict.get k (outer σ !!! two) = Some y -> z = y) ->
               inner σ' !!! z = inner σ !!! z) /\
    (forall k x y, PyDict.get k (outer σ !!! one) = Some x ->
                   PyDict.get k (outer σ !!! two) = Some y -> x <> y ->
       forall sk, PyDict.get sk (inner σ' !!! x)
                  = or_else (PyDict.get sk (inner σ !!! x))
                      (PyDict.get sk (inner σ !!! y))).
Proof.
  intros Hun. destruct (fold_outcome σ one two Hun) as (σ' & Hrun & HA & HB & HC & HD).
  exists σ'. split; [exact Hrun|]. split; [exact HA|]. split.
  { intros k. by rewrite HB, or_else_keys. }
  split.
  { intros z Hz. apply HC. intros k y _. apply Hz. }
  intros k x y Hk1 Hk2. apply (HD k); [|done|done].
  apply PyDict_elem_of_keys. eauto.
Qed.

(** The inner dictionaries of [two] are not written to. *)
Lemma fold_keeps_inner_of_two σ σ' one two :
  unshared σ one two ->
  (forall z, (forall k y, PyDict.get k (outer σ !!! one) = Some z ->
                          PyDict.get k (outer σ !!! two) = Some y -> z = y) ->
             inner σ' !!! z = inner σ !!! z) ->
  forall k y, PyDict.get k (outer σ !!! two) = Some y ->
              inner σ' !!! y = inner σ !!! y.
Proof.
  intros [_ Hcross] HC k y Hy. apply HC. intros k0 y0 Hk1 Hk2.
  pose proof (Hcross k0 k y Hk1 Hy) as ->. congruence.
Qed.

End fold_facts.

(** ** [fold]: merging and idempotence *)

(** C3, amended: when no inner dictionary of [one] is shared with
    another key of [one] or with a different key of [two],
    [fold(one, two)] returns, every entry [(k, sk)] of [one] keeps its
    value, every entry of [two] that [one] lacked is in [one] with the
    value it has in [two], and [two] is left as it was. *)
Theorem fold_merges_unshared {V} (σ : Store V) (one two : nat) :
  unshared σ one two -> fold_merges σ one two.
Proof.
  intros Hun. pose proof Hun as [Hinj Hcross].
  destruct (fold_outcome_final σ one two Hun)
    as (σ' & Hrun & HA & HB & HC & HD).
  pose proof (fold_keeps_inner_of_two σ σ' one two Hun HC) as Htwo.
  exists σ'. split; [exact Hrun|]. split; [|split].
  - intros k sk v. unfold lookup2. rewrite HB.
    destruct (PyDict.get k (outer σ !!! one)) as [x|] eqn:Hx; [|done].
    simpl. intros Hl.
    destruct (PyDict.get k (outer σ !!! two)) as [y|] eqn:Hy.
    + destruct (decide (x = y)) as [->|Hne].
      * by rewrite (Htwo k y Hy).
      * by rewrite (HD k x y Hx Hy Hne), Hl.
    + rewrite HC; [done|]. intros k0 y0 Hk1 Hk2.
      pose proof (Hinj k0 k x Hk1 Hx) as ->. congruence.
  - intros k sk v. unfold lookup2. rewrite HA, HB.
    destruct (PyDict.get k (outer σ !!! two)) as [y|] eqn:Hy; [|by intros _ ?].
    simpl. intros Hnone Hsome. rewrite (Htwo k y Hy). split; [|done].
    destruct (PyDict.get k (outer σ !!! one)) as [x|] eqn:Hx; simpl in *.
    + destruct (decide (x = y)) as [->|Hne]; [congruence|].
      by rewrite (HD k x y Hx Hy Hne), Hnone.
    + by rewrite (Htwo k y Hy).
  - split; [exact HA|exact Htwo].
Qed.

Lemma store_apart_unshared : unshared store_apart 0 1.
Proof.
  assert (outer store_apart !!! 0 = [("a", 10)]) as E0 by reflexivity.
  assert (outer store_apart !!! 1 = [("a", 11); ("b", 12)]) as E1
    by reflexivity.
  unfold unshared. rewrite E0, E1. clear E0 E1. simpl.
  split; intros k k' x; repeat case_decide; congruence.
Defined.

Lemma fold_merges_unshared_witness : fold_merges store_apart 0 1.
Proof. apply fold_merges_unshared. exact store_apart_unshared. Defined.

(** C3 as stated fails on [store_shared]: the merge of [two["a"]] into
    [one["a"]] writes to the object that is also [two["b"]]. *)
Lemma fold_merges_counterexample : ~ fold_merges store_shared 0 1.
Proof.
  intros (σ' & Hrun & _ & _ & _ & Hsame).
  vm_compute in Hrun. injection Hrun as <-.
  specialize (Hsame "b" 10 eq_refl). vm_compute in Hsame. discriminate.
Qed.





(** ** The bounded list of [analyze_change] *)

Lemma StronglySorted_take {A} (R : relation A) (l : list A) n :
  StronglySorted R l -> StronglySorted R (take n l).
Proof.
  intros Hs. rewrite <- (take_drop n l) in Hs.
  by apply StronglySorted_app_1_l in Hs.
Qed.

Lemma sort_by_change_from_sorted records l :
  StronglySorted change_le l ->
  StronglySorted change_le (foldl (fun l e => insort e l) l records).
Proof.
  revert l. induction records as [|e records IH]; intros l Hl; simpl.
  - exact Hl.
  - apply IH. by apply insort_sorted.
Qed.

Lemma sort_by_change_sorted records :
  StronglySorted change_le (sort_by_change records).
Proof. apply sort_by_change_from_sorted. constructor. Qed.

Lemma sort_by_change_from_Permutation records l :
  foldl (fun l e => insort e l) l records ≡ₚ l ++ records.
Proof.
  revert l. induction records as [|e records IH]; intros l; simpl.
  - by rewrite app_nil_r.
  - rewrite IH, insort_Permutation. simpl. apply Permutation_middle.
Qed.

Lemma sort_by_change_Permutation records : sort_by_change records ≡ₚ records.
Proof. apply (sort_by_change_from_Permutation records []). Qed.

(** Started from the first [max_length] entries of an ascending list,
    the loop ends with the first [max_length] entries of that list
    extended by the records. *)
Lemma analyze_changes_from records (full : list entry) (n : nat) :
  StronglySorted change_le full ->
  analyze_changes (take n full) records (Z.of_nat n)
  = Some (take n (foldl (fun l e => insort e l) full records)).
Proof.
  revert full. induction records as [|[h c] records IH]; intros full Hs; simpl.
  - reflexivity.
  - rewrite analyze_change_sorted.
    + simpl. rewrite Nat2Z.id, take_insort_take. apply IH.
      by apply insort_sorted.
    + by apply StronglySorted_take.
    + rewrite length_take. lia.
Qed.

(** Whatever the records, [analyze_change] keeps the [max_length]
    entries of least change, in ascending order. *)
Lemma analyze_changes_keeps_oldest records (n : nat) :
  analyze_changes [] records (Z.of_nat n)
  = Some (take n (sort_by_change records)).
Proof.
  rewrite <- (take_nil n) at 1. apply analyze_changes_from. constructor.
Qed.

(** ** Running computations *)

Lemma bind_run {A B} (c : M A) (f : A -> M B) w a w' :
  c w = (Some a, w') -> (c ≫= f) w = f a w'.
Proof. intros H. unfold mbind, M_bind. by rewrite H. Qed.

Lemma bind_raise {A B} (c : M A) (f : A -> M B) w w' :
  c w = (None, w') -> (c ≫= f) w = (None, w').
Proof. intros H. unfold mbind, M_bind. by rewrite H. Qed.

Lemma set_log_app l1 l2 l3 w :
  set_log ((l1 ++ l2) ++ l3) w = set_log (l1 ++ l2 ++ l3) w.
Proof. by rewrite <- app_assoc. Qed.

(** ** Closing the database *)

Lemma close_readonly_database_run env db w :
  close_readonly_database env db w = (Some tt, closed_world env db w).
Proof.
  unfold close_readonly_database, closed_world, closed_files, closed_log,
    lock_kept, isfile, emit, mbind, M_bind, mret, M_ret.
  destruct w as [fs l p nq np no σ]; simpl.
  destruct (bool_decide (is_Some (fs !! path_join (save_path db) DBLOCKFN)));
    simpl; [|done].
  destruct (bool_decide (save_path db = "")); simpl; [done|].
  unfold set_log, set_files; simpl. by rewrite <- app_assoc.
Qed.





(** ** Dictionaries made by a process *)

Lemma or_else_same {U} (a : option U) : or_else a a = a.
Proof. by destruct a. Qed.

Lemma or_else_None_r {U} (a : option U) : or_else a None = a.
Proof. by destruct a. Qed.

(** After [fold(one, two)] on unshared dictionaries, each key of [one]
    refers to what it referred to, or to what it refers to in [two],
    and each entry of [one] is its old entry or else that of [two]. *)
Lemma fold_lookup2 {V} (σ : Store V) one two :
  unshared σ one two ->
  exists σ', fold one two σ = Some σ' /\
    (forall k, PyDict.get k (outer σ' !!! one)
               = or_else (PyDict.get k (outer σ !!! one))
                   (PyDict.get k (outer σ !!! two))) /\
    (forall k sk, lookup2 σ' one k sk
                  = or_else (lookup2 σ one k sk) (lookup2 σ two k sk)).
Proof.
  intros Hun. pose proof Hun as [Hinj Hcross].
  destruct (fold_outcome_final σ one two Hun)
    as (σ' & Hrun & HA & HB & HC & HD).
  pose proof (fold_keeps_inner_of_two σ σ' one two Hun HC) as Htwo.
  exists σ'. split; [exact Hrun|]. split; [exact HB|].
  intros k sk. unfold lookup2. rewrite HB.
  destruct (PyDict.get k (outer σ !!! one)) as [x|] eqn:Hx; simpl.
  - destruct (PyDict.get k (outer σ !!! two)) as [y|] eqn:Hy; simpl.
    + destruct (decide (x = y)) as [->|Hne].
      * by rewrite (Htwo k y Hy), or_else_same.
      * by rewrite (HD k x y Hx Hy Hne).
    + rewrite or_else_None_r, HC; [done|]. intros k0 y0 Hk1 Hk2.
      pose proof (Hinj k0 k x Hk1 Hx) as ->. congruence.
  - destruct (PyDict.get k (outer σ !!! two)) as [y|] eqn:Hy; simpl; [|done].
    by rewrite (Htwo k y Hy).
Qed.

Lemma find2_value2 (σ : Store PyVal) d k sk :
  find2 (value2 σ d) k sk = lookup2 σ d k sk.
Proof.
  unfold find2, lookup2, value2.
  induction (outer σ !!! d) as [|[k' x] o IH]; simpl; [done|].
  by destruct (decide (k = k')).
Qed.

(** The objects [alloc_inners] makes are the numbers from [n] on, one
    for each binding, holding the inner dictionaries of the value. *)
Lemma alloc_inners_spec d : forall n (σ : Store PyVal) o n' σ',
  alloc_inners d n σ = (o, n', σ') ->
  n <= n' /\ outer σ' = outer σ /\
  (forall z, z < n -> inner σ' !!! z = inner σ !!! z) /\
  (forall k x, PyDict.get k o = Some x -> n <= x < n') /\
  (forall k k' x, PyDict.get k o = Some x -> PyDict.get k' o = Some x ->
                  k = k') /\
  (forall k, (fun x => inner σ' !!! x) <$> PyDict.get k o = PyDict.get k d).
Proof.
  induction d as [|[k0 i] d IH]; intros n σ o n' σ'; simpl.
  - intros [= <- <- <-]. repeat split; try done; lia.
  - destruct (alloc_inners d (S n) (set_inner n i σ)) as [[o1 n1] σ1] eqn:E.
    intros [= <- <- <-].
    destruct (IH _ _ _ _ _ E) as (Hle & Ho & Hin & Hloc & Hinj & Hval).
    assert (inner σ1 !!! n = i) as Hn.
    { rewrite Hin by lia. simpl. by rewrite lookup_total_insert_eq. }
    split; [lia|]. split; [done|]. split.
    { intros z Hz. rewrite Hin by lia. simpl.
      by rewrite lookup_total_insert_ne by lia. }
    split; [|split].
    + intros k x. simpl. destruct (decide (k = k0)).
      * intros [= <-]. lia.
      * intros Hk. apply Hloc in Hk. lia.
    + intros k k' x. simpl.
      destruct (decide (k = k0)) as [->|], (decide (k' = k0)) as [->|];
        try done.
      * intros [= <-] Hk'. apply Hloc in Hk'. lia.
      * intros Hk [= <-]. apply Hloc in Hk. lia.
      * apply Hinj.
    + intros k. simpl. destruct (decide (k = k0)); simpl; [by rewrite Hn|].
      apply Hval.
Qed.

Lemma new_dict2_spec d w :
  exists loc w',
    new_dict2 d w = (Some loc, w') /\
    log w' = log w /\ pending w' = pending w /\
    next_queue w' = next_queue w /\ next_process w' = next_process w /\
    next_object w <= loc /\ next_object w' = S loc /\
    (forall d', d' <> loc -> outer (store w') !!! d' = outer (store w) !!! d') /\
    (forall z, z < next_object w ->
               inner (store w') !!! z = inner (store w) !!! z) /\
    (forall k x, PyDict.get k (outer (store w') !!! loc) = Some x ->
                 next_object w <= x < loc) /\
    (forall k k' x, PyDict.get k (outer (store w') !!! loc) = Some x ->
                    PyDict.get k' (outer (store w') !!! loc) = Some x ->
                    k = k') /\
    (forall k, (fun x => inner (store w') !!! x)
                 <$> PyDict.get k (outer (store w') !!! loc)
               = PyDict.get k d) /\
    (forall k sk, lookup2 (store w') loc k sk = find2 d k sk).
Proof.
  unfold new_dict2.
  destruct (alloc_inners d (next_object w) (store w)) as [[o n] σ] eqn:E.
  destruct (alloc_inners_spec _ _ _ _ _ _ E)
    as (Hle & Ho & Hin & Hloc & Hinj & Hval).
  exists n. eexists. split; [reflexivity|]. simpl.
  rewrite lookup_total_insert_eq.
  split; [done|]. split; [done|]. split; [done|]. split; [done|].
  split; [exact Hle|]. split; [done|].
  split; [|split; [exact Hin|split; [exact Hloc|split; [exact Hinj|split;
    [exact Hval|]]]]].
  - intros d' Hd'. rewrite lookup_total_insert_ne by done. by rewrite Ho.
  - intros k sk. unfold lookup2, find2. simpl. rewrite lookup_total_insert_eq.
    rewrite <- Hval. by destruct (PyDict.get k o).
Qed.

Lemma get_value2 {V} (σ : Store V) d k :
  PyDict.get k (value2 σ d)
  = (fun x => inner σ !!! x) <$> PyDict.get k (outer σ !!! d).
Proof.
  unfold value2.
  induction (outer σ !!! d) as [|[k' x] o IH]; simpl; [done|].
  by destruct (decide (k = k')).
Qed.

(** ** The workers *)

Lemma open_readonly_database_run env name db w :
  lookup_family_tree env name = Some db ->
  open_readonly_database env name w
  = (Some db, set_log (log w ++ [DbLoad name]) w).
Proof. intros H. unfold open_readonly_database. by rewrite H. Qed.

Lemma print_time_run args w : print_time args w = (Some tt, timed_world args w).
Proof. unfold print_time, timed_world. by destruct (time args). Qed.

Lemma for_eachM_analyze records l l' w :
  analyze_changes l records 20 = Some l' ->
  for_eachM (fun last_changed (obj : entry) =>
               lift (analyze_change last_changed obj.1 obj.2 20))
    records l w
  = (Some l', w).
Proof.
  revert l. induction records as [|[h c] records IH]; intros l; simpl.
  - by intros [= ->].
  - destruct (analyze_change l h c 20) as [l1|] eqn:E; [|done]. simpl.
    intros H. unfold mbind, M_bind. simpl. by apply IH.
Qed.

Lemma analyze_changes_20 records :
  analyze_changes [] records 20 = Some (take 20 (sort_by_change records)).
Proof. apply (analyze_changes_keeps_oldest records 20). Qed.

(** The run of a worker of the common shape. *)
Lemma examine_run type_name iter sections env args queue db w :
  lookup_family_tree env (tree_name args) = Some db ->
  examine type_name iter sections env args queue w
  = (Some tt,
     timed_world args
       (put_world queue
          (("changed",
            [(type_name, VChanged (take 20 (sort_by_change (iter db))))])
             :: sections env db)
          (closed_world env db
             (set_log (log w ++ [DbLoad (tree_name args)]) w)))).
Proof.
  intros Hdb. unfold examine.
  rewrite (bind_run _ _ _ _ _ (open_readonly_database_run _ _ _ _ Hdb)).
  rewrite (bind_run _ _ _ _ _
             (for_eachM_analyze _ _ _ _ (analyze_changes_20 (iter db)))).
  rewrite (bind_run _ _ _ _ _ (close_readonly_database_run _ _ _)).
  unfold queue_put at 1. unfold mbind at 1, M_bind at 1.
  apply print_time_run.
Qed.

(** ** [examine_media] *)

(** One turn of the loop: the world is only read. *)
Lemma examine_media_step_run env db acc m w full :
  StronglySorted change_le full ->
  last_changed acc = take 20 full ->
  exists acc',
    examine_media_step env db acc m w = (Some acc', w) /\
    last_changed acc' = take 20 (insort (m_handle m, m_change m) full) /\
    not_found acc'
    = (if bool_decide (m_path m = "") then not_found acc
       else match files w !! media_path_full env db (m_path m) with
            | Some _ => not_found acc
            | None => if list_mem (m_path m) (not_found acc)
                      then not_found acc
                      else not_found acc ++ [m_path m]
            end) /\
    size_bytes acc' = (size_bytes acc + size_found env db (files w) m)%Z.
Proof.
  intros Hs Hlc.
  assert (analyze_change (last_changed acc) (m_handle m) (m_change m) 20
          = Some (take 20 (insort (m_handle m, m_change m) full))) as Han.
  { rewrite Hlc. rewrite (analyze_change_sorted _ _ _ 20).
    - change (Z.to_nat 20) with 20. by rewrite take_insort_take.
    - by apply StronglySorted_take.
    - rewrite length_take. lia. }
  unfold examine_media_step, size_found, getsize, mbind, M_bind, mret, M_ret.
  destruct (bool_decide (m_path m = "")); simpl.
  - rewrite Han. simpl. eexists. split; [reflexivity|]. simpl.
    repeat split; lia.
  - destruct (files w !! media_path_full env db (m_path m)) as [n|]; simpl;
      rewrite Han; simpl; (eexists; split; [reflexivity|]); simpl.
    + repeat split; lia.
    + repeat split; [|lia].
      by destruct (list_mem (m_path m) (not_found acc)).
Qed.

Lemma examine_media_loop env db w ms : forall acc full,
  StronglySorted change_le full ->
  last_changed acc = take 20 full ->
  NoDup (not_found acc) ->
  exists acc',
    for_eachM (examine_media_step env db) ms acc w = (Some acc', w) /\
    last_changed acc'
    = take 20 (foldl (fun l e => insort e l) full
                 ((fun m => (m_handle m, m_change m)) <$> ms)) /\
    NoDup (not_found acc') /\
    (forall p, p ∈ not_found acc' <->
       p ∈ not_found acc \/
       exists m, m ∈ ms /\ m_path m = p /\
                 size_lookup_fails env db (files w) m) /\
    size_bytes acc'
    = (size_bytes acc + sum (size_found env db (files w) <$> ms))%Z.
Proof.
  induction ms as [|m ms IH]; intros acc full Hs Hlc Hnd; simpl.
  - exists acc. split; [done|]. split; [done|]. split; [done|]. split; [|lia].
    intros p. split; [by left|]. intros [?|(m & Hm & _)]; [done|].
    by apply elem_of_nil in Hm.
  - destruct (examine_media_step_run env db acc m w full Hs Hlc)
      as (acc1 & Hrun & Hlc1 & Hnf1 & Hsz1).
    assert (NoDup (not_found acc1) /\
            forall p, p ∈ not_found acc1 <->
              p ∈ not_found acc \/
              (m_path m = p /\ size_lookup_fails env db (files w) m))
      as [Hnd1 Hin1].
    { rewrite Hnf1. unfold size_lookup_fails, list_mem.
      destruct (bool_decide_reflect (m_path m = "")) as [He|He].
      { split; [done|]. intros p. split; [by left|]. intros [?|[_ [? _]]]; done. }
      destruct (files w !! media_path_full env db (m_path m)) as [n|].
      { split; [done|]. intros p. split; [by left|].
        intros [?|[_ [_ ?]]]; done. }
      destruct (bool_decide_reflect (m_path m ∈ not_found acc)) as [Hi|Hi].
      { split; [done|]. intros p. split; [by left|].
        intros [?|[<- _]]; done. }
      split.
      - apply NoDup_app. split; [done|]. split; [|apply NoDup_singleton].
        intros x Hx Hx'. apply list_elem_of_singleton in Hx' as ->. done.
      - intros p. rewrite elem_of_app, list_elem_of_singleton.
        split; [intros [?| ->]; [by left|by right]|].
        intros [?|[<- _]]; [by left|by right]. }
    destruct (IH acc1 (insort (m_handle m, m_change m) full))
      as (acc' & Hloop & Hlc' & Hnd' & Hin' & Hsz');
      [by apply insort_sorted|exact Hlc1|exact Hnd1|].
    exists acc'. split.
    { by rewrite (bind_run _ _ _ _ _ Hrun). }
    split; [exact Hlc'|]. split; [exact Hnd'|].
    split; [|rewrite Hsz', Hsz1; unfold sum; simpl; by rewrite Z.add_assoc].
    intros p. rewrite Hin', Hin1. split.
    + intros [[?|[Hp Hf]]|(m' & Hm' & Hp & Hf)]; [by left| |].
      * right. exists m. split; [by left|done].
      * right. exists m'. split; [by right|done].
    + intros [?|(m' & Hm' & Hp & Hf)]; [by left; left|].
      apply elem_of_cons in Hm' as [->|Hm'].
      * left; right. done.
      * right. by exists m'.
Qed.

Lemma examine_media_run env args queue db w :
  lookup_family_tree env (tree_name args) = Some db ->
  exists acc,
    examine_media env args queue w
    = (Some tt,
       timed_world args
         (put_world queue
            (media_payload (Z.of_nat (length (iter_media db))) acc)
            (set_log (log w ++ [DbLoad (tree_name args)]) w))) /\
    last_changed acc
    = take 20 (sort_by_change
                 ((fun m => (m_handle m, m_change m)) <$> iter_media db)) /\
    NoDup (not_found acc) /\
    (forall p, p ∈ not_found acc <->
       exists m, m ∈ iter_media db /\ m_path m = p /\
                 size_lookup_fails env db (files w) m) /\
    size_bytes acc = sum (size_found env db (files w) <$> iter_media db).
Proof.
  intros Hdb.
  destruct (examine_media_loop env db
              (set_log (log w ++ [DbLoad (tree_name args)]) w)
              (iter_media db) media_acc0 [])
    as (acc & Hloop & Hlc & Hnd & Hin & Hsz);
    [constructor|done|constructor|].
  exists acc. split; [|split; [exact Hlc|split; [exact Hnd|split]]].
  - unfold examine_media.
    rewrite (bind_run _ _ _ _ _ (open_readonly_database_run _ _ _ _ Hdb)).
    rewrite (bind_run _ _ _ _ _ Hloop).
    unfold queue_put at 1. unfold mbind at 1, M_bind at 1.
    apply print_time_run.
  - intros p. rewrite Hin. simpl. split; [|by right].
    intros [Hp|?]; [|done]. by apply elem_of_nil in Hp.
  - rewrite Hsz. simpl. lia.
Qed.

(** C4: for every tree, [examine_media] runs to its end and puts its
    payload whichever size lookups fail; the paths in the payload's
    [media_not_found] are pairwise distinct and are exactly the paths
    of the media objects that have a path and whose size lookup
    failed, and the byte total is the sum of the sizes that were
    found. *)
Theorem examine_media_not_found env args queue db w :
  lookup_family_tree env (tree_name args) = Some db ->
  exists acc w',
    examine_media env args queue w = (Some tt, w') /\
    log w'
    = log w
      ++ [DbLoad (tree_name args);
          QueuePut queue
            (media_payload (Z.of_nat (length (iter_media db))) acc)]
      ++ (if time args then [Stderr] else []) /\
    (PyDict.get "media"
       (media_payload (Z.of_nat (length (iter_media db))) acc)
     ≫= PyDict.get "media_not_found") = Some (VStrs (not_found acc)) /\
    NoDup (not_found acc) /\
    (forall p, p ∈ not_found acc <->
       exists m, m ∈ iter_media db /\ m_path m = p /\
                 size_lookup_fails env db (files w) m) /\
    size_bytes acc = sum (size_found env db (files w) <$> iter_media db).
Proof.
  intros Hdb.
  destruct (examine_media_run env args queue db w Hdb)
    as (acc & Hrun & _ & Hnd & Hin & Hsz).
  exists acc. eexists. split; [exact Hrun|].
  split; [|split; [reflexivity|split; [exact Hnd|split; [exact Hin|exact Hsz]]]].
  unfold timed_world, put_world. destruct (time args); simpl.
  - by rewrite <- !app_assoc.
  - by rewrite <- !app_assoc.
Qed.

Lemma sample_tree_found :
  lookup_family_tree sample_env (tree_name sample_args) = Some sample_db.
Proof. reflexivity. Defined.

Lemma examine_media_not_found_witness :
  exists acc w',
    examine_media sample_env sample_args 0 sample_world = (Some tt, w') /\
    log w'
    = log sample_world
      ++ [DbLoad (tree_name sample_args);
          QueuePut 0
            (media_payload (Z.of_nat (length (iter_media sample_db))) acc)]
      ++ (if time sample_args then [Stderr] else []) /\
    (PyDict.get "media"
       (media_payload (Z.of_nat (length (iter_media sample_db))) acc)
     ≫= PyDict.get "media_not_found") = Some (VStrs (not_found acc)) /\
    NoDup (not_found acc) /\
    (forall p, p ∈ not_found acc <->
       exists m, m ∈ iter_media sample_db /\ m_path m = p /\
                 size_lookup_fails sample_env sample_db
                   (files sample_world) m) /\
    size_bytes acc
    = sum (size_found sample_env sample_db (files sample_world)
             <$> iter_media sample_db).
Proof. apply examine_media_not_found. exact sample_tree_found. Defined.

(** ** What a worker leaves behind *)

Lemma io_view_app l1 l2 :
  io_view (l1 ++ l2) = io_view l1 ++ io_view l2.
Proof. apply List.filter_app. Qed.

Lemma io_view_closed_log db fs : io_view (closed_log db fs) = [].
Proof. unfold closed_log. by destruct (lock_kept db fs). Qed.

Lemma worker_ran_intro q payload args w w0 pre :
  io_view pre = [] ->
  log w0 = log w ++ pre ->
  pending w0 = pending w ->
  next_queue w0 = next_queue w ->
  next_process w0 = next_process w ->
  worker_ran q payload w (timed_world args (put_world q payload w0)).
Proof.
  intros Hpre Hlog Hp Hq Hpr. unfold worker_ran, timed_world, put_world.
  split.
  - exists (pre ++ QueuePut q payload :: (if time args then [Stderr] else [])).
    split.
    + destruct (time args); simpl; rewrite Hlog; by rewrite <- !app_assoc.
    + rewrite io_view_app, Hpre. by destruct (time args).
  - destruct (time args); simpl; by rewrite Hp.
Qed.

Lemma examine_ran type_name iter sections env args queue db w :
  lookup_family_tree env (tree_name args) = Some db ->
  exists w',
    examine type_name iter sections env args queue w = (Some tt, w') /\
    worker_ran queue
      (("changed", [(type_name, VChanged (take 20 (sort_by_change (iter db))))])
         :: sections env db) w w' /\
    closes_before_put (log w').
Proof.
  intros Hdb. eexists. split; [by apply examine_run|]. split.
  - apply (worker_ran_intro _ _ _ _ _
             (DbLoad (tree_name args) :: closed_log db (files w))); try done.
    + simpl. apply io_view_closed_log.
    + simpl. by rewrite <- app_assoc.
  - exists (log w ++ [DbLoad (tree_name args)]),
      (if lock_kept db (files w) then [LockWritten (save_path db)] else []),
      (if time args then [Stderr] else []), (save_path db), queue.
    eexists. unfold timed_world, put_world, closed_world, closed_log.
    destruct (time args); simpl; by rewrite <- !app_assoc.
Qed.

Lemma examine_media_ran env args queue db w :
  lookup_family_tree env (tree_name args) = Some db ->
  exists acc w',
    examine_media env args queue w = (Some tt, w') /\
    worker_ran queue
      (media_payload (Z.of_nat (length (iter_media db))) acc) w w' /\
    last_changed acc
    = take 20 (sort_by_change
                 ((fun m => (m_handle m, m_change m)) <$> iter_media db)).
Proof.
  intros Hdb.
  destruct (examine_media_run env args queue db w Hdb) as (acc & Hrun & Hlc & _).
  exists acc. eexists. split; [exact Hrun|]. split; [|exact Hlc].
  by apply (worker_ran_intro _ _ _ _ _ [DbLoad (tree_name args)]).
Qed.

(** The run of [examine_people]: the two dictionaries it folds share
    no object, the tree is closed before the put, and the ["changed"]
    section of what it puts is the one it built. *)
Lemma examine_people_ran env args queue db w :
  lookup_family_tree env (tree_name args) = Some db ->
  exists w' payload,
    examine_people env args queue w = (Some tt, w') /\
    worker_ran queue payload w w' /\
    PyDict.get "changed" payload
    = Some [("Person", VChanged (take 20 (sort_by_change (iter_people db))))] /\
    closes_before_put (log w').
Proof.
  intros Hdb. unfold examine_people.
  rewrite (bind_run _ _ _ _ _ (open_readonly_database_run _ _ _ _ Hdb)).
  rewrite (bind_run _ _ _ _ _
             (for_eachM_analyze _ _ _ _ (analyze_changes_20 (iter_people db)))).
  rewrite (bind_run _ _ _ _ _ (close_readonly_database_run _ _ _)).
  set (w2 := closed_world env db
               (set_log (log w ++ [DbLoad (tree_name args)]) w)).
  set (lc := take 20 (sort_by_change (iter_people db))).
  destruct (new_dict2_spec (people_payload env db lc) w2)
    as (payload & w3 & Hnew3 & Hlog3 & Hp3 & Hq3 & Hpr3 & Hle3 & Hn3 & _ & _
        & Hloc3 & Hinj3 & Hval3 & _).
  rewrite (bind_run _ _ _ _ _ Hnew3).
  destruct (new_dict2_spec (people_append env db) w3)
    as (append & w4 & Hnew4 & Hlog4 & Hp4 & Hq4 & Hpr4 & Hle4 & Hn4 & Hout4
        & Hin4 & Hloc4 & _ & Hval4 & _).
  rewrite (bind_run _ _ _ _ _ Hnew4).
  assert (outer (store w4) !!! payload = outer (store w3) !!! payload) as Ho.
  { apply Hout4. lia. }
  assert (unshared (store w4) payload append) as Hun.
  { unfold unshared. rewrite Ho. split; [exact Hinj3|].
    intros k k' x Hk Hk'. apply Hloc3 in Hk. apply Hloc4 in Hk'. lia. }
  destruct (fold_outcome_final (store w4) payload append Hun)
    as (σ & Hfold & _ & HB & HC & _).
  unfold mbind at 1, M_bind at 1, fold_objects. rewrite Hfold.
  unfold mbind at 1, M_bind at 1. unfold queue_put at 1.
  unfold mbind at 1, M_bind at 1. rewrite print_time_run.
  do 2 eexists. split; [reflexivity|]. cbn [store set_store].
  split; [|split].
  - apply (worker_ran_intro _ _ _ _ _
             (DbLoad (tree_name args) :: closed_log db (files w))); simpl.
    + apply io_view_closed_log.
    + rewrite Hlog4, Hlog3. subst w2. simpl. by rewrite <- app_assoc.
    + by rewrite Hp4, Hp3.
    + by rewrite Hq4, Hq3.
    + by rewrite Hpr4, Hpr3.
  - rewrite get_value2, HB, Ho.
    pose proof (Hval3 "changed") as Hc. simpl in Hc.
    destruct (PyDict.get "changed" (outer (store w3) !!! payload))
      as [z|] eqn:Hz; [|done].
    simpl in *. injection Hc as Hc. f_equal.
    rewrite HC, Hin4; [done| |].
    + apply Hloc3 in Hz. lia.
    + intros k y Hk Hk'. rewrite Ho in Hk.
      pose proof (Hinj3 k "changed" z Hk Hz) as ->.
      pose proof (Hval4 "changed") as Hc'. simpl in Hc'.
      rewrite Hk' in Hc'. done.
  - exists (log w ++ [DbLoad (tree_name args)]),
      (if lock_kept db (files w) then [LockWritten (save_path db)] else []),
      (if time args then [Stderr] else []), (save_path db), queue.
    eexists. unfold timed_world, put_world.
    destruct (time args); simpl; rewrite Hlog4, Hlog3; subst w2;
      unfold closed_world, closed_log; simpl; by rewrite <- !app_assoc.
Qed.



(** The same run, with the list named: the twenty oldest records of
    the objects of that type. *)
Lemma task_handler_changed name handler env args queue db w :
  (name, handler) ∈ TASK_HANDLERS ->
  lookup_family_tree env (tree_name args) = Some db ->
  exists w' payload,
    handler env args queue w = (Some tt, w') /\
    worker_ran queue payload w w' /\
    PyDict.get "changed" payload
    = Some [(name, VChanged (take 20 (sort_by_change (changes_of db name))))].
Proof.
  intros Hin Hdb. unfold TASK_HANDLERS in Hin.
  repeat (apply elem_of_cons in Hin as [[= -> ->]|Hin]);
    try (by apply elem_of_nil in Hin);
    unfold examine_families, examine_events, examine_places,
      examine_sources, examine_citations, examine_repositories,
      examine_notes, examine_tags;
    try (match goal with
         | |- context [examine ?n ?it ?sec] =>
             destruct (examine_ran n it sec env args queue db w Hdb)
               as (w' & Hrun & Hran & _);
             exists w'; eexists; split; [exact Hrun|];
             split; [exact Hran|]; reflexivity
         end).
  - destruct (examine_people_ran env args queue db w Hdb)
      as (w' & payload & Hrun & Hran & Hchanged & _).
    by exists w', payload.
  - destruct (examine_media_ran env args queue db w Hdb)
      as (acc & w' & Hrun & Hran & Hlc).
    exists w'. eexists. split; [exact Hrun|]. split; [exact Hran|].
    simpl. by rewrite Hlc.
Qed.

(** ** The claims on the bounded list and on the open/close discipline *)



(** C1, on the records [("a", 1)], [("b", 2)], [("c", 3)] fed in this
    order with [max_length = 2]: the list ends as [("a", 1); ("b", 2)],
    so the record of greatest change is the one that was dropped. *)
Theorem analyze_changes_drops_newest :
  analyze_changes [] [("a", 1%Z); ("b", 2%Z); ("c", 3%Z)] 2
  = Some [("a", 1%Z); ("b", 2%Z)].
Proof. reflexivity. Qed.

(** [examine_media] does not close the tree, whatever the tree. *)
Lemma examine_media_no_close env args queue db w :
  lookup_family_tree env (tree_name args) = Some db ->
  exists payload w',
    examine_media env args queue w = (Some tt, w') /\
    log w' = log w ++ [DbLoad (tree_name args); QueuePut queue payload]
                   ++ (if time args then [Stderr] else []).
Proof.
  intros Hdb.
  destruct (examine_media_run env args queue db w Hdb) as (acc & Hrun & _).
  do 2 eexists. split; [exact Hrun|].
  unfold timed_world, put_world.
  destruct (time args); simpl; by rewrite <- !app_assoc.
Qed.

(** C2, on the sample tree: [examine_media] runs to its end, and all
    it does is to load the tree and to put its payload; the tree is not
    closed before the put, nor after it. *)
Theorem examine_media_leaves_database_open :
  (examine_media sample_env sample_args 0 sample_world).1 = Some tt /\
  (exists payload,
      log (examine_media sample_env sample_args 0 sample_world).2
      = [DbLoad "t"; QueuePut 0 payload]) /\
  ~ closes_before_put
      (log (examine_media sample_env sample_args 0 sample_world).2).
Proof.
  destruct (examine_media_no_close sample_env sample_args 0 sample_db
              sample_world eq_refl) as (payload & w' & Hrun & Hlog).
  rewrite Hrun. simpl. rewrite Hlog. simpl.
  split; [done|]. split; [by exists payload|].
  intros (l1 & l2 & l3 & dir & q & p & H).
  assert (DbClose dir ∈ [DbLoad "t"; QueuePut 0 payload]) as Hin.
  { rewrite H. apply elem_of_app. right. apply list_elem_of_here. }
  apply elem_of_cons in Hin as [?|Hin]; [done|].
  apply elem_of_cons in Hin as [?|Hin]; [done|].
  by apply elem_of_nil in Hin.
Qed.



(** ** [get_object_list] *)

Section sort_reverse_facts.
Context {A : Type} (key : A -> Z).

Lemma sort_insert_Permutation x l : sort_insert key x l ≡ₚ x :: l.
Proof.
  induction l as [|y l IH]; simpl; [done|].
  destruct (key x <? key y)%Z; [|done].
  rewrite IH. apply Permutation_swap.
Qed.

Lemma sort_reverse_Permutation l : sort_reverse key l ≡ₚ l.
Proof.
  induction l as [|x l IH]; simpl; [done|].
  unfold sort_reverse in *. simpl. by rewrite sort_insert_Permutation, IH.
Qed.

Lemma sort_insert_sorted x l :
  StronglySorted (fun a b => (key b <= key a)%Z) l ->
  StronglySorted (fun a b => (key b <= key a)%Z) (sort_insert key x l).
Proof.
  induction 1 as [|y l Hl IH Hy]; simpl.
  - repeat constructor.
  - destruct (Z.ltb_spec (key x) (key y)) as [Hlt|Hge].
    + constructor; [exact IH|].
      apply Forall_forall. intros z Hz.
      rewrite sort_insert_Permutation in Hz.
      apply elem_of_cons in Hz as [->|Hz]; [lia|].
      rewrite Forall_forall in Hy. by apply Hy.
    + constructor; [by constructor|].
      constructor; [lia|].
      eapply Forall_impl; [exact Hy|]. simpl. intros z Hz. lia.
Qed.

Lemma sort_reverse_sorted l :
  StronglySorted (fun a b => (key b <= key a)%Z) (sort_reverse key l).
Proof.
  induction l as [|x l IH]; simpl; [constructor|].
  by apply sort_insert_sorted.
Qed.

End sort_reverse_facts.

Lemma sum_Permutation l1 l2 : l1 ≡ₚ l2 -> sum l1 = sum l2.
Proof.
  unfold sum. induction 1; simpl; lia.
Qed.

Lemma StronglySorted_fmap_elem_of {A B} (f : A -> B) (R : relation A)
    (R' : relation B) (l : list A) :
  (forall a b, a ∈ l -> b ∈ l -> R a b -> R' (f a) (f b)) ->
  StronglySorted R l -> StronglySorted R' (f <$> l).
Proof.
  intros HR Hs. induction Hs as [|a l Hs IH Ha]; simpl; [constructor|].
  constructor.
  - apply IH. intros x y Hx Hy. apply HR; by right.
  - apply Forall_fmap, Forall_forall. intros b Hb. simpl.
    rewrite Forall_forall in Ha. apply HR; [by left|by right|by apply Ha].
Qed.

Lemma count_of_object_counts db name c :
  (name, c) ∈ object_counts db -> count_of db name = c.
Proof.
  intros Hin. unfold object_counts in Hin.
  repeat (apply elem_of_cons in Hin as [[= -> ->]|Hin]); try reflexivity.
  by apply elem_of_nil in Hin.
Qed.

Lemma get_object_list_run env dbname db w :
  lookup_family_tree env dbname = Some db ->
  get_object_list env dbname w
  = (Some (sum ((sort_reverse snd (object_counts db)).*2),
           (sort_reverse snd (object_counts db)).*1),
     closed_world env db (set_log (log w ++ [DbLoad dbname]) w)).
Proof.
  intros Hdb. unfold get_object_list.
  rewrite (bind_run _ _ _ _ _ (open_readonly_database_run _ _ _ _ Hdb)).
  by rewrite (bind_run _ _ _ _ _ (close_readonly_database_run _ _ _)).
Qed.

Lemma get_object_list_names db :
  (sort_reverse snd (object_counts db)).*1
  ≡ₚ object_types.
Proof. by rewrite (sort_reverse_Permutation snd (object_counts db)). Qed.

Lemma get_object_list_outcome env dbname db w :
  lookup_family_tree env dbname = Some db ->
  exists total names w',
    get_object_list env dbname w = (Some (total, names), w') /\
    names ≡ₚ object_types /\
    Sorted (fun a b => (count_of db b <= count_of db a)%Z) names /\
    Forall (fun name => is_Some (PyDict.get name TASK_HANDLERS)) names /\
    total = sum ((object_counts db).*2).
Proof.
  intros Hdb. do 3 eexists. split; [by apply get_object_list_run|].
  split; [apply get_object_list_names|]. split; [|split].
  - apply StronglySorted_Sorted.
    apply (StronglySorted_fmap_elem_of fst (fun a b => (b.2 <= a.2)%Z));
      [|apply sort_reverse_sorted].
    intros [n c] [n' c'] Hn Hn' Hle.
    rewrite (sort_reverse_Permutation snd (object_counts db)) in Hn, Hn'.
    simpl. by rewrite (count_of_object_counts db n c),
                      (count_of_object_counts db n' c').
  - apply Forall_forall. intros name Hname.
    rewrite get_object_list_names in Hname.
    repeat (apply elem_of_cons in Hname as [->|Hname]); try (by eexists).
    by apply elem_of_nil in Hname.
  - apply sum_Permutation.
    by rewrite (sort_reverse_Permutation snd (object_counts db)).
Qed.



(** ** [fold] never raises *)

Section fold_total.
Context {V : Type}.
Implicit Types σ : Store V.

Lemma keeps_keys_refl σ : keeps_keys σ σ.
Proof. by split. Qed.

Lemma keeps_keys_trans σ1 σ2 σ3 :
  keeps_keys σ1 σ2 -> keeps_keys σ2 σ3 -> keeps_keys σ1 σ3.
Proof. intros [H1 H2] [H3 H4]. split; eauto. Qed.

Lemma PyDict_update_keeps {U} k k' (v : U) d :
  is_Some (PyDict.get k' d) -> is_Some (PyDict.get k' (PyDict.update k v d)).
Proof.
  intros H. destruct (decide (k = k')) as [->|Hne].
  - rewrite PyDict_get_update_eq. by eexists.
  - by rewrite PyDict_get_update_ne.
Qed.

Lemma fold_inner_total σ one two key y ks :
  is_Some (PyDict.get key (outer σ !!! one)) ->
  PyDict.get key (outer σ !!! two) = Some y ->
  (forall sk, sk ∈ ks -> is_Some (PyDict.get sk (inner σ !!! y))) ->
  exists σ', for_each (fold_subkey one two key) ks σ = Some σ' /\
             keeps_keys σ σ'.
Proof.
  intros [x Hx] Hy Hks.
  destruct (for_each_invariant (fold_subkey one two key)
              (fun _ σc => outer σc = outer σ /\ keeps_keys σ σc) ks σ)
    as (σ' & Hrun & _ & Hkeep).
  - split; [done|apply keeps_keys_refl].
  - intros _ sk σc Hsk [Ho Hkeep]. unfold fold_subkey. rewrite Ho, Hx. simpl.
    destruct (PyDict.mem sk (inner σc !!! x)); simpl; [by eauto|].
    rewrite Hy. simpl.
    destruct (proj2 Hkeep y sk (Hks sk Hsk)) as [v ->]. simpl.
    eexists. split; [done|]. split; [done|].
    eapply keeps_keys_trans; [exact Hkeep|]. split; [done|].
    intros z sk' Hz. simpl. destruct (decide (x = z)) as [->|Hne].
    + rewrite lookup_total_insert_eq. by apply PyDict_update_keeps.
    + by rewrite lookup_total_insert_ne.
  - eauto.
Qed.

Lemma fold_total σ one two :
  exists σ', fold one two σ = Some σ' /\ keeps_keys σ σ'.
Proof.
  unfold fold.
  destruct (for_each_invariant (fold_key one two)
              (fun _ σc => keeps_keys σ σc)
              (PyDict.keys (outer σ !!! two)) σ) as (σ' & Hrun & Hkeep);
    [apply keeps_keys_refl| |by eauto].
  intros _ a σc Ha Hkeep.
  apply PyDict_elem_of_keys in Ha.
  destruct (proj1 Hkeep two a Ha) as [y Hy].
  unfold fold_key. rewrite Hy. simpl.
  destruct (PyDict.mem a (outer σc !!! one)) eqn:Hmem; simpl.
  - apply PyDict_mem_true in Hmem.
    destruct (fold_inner_total σc one two a y
                (PyDict.keys (inner σc !!! y)) Hmem Hy)
      as (σ' & Hrun & Hk).
    { intros sk. by rewrite PyDict_elem_of_keys. }
    exists σ'. split; [exact Hrun|]. by eapply keeps_keys_trans.
  - eexists. split; [done|].
    eapply keeps_keys_trans; [exact Hkeep|]. split; [|done].
    intros d k Hd. simpl. destruct (decide (one = d)) as [->|Hne].
    + rewrite lookup_total_insert_eq. by apply PyDict_update_keeps.
    + by rewrite lookup_total_insert_ne.
Qed.

End fold_total.

(** ** The first loop of [main] *)

Lemma io_view_in_process p l :
  io_view (InProcess p <$> l) = InProcess p <$> io_view l.
Proof.
  unfold io_view. induction l as [|a l IH]; simpl; [done|].
  destruct (is_io_action a); simpl; [f_equal|]; exact IH.
Qed.

Lemma PyDict_get_elem_of {U} k (v : U) d :
  PyDict.get k d = Some v -> (k, v) ∈ d.
Proof.
  induction d as [|[k' v'] d IH]; simpl; [done|].
  destruct (decide (k = k')) as [->|Hne].
  - intros [= ->]. by left.
  - intros H. right. by apply IH.
Qed.

Lemma for_eachM_app {S A} (body : S -> A -> M S) l1 l2 s w :
  for_eachM body (l1 ++ l2) s w
  = (s' ← for_eachM body l1 s; for_eachM body l2 s') w.
Proof.
  revert s w. induction l1 as [|a l1 IH]; intros s w; simpl; [done|].
  unfold mbind, M_bind in *. destruct (body s a w) as [[s1|] w1]; [|done].
  apply IH.
Qed.

(** One turn of the first loop. *)
Lemma spawn_run env args db workers queues name w :
  lookup_family_tree env (tree_name args) = Some db ->
  is_Some (PyDict.get name TASK_HANDLERS) ->
  pending w !!! next_queue w = [] ->
  exists payload w',
    spawn env args (workers, queues) name w
    = (Some (PyDict.update name (next_process w) workers,
             PyDict.update name (next_queue w) queues), w') /\
    io_view (log w')
    = io_view (log w)
      ++ [QueueNew (next_queue w);
          ProcessStart (next_process w) name (next_queue w);
          InProcess (next_process w) (QueuePut (next_queue w) payload)] /\
    pending w' = <[next_queue w := [payload]]> (pending w) /\
    next_queue w' = S (next_queue w) /\
    next_process w' = S (next_process w) /\
    next_object w' = next_object w /\
    store w' = store w /\
    PyDict.get "changed" payload
    = Some [(name, VChanged (take 20 (sort_by_change (changes_of db name))))].
Proof.
  intros Hdb [target Htarget] Hfresh.
  pose proof (PyDict_get_elem_of _ _ _ Htarget) as Hin.
  unfold spawn, queue_new, process_new, process_start, mbind, M_bind.
  rewrite Htarget. simpl.
  match goal with
  | |- context [target env args ?q ?w0] =>
      destruct (task_handler_changed name target env args q db w0 Hin Hdb)
        as (w2 & payload & Hrun & Hran & Hchanged)
  end.
  rewrite Hrun.
  destruct Hran as ((own & Hlog & Hview) & Hp & Hq & Hpr).
  simpl in *. exists payload. eexists. split; [reflexivity|]. simpl.
  split; [|split; [|done]].
  - rewrite Hlog. simpl. rewrite !io_view_app, io_view_in_process.
    rewrite Hview. simpl. by rewrite <- !app_assoc.
  - by rewrite Hp, Hfresh.
Qed.

(** The first loop: the jobs it starts, the dictionaries it fills and
    the payloads it leaves in the queues. *)
Lemma spawn_loop env args db names : forall workers queues w,
  lookup_family_tree env (tree_name args) = Some db ->
  Forall (fun name => is_Some (PyDict.get name TASK_HANDLERS)) names ->
  NoDup names ->
  (forall j, next_queue w <= j -> pending w !!! j = []) ->
  exists jobs workers' queues' w',
    jobs.*1 = names /\
    for_eachM (spawn env args) names (workers, queues) w
    = (Some (workers', queues'), w') /\
    io_view (log w')
    = io_view (log w) ++ spawn_view (next_queue w) (next_process w) jobs /\
    (forall i name payload, jobs !! i = Some (name, payload) ->
       PyDict.get name queues' = Some (next_queue w + i) /\
       PyDict.get name workers' = Some (next_process w + i) /\
       pending w' !!! (next_queue w + i) = [payload]) /\
    (forall name, name ∉ names ->
       PyDict.get name queues' = PyDict.get name queues /\
       PyDict.get name workers' = PyDict.get name workers) /\
    (forall j, j < next_queue w -> pending w' !!! j = pending w !!! j) /\
    Forall (fun job : string * Dict2 =>
              PyDict.get "changed" job.2
              = Some [(job.1,
                       VChanged (take 20 (sort_by_change
                                            (changes_of db job.1))))]) jobs.
Proof.
  induction names as [|name names IH]; intros workers queues w Hdb Hh Hnd Hfresh.
  - exists [], workers, queues, w. simpl. rewrite app_nil_r.
    repeat split; try done.
  - apply Forall_cons in Hh as [Hh Hhs]. apply NoDup_cons in Hnd as [Hn Hnd].
    destruct (spawn_run env args db workers queues name w Hdb Hh)
      as (payload & w1 & Hrun & Hview & Hp & Hq & Hpr & _ & _ & Hchanged);
      [by apply Hfresh|].
    destruct (IH (PyDict.update name (next_process w) workers)
                 (PyDict.update name (next_queue w) queues) w1 Hdb Hhs Hnd)
      as (jobs & workers' & queues' & w' & Hjobs & Hloop & Hview' & Hget
          & Hframe & Hpend & Hall).
    { intros j Hj. rewrite Hp, lookup_total_insert_ne by lia.
      apply Hfresh. lia. }
    exists ((name, payload) :: jobs), workers', queues', w'.
    split; [by rewrite fmap_cons, Hjobs|]. split.
    { simpl. by rewrite (bind_run _ _ _ _ _ Hrun). }
    split.
    { rewrite Hview', Hview, Hq, Hpr. simpl. by rewrite <- app_assoc. }
    split; [|split; [|split; [|by apply Forall_cons]]].
    + intros [|i] name' payload' Hi; simpl in Hi.
      * injection Hi as <- <-. rewrite !Nat.add_0_r.
        destruct (Hframe name Hn) as [-> ->].
        rewrite !PyDict_get_update_eq. split; [done|]. split; [done|].
        rewrite Hpend by lia. by rewrite Hp, lookup_total_insert_eq.
      * destruct (Hget i name' payload' Hi) as (H1 & H2 & H3).
        rewrite Hq in H1, H3. rewrite Hpr in H2.
        by rewrite <- !Nat.add_succ_comm.
    + intros name' Hname'. apply not_elem_of_cons in Hname' as [Hne Hname'].
      destruct (Hframe name' Hname') as [-> ->].
      by rewrite !PyDict_get_update_ne.
    + intros j Hj. rewrite Hpend by lia.
      rewrite Hp. apply lookup_total_insert_ne. lia.
Qed.

Lemma lookup2_frame (σ σ' : Store PyVal) n d k sk :
  fresh_tree n σ d ->
  outer σ' !!! d = outer σ !!! d ->
  (forall z, z < n -> inner σ' !!! z = inner σ !!! z) ->
  lookup2 σ' d k sk = lookup2 σ d k sk.
Proof.
  intros (_ & Hlt & _) Ho Hin. unfold lookup2. rewrite Ho.
  destruct (PyDict.get k (outer σ !!! d)) as [x|] eqn:Hx; [|done]. simpl.
  rewrite Hin; [done|]. by apply (Hlt k).
Qed.

(** ** The second loop of [main] *)

Lemma examine_bookmarks_run env args db w :
  lookup_family_tree env (tree_name args) = Some db ->
  exists facts w',
    examine_bookmarks env args w = (Some facts, w') /\
    io_view (log w') = io_view (log w) /\
    pending w' = pending w /\
    next_queue w' = next_queue w /\ next_process w' = next_process w /\
    fresh_tree (next_object w') (store w') facts /\
    (forall k sk, lookup2 (store w') facts k sk
                  = find2 (bookmarks_payload db) k sk).
Proof.
  intros Hdb. unfold examine_bookmarks.
  rewrite (bind_run _ _ _ _ _ (open_readonly_database_run _ _ _ _ Hdb)).
  destruct (new_dict2_spec (bookmarks_payload db)
              (set_log (log w ++ [DbLoad (tree_name args)]) w))
    as (facts & w1 & Hnew & Hlog & Hp & Hq & Hpr & Hle & Hn & _ & _
        & Hloc & Hinj & _ & Hval).
  rewrite (bind_run _ _ _ _ _ Hnew).
  rewrite (bind_run _ _ _ _ _ (close_readonly_database_run _ _ _)).
  rewrite (bind_run _ _ _ _ _ (print_time_run _ _)).
  exists facts. eexists. split; [reflexivity|].
  assert (fresh_tree (S facts) (store w1) facts) as Htree.
  { split; [lia|]. split; [|exact Hinj]. intros k x Hk. apply Hloc in Hk. lia. }
  unfold timed_world, closed_world.
  destruct (time args); simpl; rewrite Hlog, Hp, Hq, Hpr, Hn; simpl;
    rewrite !io_view_app, io_view_closed_log; simpl;
    by rewrite !app_nil_r.
Qed.

Lemma bind_ret_run {A B} (a : A) (f : A -> M B) w : (mret a ≫= f) w = f a w.
Proof. reflexivity. Qed.

(** [queue.get()] hands the main process a dictionary that shares no
    object with the facts gathered so far. *)
Lemma queue_get_run q payload rest facts w :
  pending w !!! q = payload :: rest ->
  fresh_tree (next_object w) (store w) facts ->
  exists result_set w',
    queue_get q w = (Some result_set, w') /\
    log w' = log w ++ [QueueGet q] /\
    pending w' = <[q := rest]> (pending w) /\
    next_object w <= result_set /\
    next_object w' = S result_set /\
    unshared (store w') facts result_set /\
    fresh_tree (next_object w) (store w') facts /\
    (forall k x, PyDict.get k (outer (store w') !!! result_set) = Some x ->
                 x < result_set /\ next_object w <= x) /\
    (forall k k' x,
        PyDict.get k (outer (store w') !!! result_set) = Some x ->
        PyDict.get k' (outer (store w') !!! result_set) = Some x -> k = k') /\
    (forall k sk, lookup2 (store w') facts k sk = lookup2 (store w) facts k sk) /\
    (forall k sk, lookup2 (store w') result_set k sk = find2 payload k sk).
Proof.
  intros Hpend Htree. pose proof Htree as (Hlt & Hbelow & Hinj).
  unfold queue_get. rewrite Hpend.
  match goal with
  | |- context [new_dict2 payload ?w0] =>
      destruct (new_dict2_spec payload w0)
        as (loc & w1 & Hnew & Hlog & Hp1 & _ & _ & Hle & Hn & Hout & Hin
            & Hloc & Hinj' & _ & Hval)
  end.
  simpl in *.
  assert (outer (store w1) !!! facts = outer (store w) !!! facts) as Hfacts.
  { apply Hout. lia. }
  exists loc, w1. unfold unshared, fresh_tree.
  rewrite Hnew, Hlog, Hp1, Hn, !Hfacts.
  split; [done|]. split; [done|]. split; [done|]. split; [exact Hle|].
  split; [done|].
  split; [|split; [done|split; [|split; [exact Hinj'|split; [|exact Hval]]]]].
  - split; [exact Hinj|]. intros k k' x Hk Hk'.
    apply Hbelow in Hk. apply Hloc in Hk'. lia.
  - intros k x Hk. pose proof (Hloc k x Hk). lia.
  - intros k sk. by apply (lookup2_frame _ _ (next_object w)).
Qed.

(** One turn of the second loop: the payload is folded into the facts,
    which stay a tree of their own objects. *)
Lemma gather_run workers queues facts name q p payload rest w :
  PyDict.get name queues = Some q ->
  PyDict.get name workers = Some p ->
  pending w !!! q = payload :: rest ->
  fresh_tree (next_object w) (store w) facts ->
  exists w',
    gather workers queues facts tt name w = (Some tt, w') /\
    io_view (log w') = io_view (log w) ++ [QueueGet q; ProcessJoin p] /\
    pending w' = <[q := rest]> (pending w) /\
    fresh_tree (next_object w') (store w') facts /\
    (forall k sk, lookup2 (store w') facts k sk
                  = or_else (lookup2 (store w) facts k sk)
                      (find2 payload k sk)).
Proof.
  intros Hq Hp Hpend Htree. unfold gather. rewrite Hq, Hp. simpl.
  destruct (queue_get_run q payload rest facts w Hpend Htree)
    as (result_set & w1 & Hget & Hlog & Hp1 & Hle & Hn & Hun & Htree1 & Hloc
        & Hinj2 & Hsame & Hval).
  rewrite bind_ret_run, (bind_run _ _ _ _ _ Hget), bind_ret_run.
  unfold mbind, M_bind, process_join, emit, fold_objects. simpl.
  destruct (fold_lookup2 (store w1) facts result_set Hun)
    as (σ & -> & Hout & Hlook).
  eexists. split; [reflexivity|]. simpl. rewrite Hlog, Hp1.
  split; [|split; [done|split]].
  - rewrite !io_view_app. simpl. by rewrite <- app_assoc.
  - destruct Htree1 as (Hlt & Hbelow & Hinj1).
    split; [lia|]. split.
    + intros k x. rewrite Hout.
      destruct (PyDict.get k (outer (store w1) !!! facts)) as [x1|] eqn:E;
        simpl.
      * intros [= Hx]. subst x1. apply Hbelow in E. lia.
      * intros Hk. apply Hloc in Hk. lia.
    + intros k k' x. rewrite !Hout.
      destruct (PyDict.get k (outer (store w1) !!! facts)) as [x1|] eqn:E,
               (PyDict.get k' (outer (store w1) !!! facts)) as [x2|] eqn:E';
        simpl.
      * intros [= Hx1] [= Hx2]. subst x1 x2. by apply (Hinj1 k k' x).
      * intros [= Hx1] Hk'. subst x1.
        apply Hloc in Hk' as [_ Hk']. apply Hbelow in E. lia.
      * intros Hk [= Hx2]. subst x2.
        apply Hloc in Hk as [_ Hk]. apply Hbelow in E'. lia.
      * apply Hinj2.
  - intros k sk. by rewrite Hlook, Hsame, Hval.
Qed.

(** The second loop, over the names in reverse. *)
Lemma gather_loop workers queues facts jobs : forall q0 p0 w,
  (forall i name payload, jobs !! i = Some (name, payload) ->
     PyDict.get name queues = Some (q0 + i) /\
     PyDict.get name workers = Some (p0 + i) /\
     pending w !!! (q0 + i) = [payload]) ->
  fresh_tree (next_object w) (store w) facts ->
  exists w',
    for_eachM (gather workers queues facts) (rev (jobs.*1)) tt w
    = (Some tt, w') /\
    io_view (log w') = io_view (log w) ++ gather_view q0 p0 jobs /\
    (forall j, j < q0 -> pending w' !!! j = pending w !!! j) /\
    fresh_tree (next_object w') (store w') facts /\
    (forall k sk, lookup2 (store w') facts k sk
                  = merged_entry (lookup2 (store w) facts k sk)
                      (rev (jobs.*2)) k sk).
Proof.
  induction jobs as [|[name payload] jobs IH]; intros q0 p0 w Hjobs Htree.
  - exists w. simpl. by rewrite app_nil_r.
  - destruct (IH (S q0) (S p0) w) as (w1 & Hloop & Hview & Hframe & Htree1 & Hl1).
    { intros i name' payload' Hi.
      destruct (Hjobs (S i) name' payload' Hi) as (H1 & H2 & H3).
      by rewrite !Nat.add_succ_comm. }
    { exact Htree. }
    destruct (Hjobs 0 name payload eq_refl) as (Hq & Hp & Hpend).
    rewrite Nat.add_0_r in Hq, Hp, Hpend.
    destruct (gather_run workers queues facts name q0 p0 payload [] w1 Hq Hp)
      as (w' & Hrun & Hview' & Hpend' & Htree' & Hl');
      [by rewrite Hframe by lia|exact Htree1|].
    exists w'. split; [|split; [|split; [|split; [exact Htree'|]]]].
    + rewrite fmap_cons. simpl. rewrite for_eachM_app.
      rewrite (bind_run _ _ _ _ _ Hloop). simpl.
      by rewrite (bind_run _ _ _ _ _ Hrun).
    + rewrite Hview', Hview. simpl. by rewrite <- app_assoc.
    + intros j Hj. rewrite Hpend'.
      rewrite lookup_total_insert_ne by lia. apply Hframe. lia.
    + intros k sk. rewrite Hl', Hl1, fmap_cons. simpl.
      unfold merged_entry. by rewrite foldl_app.
Qed.

(** ** [main] *)

Lemma print_facts_run env args facts w :
  print_facts env args facts w
  = (Some tt, set_log (log w ++ printed_facts env args facts) w).
Proof.
  unfold print_facts, printed_facts, print, emit.
  destruct (yaml args); [by destruct (yaml_dump env)|].
  by rewrite app_nil_r.
Qed.

Lemma object_types_NoDup (names : list string) :
  names ≡ₚ object_types ->
  NoDup names.
Proof.
  intros ->. repeat (apply NoDup_cons; split; [by vm_compute; intros H; repeat (apply elem_of_cons in H as [?|H]; [done|]); by apply elem_of_nil in H|]).
  apply NoDup_nil_2.
Qed.

Lemma io_view_closed_world env db w :
  io_view (log (closed_world env db w)) = io_view (log w).
Proof.
  unfold closed_world, set_log. cbn [log].
  by rewrite io_view_app, io_view_closed_log, app_nil_r.
Qed.

Lemma io_view_timed_world args w :
  io_view (log (timed_world args w)) = io_view (log w).
Proof.
  unfold timed_world. destruct (time args); [|done].
  unfold set_log. cbn [log]. by rewrite io_view_app, app_nil_r.
Qed.

(** The run of [main] on a tree that exists, from the start of the
    program: it ends with status 0; what it did to queues, processes
    and the standard output is the first loop, the second loop and the
    printing of the merged facts; and an entry of the merged facts is
    the first that is present among the bookmarks and the payloads in
    the order of the second loop. *)
Lemma main_run env args db fs :
  lookup_family_tree env (tree_name args) = Some db ->
  exists jobs facts w',
    main env args (initial_world fs) = (Some 0%Z, w') /\
    jobs.*1 ≡ₚ object_types /\
    io_view (log w')
    = spawn_view 0 0 jobs ++ gather_view 0 0 jobs
      ++ io_view (printed_facts env args (value2 (store w') facts)) /\
    (forall k sk,
        find2 (value2 (store w') facts) k sk
        = merged_entry (find2 (bookmarks_payload db) k sk)
            (rev (jobs.*2)) k sk) /\
    Forall (fun job : string * Dict2 =>
              PyDict.get "changed" job.2
              = Some [(job.1,
                       VChanged (take 20 (sort_by_change
                                            (changes_of db job.1))))]) jobs.
Proof.
  intros Hdb. unfold main.
  destruct (get_object_list_outcome env (tree_name args) db
              (initial_world fs) Hdb)
    as (total & names & w1 & Hlist & Hperm & _ & Hhandlers & _).
  pose proof (get_object_list_run env (tree_name args) db (initial_world fs) Hdb)
    as Hlist'.
  rewrite Hlist in Hlist'. injection Hlist' as _ _ Hw1.
  assert (catch (get_object_list env (tree_name args)) (initial_world fs)
          = (Some (Some (total, names)), w1)) as Hcatch.
  { unfold catch. by rewrite Hlist. }
  rewrite (bind_run _ _ _ _ _ Hcatch).
  rewrite (bind_run _ _ _ _ _ (print_time_run _ _)).
  destruct (spawn_loop env args db names [] [] (timed_world args w1) Hdb
              Hhandlers (object_types_NoDup names Hperm))
    as (jobs & workers & queues & w3 & Hjobs & Hspawn & Hview3 & Hget & _ & _
        & Hall).
  { intros j _. rewrite Hw1. unfold timed_world.
    destruct (time args); simpl; by rewrite lookup_total_empty. }
  rewrite (bind_run _ _ _ _ _ Hspawn).
  destruct (examine_bookmarks_run env args db w3 Hdb)
    as (facts & w4 & Hbook & Hview4 & Hp4 & _ & _ & Htree4 & Hl4).
  rewrite (bind_run _ _ _ _ _ Hbook).
  destruct (gather_loop workers queues facts jobs
              (next_queue (timed_world args w1))
              (next_process (timed_world args w1)) w4)
    as (w5 & Hgather & Hview5 & _ & _ & Hl5).
  { intros i name payload Hi. rewrite Hp4. by apply Hget. }
  { exact Htree4. }
  rewrite <- Hjobs. rewrite (bind_run _ _ _ _ _ Hgather).
  unfold mbind at 1, M_bind at 1.
  rewrite (bind_run _ _ _ _ _ (print_facts_run _ _ _ _)).
  rewrite (bind_run _ _ _ _ _ (print_time_run _ _)).
  exists jobs, facts. eexists. split; [reflexivity|].
  split; [by rewrite Hjobs|].
  assert (next_queue (timed_world args w1) = 0
          /\ next_process (timed_world args w1) = 0
          /\ io_view (log (timed_world args w1)) = []) as (Hq0 & Hp0 & Hv0).
  { rewrite io_view_timed_world, Hw1, io_view_closed_world.
    unfold timed_world. by destruct (time args). }
  rewrite Hq0, Hp0 in *. rewrite Hv0 in Hview3. simpl in Hview3.
  split; [|split; [|exact Hall]].
  - unfold timed_world. destruct (time args); simpl;
      rewrite ?io_view_app, Hview5, Hview4, Hview3; simpl;
      by rewrite ?app_nil_r, <- ?app_assoc.
  - intros k sk. rewrite <- Hl4, <- Hl5.
    unfold timed_world. destruct (time args); simpl; apply find2_value2.
Qed.



(** ** The output of [main] *)

Lemma latin1_round_trip b : latin1_encode (latin1_decode b) = Some b.
Proof.
  unfold latin1_encode, latin1_decode.
  induction b as [|x b IH]; [done|].
  rewrite fmap_cons. cbn [mapM]. rewrite Byte.of_to_N. simpl.
  by rewrite IH.
Qed.

Lemma stdout_view_io_view l : stdout_view (io_view l) = stdout_view l.
Proof.
  unfold stdout_view, io_view. induction l as [|a l IH]; simpl; [done|].
  assert (is_stdout a = true -> is_io_action a = true) as Himp.
  { induction a; simpl; auto; discriminate. }
  destruct (is_io_action a) eqn:Ea; simpl.
  - by rewrite IH.
  - rewrite IH. destruct (is_stdout a); [|done]. by specialize (Himp eq_refl).
Qed.

Lemma stdout_view_app l1 l2 :
  stdout_view (l1 ++ l2) = stdout_view l1 ++ stdout_view l2.
Proof. apply List.filter_app. Qed.

Lemma stdout_view_spawn_view jobs : forall q p,
  stdout_view (spawn_view q p jobs) = [].
Proof.
  induction jobs as [|[name payload] jobs IH]; intros q p; simpl; [done|].
  apply IH.
Qed.

Lemma stdout_view_gather_view jobs : forall q p,
  stdout_view (gather_view q p jobs) = [].
Proof.
  induction jobs as [|[name payload] jobs IH]; intros q p; simpl; [done|].
  by rewrite stdout_view_app, IH.
Qed.

Lemma main_output env args db fs :
  lookup_family_tree env (tree_name args) = Some db ->
  yaml args = false ->
  exists jobs merged text w',
    main env args (initial_world fs) = (Some 0%Z, w') /\
    io_view (log w')
    = spawn_view 0 0 jobs ++ gather_view 0 0 jobs ++ [Stdout text] /\
    (forall k sk,
        find2 merged k sk
        = merged_entry (find2 (bookmarks_payload db) k sk)
            (rev (jobs.*2)) k sk) /\
    stdout_view (log w') = [Stdout text] /\
    text = latin1_decode (pickle_dumps env merged) /\
    latin1_encode text = Some (pickle_dumps env merged) /\
    (pickle_loads env (pickle_dumps env merged) = Some merged ->
     latin1_encode text ≫= pickle_loads env = Some merged).
Proof.
  intros Hdb Hyaml.
  destruct (main_run env args db fs Hdb)
    as (jobs & facts & w' & Hrun & _ & Hview & Hmerged & _).
  unfold printed_facts in Hview. rewrite Hyaml in Hview. simpl in Hview.
  exists jobs, (value2 (store w') facts),
    (latin1_decode (pickle_dumps env (value2 (store w') facts))), w'.
  split; [exact Hrun|]. split; [exact Hview|]. split; [exact Hmerged|].
  split; [|split; [done|split]].
  - rewrite <- stdout_view_io_view, Hview.
    by rewrite !stdout_view_app, stdout_view_spawn_view,
      stdout_view_gather_view.
  - apply latin1_round_trip.
  - intros Hpickle. by rewrite latin1_round_trip.
Qed.



(** The serialiser of the sample round-trips, so that in the sample the
    text on the standard output does decode to the merged facts. *)
Lemma bytes_to_positive_to_bytes p :
  bytes_to_positive (positive_to_bytes p) = Some p.
Proof. induction p as [p IH|p IH|]; simpl; by rewrite ?IH. Qed.

Lemma sample_loads_dumps d : sample_loads (sample_dumps d) = Some d.
Proof.
  unfold sample_loads, sample_dumps. rewrite bytes_to_positive_to_bytes.
  simpl. apply decode_encode.
Qed.

Lemma sample_output_round_trips :
  exists merged text w',
    main sample_env sample_args (initial_world (files sample_world))
    = (Some 0%Z, w') /\
    stdout_view (log w') = [Stdout text] /\
    latin1_encode text ≫= sample_loads = Some merged.
Proof.
  destruct (main_output sample_env sample_args sample_db
              (files sample_world) eq_refl eq_refl)
    as (jobs & merged & text & w' & Hrun & _ & _ & Hout & _ & _ & Hrt).
  exists merged, text, w'. split; [exact Hrun|]. split; [exact Hout|].
  apply Hrt. apply sample_loads_dumps.
Qed.

(** * Further properties of the worker *)

(** ** [bisect] and [analyze_change] on any list *)

(** The loop of [bisect] ends on every list, ascending or not, with an
    index between [lo] and [hi]. *)
Lemma bisect_loop_total {A} fuel (a : KeyWrapper A Z) x : forall lo hi,
  hi - lo <= fuel -> lo <= hi -> hi <= len a ->
  exists r, bisect_loop fuel a x lo hi = Some r /\ lo <= r <= hi.
Proof.
  induction fuel as [|fuel IH]; intros lo hi Hfuel Hlo Hhi.
  - assert (lo = hi) as -> by lia. exists hi. simpl.
    rewrite (proj2 (Nat.ltb_ge hi hi)) by lia. split; [done|lia].
  - cbn [bisect_loop]. destruct (lo <? hi) eqn:E.
    + apply Nat.ltb_lt in E.
      set (mid := (lo + hi) `div` 2).
      assert (lo <= mid < hi) as Hmid.
      { unfold mid. split.
        - apply Nat.div_le_lower_bound; lia.
        - apply Nat.Div0.div_lt_upper_bound; lia. }
      unfold getitem. unfold len in Hhi.
      destruct (lookup_lt_is_Some_2 (iter a) mid) as [v Hv]; [lia|].
      rewrite Hv. cbn [fmap option_fmap option_map mbind option_bind].
      destruct (x <? key a v)%Z.
      * destruct (IH lo mid) as (r & Hr & Hb); [lia|lia|unfold len; lia|].
        exists r. split; [exact Hr|lia].
      * destruct (IH (S mid) hi) as (r & Hr & Hb); [lia|lia|unfold len; lia|].
        exists r. split; [exact Hr|lia].
    + apply Nat.ltb_ge in E. exists lo. split; [done|lia].
Qed.

Lemma bisect_total {A} (a : KeyWrapper A Z) x :
  exists r, bisect a x = Some r /\ r <= len a.
Proof.
  destruct (bisect_loop_total (len a) a x 0 (len a)) as (r & Hr & Hb);
    [lia|lia|lia|].
  exists r. split; [exact Hr|lia].
Qed.

(** X2: [analyze_change] raises (the [IndexError] of [pop]) exactly
    when [max_length] is below [-(len(obj_list) + 1)]; for every other
    bound, and so for every bound that is not negative, it returns,
    whatever the order of the list. *)
Theorem analyze_change_raises_iff l h c (max_length : Z) :
  analyze_change l h c max_length = None
  <-> (max_length < - Z.of_nat (S (length l)))%Z.
Proof.
  unfold analyze_change, PyList.pop.
  destruct (bisect_total (mkKeyWrapper l snd) c) as (r & -> & _).
  cbn [mbind option_bind]. rewrite !PyList_length_insert.
  unfold entry, handle in *.
  repeat match goal with
         | |- context [(?a <? ?b)%Z] => destruct (Z.ltb_spec a b)
         | |- context [(?a <=? ?b)%Z] => destruct (Z.leb_spec a b)
         end; simpl; (split; [try done; lia | try done; lia]).
Qed.

(** ** Which records the bounded list keeps *)

Lemma filter_none {A} (P : A -> Prop) `{forall x, Decision (P x)} (l : list A) :
  Forall (fun x => ~ P x) l -> filter P l = [].
Proof.
  induction 1 as [|x l Hx _ IH]; [done|]. by rewrite filter_cons_False.
Qed.

(** A record goes after the records of the same change time that are
    already there. *)
Lemma insort_filter_change e l c :
  StronglySorted change_le l ->
  filter (fun y : entry => y.2 = c) (insort e l)
  = filter (fun y : entry => y.2 = c) l ++ (if decide (e.2 = c) then [e] else []).
Proof.
  induction 1 as [|y l Hl IH Hy]; simpl.
  - rewrite filter_cons, filter_nil. by destruct (decide (e.2 = c)).
  - destruct (Z.ltb_spec e.2 y.2) as [Hlt|Hge].
    + rewrite (filter_cons _ e).
      destruct (decide (e.2 = c)) as [Hc|Hc]; [|by rewrite app_nil_r].
      assert (filter (fun y0 : entry => y0.2 = c) (y :: l) = []) as ->; [|done].
      apply filter_none. apply Forall_cons. unfold change_le in *.
      split; [lia|].
      eapply Forall_impl; [exact Hy|]. simpl. intros; lia.
    + rewrite !(filter_cons _ y), IH.
      by destruct (decide (y.2 = c)).
Qed.

Lemma sort_by_change_from_filter records c : forall l,
  StronglySorted change_le l ->
  filter (fun y : entry => y.2 = c) (foldl (fun l e => insort e l) l records)
  = filter (fun y : entry => y.2 = c) l
    ++ filter (fun y : entry => y.2 = c) records.
Proof.
  induction records as [|e records IH]; intros l Hl; simpl.
  - by rewrite filter_nil, app_nil_r.
  - rewrite IH by (by apply insort_sorted).
    rewrite insort_filter_change by done. rewrite (filter_cons _ e).
    rewrite <- app_assoc. by destruct (decide (e.2 = c)).
Qed.

(** X1: fed any sequence of records one at a time from the empty list,
    with a bound [n], [analyze_change] ends with the first [n] records
    of the sequence put in ascending order of change, records of equal
    change staying in their order of arrival: the [n] records changed
    longest ago. *)
Theorem analyze_changes_keeps_oldest_in_order records (n : nat) :
  analyze_changes [] records (Z.of_nat n)
  = Some (take n (sort_by_change records)) /\
  sort_by_change records ≡ₚ records /\
  StronglySorted change_le (sort_by_change records) /\
  forall c, filter (fun y : entry => y.2 = c) (sort_by_change records)
            = filter (fun y : entry => y.2 = c) records.
Proof.
  split; [apply analyze_changes_keeps_oldest|].
  split; [apply sort_by_change_Permutation|].
  split; [apply sort_by_change_sorted|].
  intros c. unfold sort_by_change.
  rewrite sort_by_change_from_filter by constructor.
  by rewrite filter_nil.
Qed.

Lemma insort_snoc e l z :
  StronglySorted change_le (l ++ [z]) ->
  insort e (l ++ [z])
  = if (e.2 <? z.2)%Z then insort e l ++ [z] else l ++ [z; e].
Proof.
  induction l as [|y l IH]; simpl; intros Hs.
  - by destruct (e.2 <? z.2)%Z.
  - apply StronglySorted_inv in Hs as [Hs Hy].
    destruct (Z.ltb_spec e.2 y.2) as [Hlt|Hge].
    + assert (y.2 <= z.2)%Z as Hyz.
      { rewrite Forall_app, Forall_singleton in Hy. apply Hy. }
      by rewrite (proj2 (Z.ltb_lt e.2 z.2)) by lia.
    + rewrite IH by done. by destruct (e.2 <? z.2)%Z.
Qed.

(** X3: on an ascending list that is full (its length is
    [max_length]) and ends with the entry [z], a record older than [z]
    is put in its place in the order and [z] is dropped, and a record
    that is not older than [z] leaves the list as it was. *)
Theorem analyze_change_on_full_list l z h c :
  StronglySorted change_le (l ++ [z]) ->
  analyze_change (l ++ [z]) h c (Z.of_nat (length (l ++ [z])))
  = Some (if (c <? z.2)%Z then insort (h, c) l else l ++ [z]).
Proof.
  intros Hs. rewrite analyze_change_sorted by (done || lia).
  rewrite Nat2Z.id, insort_snoc by done. simpl.
  rewrite length_app. simpl.
  destruct (c <? z.2)%Z; f_equal.
  - apply take_app_length'. rewrite length_insort. lia.
  - change (l ++ [z; (h, c)]) with (l ++ [z] ++ [(h, c)]).
    rewrite app_assoc. apply take_app_length'. rewrite length_app. simpl. lia.
Qed.

Lemma analyze_change_on_full_list_witness :
  analyze_change ([("a", 1%Z)] ++ [("b", 4%Z)]) "c" 2
    (Z.of_nat (length ([("a", 1%Z)] ++ [("b", 4%Z)])))
  = Some (if (2 <? ("b", 4%Z).2)%Z then insort ("c", 2%Z) [("a", 1%Z)]
          else [("a", 1%Z)] ++ [("b", 4%Z)]).
Proof.
  apply (analyze_change_on_full_list [("a", 1%Z)] ("b", 4%Z) "c" 2).
  repeat constructor; unfold change_le; simpl; lia.
Defined.

(** ** [fold] on dictionaries that share objects *)

Section fold_any.
Context {V : Type}.
Implicit Types σ : Store V.

(** X4: [fold(one, two)] returns for every pair of two-level
    dictionaries, whichever objects they share (no [KeyError] and no
    dictionary changed while it is visited), and no key and no subkey of
    any dictionary is removed. *)
Theorem fold_never_raises σ one two :
  exists σ', fold one two σ = Some σ' /\ keeps_keys σ σ'.
Proof. apply fold_total. Qed.

Lemma fold_subkey_outer σ σ' one two key sk :
  fold_subkey one two key σ sk = Some σ' -> outer σ' = outer σ.
Proof.
  unfold fold_subkey. intros H.
  destruct (PyDict.get key (outer σ !!! one)) as [x|]; [|done]. simpl in H.
  destruct (PyDict.mem sk (inner σ !!! x)); simpl in H; [by injection H as <-|].
  destruct (PyDict.get key (outer σ !!! two)) as [y|]; [|done]. simpl in H.
  destruct (PyDict.get sk (inner σ !!! y)) as [v|]; [|done]. simpl in H.
  by injection H as <-.
Qed.

Lemma fold_inner_outer one two key ks : forall σ σ',
  for_each (fold_subkey one two key) ks σ = Some σ' -> outer σ' = outer σ.
Proof.
  induction ks as [|sk ks IH]; intros σ σ'; simpl; [by intros [= <-]|].
  destruct (fold_subkey one two key σ sk) as [σ1|] eqn:E; [|done]. simpl.
  intros H. apply IH in H. rewrite H. by eapply fold_subkey_outer.
Qed.

(** What [fold] does to the outer dictionaries, whichever objects are
    shared. *)
Lemma fold_outer σ one two :
  exists σ', fold one two σ = Some σ' /\
    (forall d, d <> one -> outer σ' !!! d = outer σ !!! d) /\
    (forall k, PyDict.get k (outer σ' !!! one)
               = or_else (PyDict.get k (outer σ !!! one))
                   (PyDict.get k (outer σ !!! two))).
Proof.
  unfold fold.
  destruct (for_each_invariant (fold_key one two)
    (fun visited σc =>
       (forall d, d <> one -> outer σc !!! d = outer σ !!! d) /\
       (forall k, PyDict.get k (outer σc !!! one)
                  = or_else (PyDict.get k (outer σ !!! one))
                      (if decide (k ∈ visited)
                       then PyDict.get k (outer σ !!! two) else None)))
    (PyDict.keys (outer σ !!! two)) σ) as (σ' & Hrun & Hframe & Hone).
  - split; [done|]. intros k. rewrite decide_False by apply not_elem_of_nil.
    by destruct (PyDict.get k _).
  - intros visited a σc Ha (Hframe & Hone).
    apply PyDict_elem_of_keys in Ha as [y Hy].
    assert (exists y', PyDict.get a (outer σc !!! two) = Some y'
                       /\ (one <> two -> y' = y)) as (y' & Hy' & Hyy).
    { destruct (decide (one = two)) as [->|Hne].
      - rewrite Hone, Hy. simpl. eexists. split; [done|]. by intros [].
      - rewrite Hframe by done. eauto. }
    unfold fold_key. rewrite Hy'. simpl.
    destruct (PyDict.mem a (outer σc !!! one)) eqn:Hmem; simpl.
    + pose proof Hmem as Hmem'. apply PyDict_mem_true in Hmem'.
      destruct (fold_inner_total σc one two a y'
                  (PyDict.keys (inner σc !!! y')) Hmem' Hy')
        as (σ' & Hrun & _).
      { intros sk. by rewrite PyDict_elem_of_keys. }
      exists σ'. split; [exact Hrun|].
      apply fold_inner_outer in Hrun. rewrite Hrun.
      split; [exact Hframe|]. intros k. rewrite Hone.
      destruct (decide (k = a)) as [->|Hka];
        [|by rewrite if_elem_of_snoc_ne].
      rewrite if_elem_of_snoc_eq. rewrite Hone in Hmem'.
      destruct (PyDict.get a (outer σ !!! one)); [done|]. simpl in *.
      destruct (decide (a ∈ visited)); [done|]. by destruct Hmem'.
    + apply PyDict_mem_false in Hmem.
      assert (one <> two) as Hot by (intros ->; congruence).
      rewrite (Hyy Hot) in *.
      eexists. split; [done|]. unfold set_outer; simpl. split.
      * intros d Hd. rewrite lookup_total_insert_ne by done. by apply Hframe.
      * intros k. rewrite lookup_total_insert_eq.
        rewrite Hone in Hmem.
        destruct (decide (k = a)) as [->|Hka].
        -- rewrite PyDict_get_update_eq, if_elem_of_snoc_eq, Hy.
           by destruct (PyDict.get a (outer σ !!! one)).
        -- rewrite PyDict_get_update_ne by done.
           by rewrite Hone, if_elem_of_snoc_ne.
  - exists σ'. split; [exact Hrun|]. split; [exact Hframe|].
    intros k. by rewrite Hone, or_else_keys.
Qed.

Lemma fold_self σ d : fold d d σ = Some σ.
Proof.
  unfold fold. apply for_each_fixed. intros a Ha. unfold fold_key.
  pose proof Ha as Ha'. apply PyDict_elem_of_keys in Ha' as [y Hy].
  assert (PyDict.mem a (outer σ !!! d) = true) as ->.
  { apply PyDict_mem_true. eauto. }
  simpl. rewrite Hy. simpl.
  eapply fold_inner_noop; [exact Hy|auto].
Qed.

(** X5: whichever objects the dictionaries share, after
    [fold(one, two)] a key that [one] had is bound to the inner
    dictionary it was bound to, a key that only [two] had is bound in
    [one] to the very inner dictionary that [two] binds it to (the
    object is shared, not copied), and [two] and every other outer
    dictionary have the keys and the objects they had. *)
Theorem fold_binds_objects_of_two σ one two :
  exists σ', fold one two σ = Some σ' /\
    outer σ' !!! two = outer σ !!! two /\
    (forall d, d <> one -> outer σ' !!! d = outer σ !!! d) /\
    (forall k, PyDict.get k (outer σ' !!! one)
               = or_else (PyDict.get k (outer σ !!! one))
                   (PyDict.get k (outer σ !!! two))).
Proof.
  destruct (fold_outer σ one two) as (σ' & Hrun & Hframe & Hone).
  exists σ'. split; [exact Hrun|]. split; [|by split].
  destruct (decide (two = one)) as [->|Hne]; [|by apply Hframe].
  rewrite fold_self in Hrun. congruence.
Qed.

(** X6: folding a dictionary into itself changes nothing. *)
Theorem fold_into_itself σ d : fold d d σ = Some σ.
Proof. apply fold_self. Qed.

End fold_any.

(** ** Object types of equal count *)

Section stable.
Context {A : Type} (key : A -> Z).

Lemma sort_insert_filter x l c :
  filter (fun y => key y = c) (sort_insert key x l)
  = filter (fun y => key y = c) (x :: l).
Proof.
  induction l as [|y l IH]; simpl; [done|].
  destruct (Z.ltb_spec (key x) (key y)) as [Hlt|Hge]; [|done].
  rewrite (filter_cons _ y), IH, !(filter_cons _ x), (filter_cons _ y).
  destruct (decide (key y = c)), (decide (key x = c)); try done. lia.
Qed.

Lemma sort_reverse_filter l c :
  filter (fun y => key y = c) (sort_reverse key l)
  = filter (fun y => key y = c) l.
Proof.
  induction l as [|x l IH]; simpl; [done|].
  by rewrite sort_insert_filter, !(filter_cons _ x), IH.
Qed.

End stable.

Lemma filter_fmap_fst (P : string -> Prop) `{forall x, Decision (P x)}
    (Q : string * Z -> Prop) `{forall x, Decision (Q x)} (l : list (string * Z)) :
  (forall p, p ∈ l -> P p.1 <-> Q p) ->
  filter P (l.*1) = (filter Q l).*1.
Proof.
  induction l as [|p l IH]; intros HPQ; [done|].
  rewrite fmap_cons, !filter_cons.
  rewrite IH by (intros q Hq; apply HPQ; by right).
  destruct (decide (P p.1)) as [HP|HP], (decide (Q p)) as [HQ|HQ]; try done.
  - exfalso. apply HQ, HPQ; [by left|done].
  - exfalso. apply HP, HPQ; [by left|done].
Qed.

(** X7: the object types that have the same number of objects are
    returned by [get_object_list] in the order in which the function
    lists them (Person, Family, Event, Place, Media, Source, Citation,
    Repository, Note, Tag): the sort is stable, also under
    [reverse=True]. *)
Theorem get_object_list_keeps_ties env dbname db w :
  lookup_family_tree env dbname = Some db ->
  exists total names w',
    get_object_list env dbname w = (Some (total, names), w') /\
    forall c, filter (fun name => count_of db name = c) names
              = filter (fun name => count_of db name = c) object_types.
Proof.
  intros Hdb. rewrite (get_object_list_run env dbname db w Hdb).
  do 3 eexists. split; [reflexivity|]. intros c.
  assert (forall l, (forall p, p ∈ l -> p ∈ object_counts db) ->
            filter (fun name => count_of db name = c) (l.*1)
            = (filter (fun p : string * Z => p.2 = c) l).*1) as Hf.
  { intros l Hl. apply filter_fmap_fst. intros [name n] Hp. simpl.
    by rewrite (count_of_object_counts db name n (Hl _ Hp)). }
  rewrite Hf.
  - rewrite (sort_reverse_filter snd). rewrite <- Hf by done. done.
  - intros p Hp. by rewrite sort_reverse_Permutation in Hp.
Qed.

Lemma get_object_list_keeps_ties_witness :
  exists total names w',
    get_object_list sample_env "t" sample_world = (Some (total, names), w') /\
    forall c, filter (fun name => count_of sample_db name = c) names
              = filter (fun name => count_of sample_db name = c) object_types.
Proof.
  apply (get_object_list_keeps_ties sample_env "t" sample_db). reflexivity.
Defined.

(** ** [main] on a tree that does not exist, and under [--yaml] *)

(** X8: when the tree named on the command line does not exist, [main]
    writes one line to the error stream and ends with status 1: no
    queue is made, no process is started and nothing is written to the
    standard output. *)
Theorem main_unknown_tree env args w :
  lookup_family_tree env (tree_name args) = None ->
  main env args w = (Some 1%Z, set_log (log w ++ [Stderr]) w).
Proof.
  intros Hdb. unfold main, catch, get_object_list, open_readonly_database.
  unfold mbind at 4, M_bind at 4. unfold mbind at 4, M_bind at 4.
  rewrite Hdb. reflexivity.
Qed.

Lemma main_unknown_tree_witness :
  main sample_env (mkArgs "u" false false) sample_world
  = (Some 1%Z, set_log (log sample_world ++ [Stderr]) sample_world).
Proof. apply main_unknown_tree. reflexivity. Defined.



(** ** What the merged facts hold *)









(** ** The counters of [examine_media] *)

Lemma how_many_nil {A} (P : A -> Prop) `{forall x, Decision (P x)} :
  how_many P [] = 0%Z.
Proof. done. Qed.

Lemma how_many_cons {A} (P : A -> Prop) `{forall x, Decision (P x)} x l :
  how_many P (x :: l) = ((if decide (P x) then 1 else 0) + how_many P l)%Z.
Proof.
  unfold how_many. rewrite filter_cons.
  destruct (decide (P x)); simpl; lia.
Qed.

Lemma examine_media_step_counters env db acc m w acc' w' :
  examine_media_step env db acc m w = (Some acc', w') ->
  no_desc acc' = count_if (bool_decide (m_desc m = "")) (no_desc acc) /\
  no_date acc' = count_if (bool_decide (m_date m = "")) (no_date acc) /\
  no_path acc' = count_if (bool_decide (m_path m = "")) (no_path acc) /\
  no_mime acc' = count_if (bool_decide (m_mime m = "")) (no_mime acc) /\
  private acc' = count_if (m_private m) (private acc) /\
  tagged acc'
  = count_if (negb (bool_decide (m_tag_list m = []))) (tagged acc) /\
  uncited acc' = uncited acc.
Proof.
  unfold examine_media_step, mbind, M_bind, getsize, lift.
  destruct (bool_decide (m_path m = "")); simpl.
  - destruct (analyze_change _ _ _ _); simpl; [|done].
    by intros [= <- <-].
  - destruct (files w !! _); simpl;
      (destruct (analyze_change _ _ _ _); simpl; [|done]);
      by intros [= <- <-].
Qed.

Lemma examine_media_loop_counters env db ms : forall acc w acc' w',
  for_eachM (examine_media_step env db) ms acc w = (Some acc', w') ->
  no_desc acc' = (no_desc acc + how_many (fun m => m_desc m = "") ms)%Z /\
  no_date acc' = (no_date acc + how_many (fun m => m_date m = "") ms)%Z /\
  no_path acc' = (no_path acc + how_many (fun m => m_path m = "") ms)%Z /\
  no_mime acc' = (no_mime acc + how_many (fun m => m_mime m = "") ms)%Z /\
  private acc' = (private acc + how_many (fun m => m_private m = true) ms)%Z /\
  tagged acc' = (tagged acc + how_many (fun m => m_tag_list m <> []) ms)%Z /\
  uncited acc' = uncited acc.
Proof.
  induction ms as [|m ms IH]; intros acc w acc' w'; simpl.
  - intros [= <- <-]. rewrite !how_many_nil. repeat split; lia.
  - unfold mbind, M_bind.
    destruct (examine_media_step env db acc m w) as [[acc1|] w1] eqn:E; [|done].
    intros Hrest. apply IH in Hrest as (H1 & H2 & H3 & H4 & H5 & H6 & H7).
    apply examine_media_step_counters in E as (E1 & E2 & E3 & E4 & E5 & E6 & E7).
    rewrite H1, H2, H3, H4, H5, H6, H7, E1, E2, E3, E4, E5, E6, E7.
    rewrite !how_many_cons. unfold count_if. clear.
    repeat split; try done; destruct (m_private m);
      repeat (case_bool_decide || case_decide); simpl; try done; lia.
Qed.

Lemma examine_media_counters_run env args queue db w :
  lookup_family_tree env (tree_name args) = Some db ->
  exists acc,
    examine_media env args queue w
    = (Some tt,
       timed_world args
         (put_world queue
            (media_payload (Z.of_nat (length (iter_media db))) acc)
            (set_log (log w ++ [DbLoad (tree_name args)]) w))) /\
    no_desc acc = how_many (fun m => m_desc m = "") (iter_media db) /\
    no_date acc = how_many (fun m => m_date m = "") (iter_media db) /\
    no_path acc = how_many (fun m => m_path m = "") (iter_media db) /\
    no_mime acc = how_many (fun m => m_mime m = "") (iter_media db) /\
    private acc = how_many (fun m => m_private m = true) (iter_media db) /\
    tagged acc = how_many (fun m => m_tag_list m <> []) (iter_media db) /\
    uncited acc = 0%Z.
Proof.
  intros Hdb.
  destruct (examine_media_loop env db
              (set_log (log w ++ [DbLoad (tree_name args)]) w)
              (iter_media db) media_acc0 [])
    as (acc & Hloop & _); [constructor|done|constructor|].
  exists acc. split.
  - unfold examine_media.
    rewrite (bind_run _ _ _ _ _ (open_readonly_database_run _ _ _ _ Hdb)).
    rewrite (bind_run _ _ _ _ _ Hloop).
    unfold queue_put at 1. unfold mbind at 1, M_bind at 1.
    apply print_time_run.
  - apply examine_media_loop_counters in Hloop. simpl in Hloop.
    destruct Hloop as (H1 & H2 & H3 & H4 & H5 & H6 & H7).
    repeat split; done.
Qed.

(** X12: the entry [media_uncited] of the payload of [examine_media] is
    0 for every tree: the worker sets [uncited] to 0 and has no
    statement that counts a media object without citations. *)
Theorem examine_media_counts_nothing_uncited env args queue db w :
  lookup_family_tree env (tree_name args) = Some db ->
  exists payload w',
    examine_media env args queue w = (Some tt, w') /\
    pending w' !!! queue = pending w !!! queue ++ [payload] /\
    find2 payload "uncited" "media_uncited" = Some (VInt 0).
Proof.
  intros Hdb.
  destruct (examine_media_counters_run env args queue db w Hdb)
    as (acc & Hrun & _ & _ & _ & _ & _ & _ & Hun).
  do 2 eexists. split; [exact Hrun|]. split.
  - unfold timed_world, put_world. destruct (time args); simpl;
      by rewrite lookup_total_insert_eq.
  - unfold find2. simpl. by rewrite Hun.
Qed.

Lemma examine_media_counts_nothing_uncited_witness :
  exists payload w',
    examine_media sample_env sample_args 0 sample_world = (Some tt, w') /\
    pending w' !!! 0 = pending sample_world !!! 0 ++ [payload] /\
    find2 payload "uncited" "media_uncited" = Some (VInt 0).
Proof.
  apply (examine_media_counts_nothing_uncited sample_env sample_args 0
           sample_db).
  reflexivity.
Defined.

(** X13: in the payload of [examine_media], [media_total] is the number
    of media objects and each of [media_no_description],
    [media_no_date], [media_no_path], [media_no_mime], [media_private]
    and [media_tagged] is the number of media objects that fail, or
    pass, the test of that counter. *)
Theorem examine_media_counters env args queue db w :
  lookup_family_tree env (tree_name args) = Some db ->
  exists payload w',
    examine_media env args queue w = (Some tt, w') /\
    pending w' !!! queue = pending w !!! queue ++ [payload] /\
    find2 payload "media" "media_total"
    = Some (VInt (Z.of_nat (length (iter_media db)))) /\
    find2 payload "media" "media_no_description"
    = Some (VInt (how_many (fun m => m_desc m = "") (iter_media db))) /\
    find2 payload "media" "media_no_date"
    = Some (VInt (how_many (fun m => m_date m = "") (iter_media db))) /\
    find2 payload "media" "media_no_path"
    = Some (VInt (how_many (fun m => m_path m = "") (iter_media db))) /\
    find2 payload "media" "media_no_mime"
    = Some (VInt (how_many (fun m => m_mime m = "") (iter_media db))) /\
    find2 payload "privacy" "media_private"
    = Some (VInt (how_many (fun m => m_private m = true) (iter_media db))) /\
    find2 payload "tag" "media_tagged"
    = Some (VInt (how_many (fun m => m_tag_list m <> []) (iter_media db))).
Proof.
  intros Hdb.
  destruct (examine_media_counters_run env args queue db w Hdb)
    as (acc & Hrun & H1 & H2 & H3 & H4 & H5 & H6 & _).
  do 2 eexists. split; [exact Hrun|]. split.
  - unfold timed_world, put_world. destruct (time args); simpl;
      by rewrite lookup_total_insert_eq.
  - unfold find2. simpl. by rewrite H1, H2, H3, H4, H5, H6.
Qed.

Lemma examine_media_counters_witness :
  exists payload w',
    examine_media sample_env sample_args 0 sample_world = (Some tt, w') /\
    pending w' !!! 0 = pending sample_world !!! 0 ++ [payload] /\
    find2 payload "media" "media_total"
    = Some (VInt (Z.of_nat (length (iter_media sample_db)))) /\
    find2 payload "media" "media_no_description"
    = Some (VInt (how_many (fun m => m_desc m = "") (iter_media sample_db))) /\
    find2 payload "media" "media_no_date"
    = Some (VInt (how_many (fun m => m_date m = "") (iter_media sample_db))) /\
    find2 payload "media" "media_no_path"
    = Some (VInt (how_many (fun m => m_path m = "") (iter_media sample_db))) /\
    find2 payload "media" "media_no_mime"
    = Some (VInt (how_many (fun m => m_mime m = "") (iter_media sample_db))) /\
    find2 payload "privacy" "media_private"
    = Some (VInt (how_many (fun m => m_private m = true)
                    (iter_media sample_db))) /\
    find2 payload "tag" "media_tagged"
    = Some (VInt (how_many (fun m => m_tag_list m <> [])
                    (iter_media sample_db))).
Proof.
  apply (examine_media_counters sample_env sample_args 0 sample_db).
  reflexivity.
Defined.

(** ** The payload of [examine_people] and the other sessions *)







(** * The counters of the workers *)

Section pymap.
Context {K V : Type} `{EqDecision K}.
Implicit Types d : list (K * V).

Lemma PyMap_get_set k k' (v : V) d :
  PyMap.get k' (PyMap.set k v d)
  = if decide (k' = k) then Some v else PyMap.get k' d.
Proof.
  induction d as [|[k0 v0] d IH]; simpl.
  - destruct (decide (k' = k)); done.
  - destruct (decide (k = k0)) as [->|Hne]; simpl.
    + destruct (decide (k' = k0)); done.
    + rewrite IH. destruct (decide (k' = k0)) as [->|]; [|done].
      by rewrite decide_False by done.
Qed.

Lemma PyMap_set_set k (v v' : V) d :
  PyMap.set k v (PyMap.set k v' d) = PyMap.set k v d.
Proof.
  induction d as [|[k0 v0] d IH]; simpl.
  - by rewrite decide_True.
  - destruct (decide (k = k0)) as [->|Hne]; simpl.
    + by rewrite decide_True.
    + rewrite decide_False by done. by rewrite IH.
Qed.

Lemma PyMap_keys_set k (v : V) d :
  (PyMap.set k v d).*1 = if PyMap.mem k d then d.*1 else d.*1 ++ [k].
Proof.
  unfold PyMap.mem. induction d as [|[k0 v0] d IH]; [done|].
  cbn [PyMap.set PyMap.get].
  destruct (decide (k = k0)) as [->|Hne]; [done|].
  rewrite !fmap_cons, IH. by destruct (PyMap.get k d).
Qed.

Lemma PyMap_elem_of_keys k d : k ∈ d.*1 <-> is_Some (PyMap.get k d).
Proof.
  induction d as [|[k0 v0] d IH]; simpl.
  - split; [by intros ?%elem_of_nil|by intros [? ?]].
  - rewrite elem_of_cons, IH. destruct (decide (k = k0)) as [->|Hne].
    + split; [by eauto|by left].
    + split; [by intros [?|?]|by right].
Qed.

End pymap.

Lemma histogram_total_set {K} `{EqDecision K} (k : K) v (d : histogram K) :
  histogram_total (PyMap.set k v d)
  = (histogram_total d - default 0 (PyMap.get k d) + v)%Z.
Proof.
  unfold histogram_total, sum.
  induction d as [|[k0 v0] d IH]; [simpl; lia|].
  cbn [PyMap.set PyMap.get].
  destruct (decide (k = k0)) as [->|Hne]; [simpl; lia|].
  rewrite !fmap_cons. cbn [foldr]. rewrite IH. simpl. lia.
Qed.

Lemma count_key_run {K} `{EqDecision K} (k : K) (d : histogram K) :
  count_key k d = Some (tally [k] d).
Proof.
  unfold count_key, tally, PyMap.mem. simpl.
  destruct (PyMap.get k d) as [n|] eqn:E; simpl.
  - by rewrite E.
  - rewrite PyMap_get_set, decide_True by done. simpl.
    by rewrite PyMap_set_set.
Qed.

Lemma tally_cons {K} `{EqDecision K} (k : K) ks (d : histogram K) :
  tally (k :: ks) d
  = tally ks (PyMap.set k (default 0 (PyMap.get k d) + 1)%Z d).
Proof. done. Qed.

Lemma tally_app {K} `{EqDecision K} (ks1 ks2 : list K) (d : histogram K) :
  tally (ks1 ++ ks2) d = tally ks2 (tally ks1 d).
Proof. apply foldl_app. Qed.

Lemma tally_get {K} `{EqDecision K} (ks : list K) : forall (d : histogram K) k,
  PyMap.get k (tally ks d)
  = if decide (k ∈ ks)
    then Some (default 0 (PyMap.get k d) + how_many (fun k' => k' = k) ks)%Z
    else PyMap.get k d.
Proof.
  induction ks as [|k0 ks IH]; intros d k.
  - rewrite decide_False by apply not_elem_of_nil. done.
  - rewrite tally_cons, IH, PyMap_get_set.
    unfold how_many. rewrite (filter_cons _ k0).
    destruct (decide (k = k0)) as [->|Hne].
    + rewrite !(decide_True (P := k0 = k0)) by done.
      rewrite (decide_True (P := k0 ∈ k0 :: ks)) by (by left).
      simpl. destruct (decide (k0 ∈ ks)) as [Hin|Hin]; simpl; f_equal; [lia|].
      rewrite filter_none; [simpl; lia|].
      apply Forall_forall. intros x Hx ->. done.
    + rewrite (decide_False (P := k0 = k)) by done.
      destruct (decide (k ∈ ks)) as [Hin|Hin].
      * by rewrite (decide_True (P := k ∈ k0 :: ks)) by (by right).
      * rewrite (decide_False (P := k ∈ k0 :: ks)); [done|].
        by intros [?|?]%elem_of_cons.
Qed.

Lemma tally_total {K} `{EqDecision K} (ks : list K) : forall d : histogram K,
  histogram_total (tally ks d) = (histogram_total d + Z.of_nat (length ks))%Z.
Proof.
  induction ks as [|k0 ks IH]; intros d; [simpl; lia|].
  rewrite tally_cons, IH, histogram_total_set. simpl length. lia.
Qed.

Lemma tally_keys_NoDup {K} `{EqDecision K} (ks : list K) :
  forall d : histogram K, NoDup d.*1 -> NoDup (tally ks d).*1.
Proof.
  induction ks as [|k0 ks IH]; intros d Hd; [done|].
  rewrite tally_cons. apply IH. rewrite PyMap_keys_set.
  destruct (PyMap.mem k0 d) eqn:E; [done|].
  apply NoDup_app. split; [done|]. split; [|apply NoDup_singleton].
  intros k Hk ->%list_elem_of_singleton.
  apply PyMap_elem_of_keys in Hk. unfold PyMap.mem in E.
  destruct (PyMap.get k0 d); [done|]. by destruct Hk.
Qed.

(** ** The loop of [examine_families] *)

Lemma how_many_app {A} (P : A -> Prop) `{forall x, Decision (P x)} l1 l2 :
  how_many P (l1 ++ l2) = (how_many P l1 + how_many P l2)%Z.
Proof. unfold how_many. rewrite filter_app, length_app. lia. Qed.

Lemma how_many_bounds {A} (P : A -> Prop) `{forall x, Decision (P x)} l :
  (0 <= how_many P l <= Z.of_nat (length l))%Z.
Proof. unfold how_many. pose proof (length_filter P l). lia. Qed.

Lemma analyze_change_returns l h c (max_length : Z) :
  (0 <= max_length)%Z -> is_Some (analyze_change l h c max_length).
Proof.
  intros Hm. unfold analyze_change, PyList.pop.
  destruct (bisect_total (mkKeyWrapper l snd) c) as (r & -> & _).
  cbn [mbind option_bind]. rewrite !PyList_length_insert.
  unfold entry, handle in *.
  repeat match goal with
         | |- context [(?a <? ?b)%Z] => destruct (Z.ltb_spec a b)
         | |- context [(?a <=? ?b)%Z] => destruct (Z.leb_spec a b)
         end; simpl; try (by eexists); lia.
Qed.

Lemma families_event_ref_loop refs : forall roles private,
  for_each Families.event_ref_step refs (roles, private)
  = Some (tally (er_role <$> refs) roles,
          (private + how_many (fun r => er_private r = true) refs)%Z).
Proof.
  induction refs as [|r refs IH]; intros roles private.
  - simpl. rewrite how_many_nil. f_equal. apply pair_equal_spec. split; [done|lia].
  - cbn [for_each Families.event_ref_step]. rewrite count_key_run.
    cbn [mbind option_bind]. rewrite IH, fmap_cons, how_many_cons.
    f_equal. apply pair_equal_spec. split; [done|].
    unfold count_if. destruct (er_private r); case_decide; try done; lia.
Qed.

Lemma families_child_ref_loop refs : forall child private uncited mother father,
  for_each Families.child_ref_step refs (child, private, uncited, mother, father)
  = Some ((child + Z.of_nat (length refs))%Z,
          (private + how_many (fun r => cr_private r = true) refs)%Z,
          (uncited + how_many (fun r => cr_citation_list r = []) refs)%Z,
          tally (cr_mrel <$> refs) mother,
          tally (cr_frel <$> refs) father).
Proof.
  induction refs as [|r refs IH]; intros child private uncited mother father.
  - simpl. rewrite !how_many_nil. f_equal.
    repeat (apply pair_equal_spec; split); try done; lia.
  - cbn [for_each Families.child_ref_step]. rewrite !count_key_run.
    cbn [mbind option_bind]. rewrite IH, !fmap_cons, !how_many_cons.
    simpl length. unfold count_if. f_equal.
    repeat (apply pair_equal_spec; split); try done; try lia.
    + destruct (cr_private r); case_decide; try done; lia.
    + case_bool_decide; case_decide; try done; lia.
Qed.

(** One turn of the loop of [examine_families]: it never raises, and
    these are the new values of the local variables. *)
Lemma families_step_run acc f :
  exists lc,
    Families.step acc f
    = Some (Families.mkAcc
        (count_if (negb (bool_decide (f_media_list f = [])))
           (Families.media acc))
        (Families.media_refs acc + Z.of_nat (length (f_media_list f)))%Z
        (count_if (xorb (truth (f_father_handle f)) (truth (f_mother_handle f)))
           (Families.missing_one acc))
        (count_if (negb (truth (f_father_handle f))
                   && negb (truth (f_mother_handle f)))
           (Families.missing_both acc))
        (tally [f_type f] (Families.family_relations acc))
        (count_if (bool_decide (f_citation_list f = [])) (Families.uncited acc))
        (count_if (bool_decide (f_event_ref_list f = []))
           (Families.no_events acc))
        (count_if (f_private f) (Families.private acc))
        (count_if (negb (bool_decide (f_tag_list f = []))) (Families.tagged acc))
        (Families.child acc + Z.of_nat (length (f_child_ref_list f)))%Z
        (count_if (bool_decide (f_child_ref_list f = []))
           (Families.no_child acc))
        (Families.child_private acc
         + how_many (fun r => cr_private r = true) (f_child_ref_list f))%Z
        (Families.child_uncited acc
         + how_many (fun r => cr_citation_list r = []) (f_child_ref_list f))%Z
        (tally (cr_mrel <$> f_child_ref_list f)
           (Families.child_mother_relations acc))
        (tally (cr_frel <$> f_child_ref_list f)
           (Families.child_father_relations acc))
        (tally (er_role <$> f_event_ref_list f)
           (Families.participant_roles acc))
        (Families.participant_private acc
         + how_many (fun r => er_private r = true) (f_event_ref_list f))%Z
        lc).
Proof.
  destruct (analyze_change_returns (Families.last_changed acc) (f_handle f)
              (f_change f) 20) as [lc Hlc]; [lia|].
  exists lc. unfold Families.step. rewrite count_key_run, Hlc.
  rewrite families_event_ref_loop, families_child_ref_loop.
  unfold count_media, count_if.
  destruct (f_media_list f) as [|m ms] eqn:Em;
    destruct (f_event_ref_list f) as [|r rs] eqn:Er;
    destruct (f_child_ref_list f) as [|c cs] eqn:Ec;
    destruct (truth (f_father_handle f)), (truth (f_mother_handle f));
    cbn -[tally how_many Z.add Z.of_nat]; rewrite ?how_many_nil;
    repeat f_equal; lia.
Qed.

Lemma count_if_how_many {A} (P : A -> Prop) `{forall x, Decision (P x)}
    (b : bool) (x : A) (l : list A) (n : Z) :
  (b = true <-> P x) ->
  (count_if b n + how_many P l)%Z = (n + how_many P (x :: l))%Z.
Proof.
  intros Hb. rewrite how_many_cons. unfold count_if.
  destruct b; case_decide; try lia.
  - exfalso. by apply H0, Hb.
  - exfalso. by assert (false = true) by (by apply Hb).
Qed.

(** The loop of [examine_families] never raises; the local variables at
    its end, from their values [acc] at its start. *)
Lemma families_loop_run fs : forall acc,
  exists acc',
    for_each Families.step fs acc = Some acc' /\
    Families.media acc'
    = (Families.media acc + how_many (fun f => f_media_list f <> []) fs)%Z /\
    Families.media_refs acc'
    = (Families.media_refs acc + Z.of_nat (length (fs ≫= f_media_list)))%Z /\
    Families.missing_one acc'
    = (Families.missing_one acc
       + how_many (fun f => truth (f_father_handle f)
                            <> truth (f_mother_handle f)) fs)%Z /\
    Families.missing_both acc'
    = (Families.missing_both acc
       + how_many (fun f => truth (f_father_handle f) = false
                            /\ truth (f_mother_handle f) = false) fs)%Z /\
    Families.family_relations acc'
    = tally (f_type <$> fs) (Families.family_relations acc) /\
    Families.uncited acc'
    = (Families.uncited acc + how_many (fun f => f_citation_list f = []) fs)%Z /\
    Families.no_events acc'
    = (Families.no_events acc
       + how_many (fun f => f_event_ref_list f = []) fs)%Z /\
    Families.private acc'
    = (Families.private acc + how_many (fun f => f_private f = true) fs)%Z /\
    Families.tagged acc'
    = (Families.tagged acc + how_many (fun f => f_tag_list f <> []) fs)%Z /\
    Families.child acc'
    = (Families.child acc + Z.of_nat (length (fs ≫= f_child_ref_list)))%Z /\
    Families.no_child acc'
    = (Families.no_child acc
       + how_many (fun f => f_child_ref_list f = []) fs)%Z /\
    Families.child_private acc'
    = (Families.child_private acc
       + how_many (fun r => cr_private r = true) (fs ≫= f_child_ref_list))%Z /\
    Families.child_uncited acc'
    = (Families.child_uncited acc
       + how_many (fun r => cr_citation_list r = [])
           (fs ≫= f_child_ref_list))%Z /\
    Families.child_mother_relations acc'
    = tally (cr_mrel <$> (fs ≫= f_child_ref_list))
        (Families.child_mother_relations acc) /\
    Families.child_father_relations acc'
    = tally (cr_frel <$> (fs ≫= f_child_ref_list))
        (Families.child_father_relations acc) /\
    Families.participant_roles acc'
    = tally (er_role <$> (fs ≫= f_event_ref_list))
        (Families.participant_roles acc) /\
    Families.participant_private acc'
    = (Families.participant_private acc
       + how_many (fun r => er_private r = true) (fs ≫= f_event_ref_list))%Z.
Proof.
  induction fs as [|f fs IH]; intros acc.
  - exists acc. simpl. rewrite !how_many_nil. repeat split; try done; lia.
  - destruct (families_step_run acc f) as [lc Hstep].
    cbn [for_each]. rewrite Hstep. cbn [mbind option_bind].
    match goal with
    | |- context [for_each Families.step fs ?a] =>
        destruct (IH a)
          as (acc' & Hrun & H1 & H2 & H3 & H4 & H5 & H6 & H7 & H8 & H9 & H10
              & H11 & H12 & H13 & H14 & H15 & H16 & H17)
    end.
    exists acc'. split; [exact Hrun|]. cbn in H1, H2, H3, H4, H5, H6, H7, H8,
      H9, H10, H11, H12, H13, H14, H15, H16, H17.
    rewrite H1, H2, H3, H4, H5, H6, H7, H8, H9, H10, H11, H12, H13, H14, H15,
      H16, H17.
    rewrite !bind_cons, !fmap_cons, !fmap_app, !tally_app, !length_app,
      !how_many_app.
    repeat split; try done; try lia.
    + apply count_if_how_many.
      by rewrite negb_true_iff, bool_decide_eq_false.
    + apply count_if_how_many.
      destruct (truth (f_father_handle f)), (truth (f_mother_handle f)); done.
    + apply count_if_how_many.
      destruct (truth (f_father_handle f)), (truth (f_mother_handle f));
        simpl; intuition congruence.
    + apply count_if_how_many. apply bool_decide_eq_true.
    + apply count_if_how_many. apply bool_decide_eq_true.
    + by apply count_if_how_many.
    + apply count_if_how_many.
      by rewrite negb_true_iff, bool_decide_eq_false.
    + apply count_if_how_many. apply bool_decide_eq_true.
Qed.

Lemma how_many_fmap {A B} (f : A -> B) (P : B -> Prop)
    `{forall x, Decision (P x)} (l : list A) :
  how_many P (f <$> l) = how_many (fun x => P (f x)) l.
Proof.
  induction l as [|x l IH]; [done|].
  by rewrite fmap_cons, !how_many_cons, IH.
Qed.

Lemma how_many_disjoint {A} (P Q : A -> Prop) `{forall x, Decision (P x)}
    `{forall x, Decision (Q x)} (l : list A) :
  (forall x, P x -> Q x -> False) ->
  (how_many P l + how_many Q l)%Z = how_many (fun x => P x \/ Q x) l.
Proof.
  intros Hd. induction l as [|x l IH]; [done|].
  rewrite !how_many_cons, <- IH.
  destruct (decide (P x)) as [HP|HP], (decide (Q x)) as [HQ|HQ];
    case_decide; try lia; try (exfalso; by eauto); exfalso; tauto.
Qed.

Lemma how_many_ext {A} (P Q : A -> Prop) `{forall x, Decision (P x)}
    `{forall x, Decision (Q x)} (l : list A) :
  (forall x, P x <-> Q x) -> how_many P l = how_many Q l.
Proof. intros HPQ. unfold how_many. by rewrite (list_filter_iff P Q). Qed.

Lemma how_many_nonempty_le {A B} (f : A -> list B) (l : list A) :
  (how_many (fun x => f x <> []) l <= Z.of_nat (length (l ≫= f)))%Z.
Proof.
  induction l as [|x l IH]; [done|].
  rewrite how_many_cons, bind_cons, length_app.
  case_decide as Hx; [|lia]. destruct (f x); [done|]. simpl. lia.
Qed.

Lemma tally_get_from_empty {A K} `{EqDecision K} (f : A -> K) (l : list A) k :
  PyMap.get k (tally (f <$> l) [])
  = if decide (k ∈ f <$> l) then Some (how_many (fun x => f x = k) l)
    else None.
Proof.
  rewrite tally_get. case_decide; [|done].
  simpl. by rewrite how_many_fmap.
Qed.

(** X17: the loop of [examine_families] never raises, and at its end
    [missing_both] is the number of families with neither a father nor a
    mother, [missing_one] the number of families with exactly one of
    the two, so that their sum is the number of families that lack a
    parent; [uncited], [private], [tagged], [no_events] and [no_child]
    are the numbers of families without a citation, marked private,
    with a tag, without an event reference and without a child
    reference. *)
Theorem examine_families_counts_parents fs :
  exists acc,
    Families.loop fs = Some acc /\
    Families.missing_both acc
    = how_many (fun f => truth (f_father_handle f) = false
                         /\ truth (f_mother_handle f) = false) fs /\
    Families.missing_one acc
    = how_many (fun f => truth (f_father_handle f)
                         <> truth (f_mother_handle f)) fs /\
    (Families.missing_one acc + Families.missing_both acc)%Z
    = how_many (fun f => truth (f_father_handle f) = false
                         \/ truth (f_mother_handle f) = false) fs /\
    Families.uncited acc = how_many (fun f => f_citation_list f = []) fs /\
    Families.private acc = how_many (fun f => f_private f = true) fs /\
    Families.tagged acc = how_many (fun f => f_tag_list f <> []) fs /\
    Families.no_events acc = how_many (fun f => f_event_ref_list f = []) fs /\
    Families.no_child acc = how_many (fun f => f_child_ref_list f = []) fs.
Proof.
  destruct (families_loop_run fs Families.acc0)
    as (acc & Hrun & _ & _ & H3 & H4 & _ & H6 & H7 & H8 & H9 & _ & H11 & _).
  exists acc. split; [exact Hrun|]. simpl in *.
  rewrite H3, H4, H6, H7, H8, H9, H11.
  repeat split; try done. rewrite !Z.add_0_l.
  rewrite how_many_disjoint by (intros f Hne [H1 H2]; congruence).
  apply how_many_ext. intros f.
  destruct (truth (f_father_handle f)), (truth (f_mother_handle f));
    intuition congruence.
Qed.

(** X18: at the end of the loop of [examine_families] the histogram
    [family_relations] has exactly the relation types of the families
    as its keys, each with the number of families of that type, and its
    values add up to the number of families; [child] is the number of
    child references, the values of each of the two child relation
    histograms add up to it, and [child_private] and [child_uncited] lie
    between zero and it; the values of [participant_roles] add up to the
    number of event references, which bounds [participant_private];
    [media_refs] is the number of media references and [media] lies
    between zero and it. *)
Theorem examine_families_histograms fs :
  exists acc,
    Families.loop fs = Some acc /\
    (forall t, PyMap.get t (Families.family_relations acc)
               = if decide (t ∈ f_type <$> fs)
                 then Some (how_many (fun f => f_type f = t) fs)
                 else None) /\
    histogram_total (Families.family_relations acc) = Z.of_nat (length fs) /\
    Families.child acc = Z.of_nat (length (fs ≫= f_child_ref_list)) /\
    histogram_total (Families.child_mother_relations acc) = Families.child acc /\
    histogram_total (Families.child_father_relations acc) = Families.child acc /\
    (0 <= Families.child_private acc <= Families.child acc)%Z /\
    (0 <= Families.child_uncited acc <= Families.child acc)%Z /\
    histogram_total (Families.participant_roles acc)
    = Z.of_nat (length (fs ≫= f_event_ref_list)) /\
    (0 <= Families.participant_private acc
     <= Z.of_nat (length (fs ≫= f_event_ref_list)))%Z /\
    Families.media_refs acc = Z.of_nat (length (fs ≫= f_media_list)) /\
    (0 <= Families.media acc <= Families.media_refs acc)%Z.
Proof.
  destruct (families_loop_run fs Families.acc0)
    as (acc & Hrun & H1 & H2 & _ & _ & H5 & _ & _ & _ & _ & H10 & _ & H12
        & H13 & H14 & H15 & H16 & H17).
  exists acc. split; [exact Hrun|]. simpl in *.
  rewrite H1, H2, H5, H10, H12, H13, H14, H15, H16, H17.
  rewrite !tally_total, !length_fmap.
  split; [intros t; apply tally_get_from_empty|].
  pose proof (how_many_bounds (fun r => cr_private r = true)
                (fs ≫= f_child_ref_list)).
  pose proof (how_many_bounds (fun r => cr_citation_list r = [])
                (fs ≫= f_child_ref_list)).
  pose proof (how_many_bounds (fun r => er_private r = true)
                (fs ≫= f_event_ref_list)).
  pose proof (how_many_bounds (fun f => f_media_list f <> []) fs).
  pose proof (how_many_nonempty_le f_media_list fs).
  unfold histogram_total, sum. simpl.
  repeat split; lia.
Qed.

(** ** The loop of [examine_citations] *)

Lemma citations_step_run acc c :
  exists lc,
    Citations.step acc c
    = Some (Citations.mkAcc
        (count_if (negb (bool_decide (c_media_list c = [])))
           (Citations.media acc))
        (Citations.media_refs acc + Z.of_nat (length (c_media_list c)))%Z
        (count_if (negb (truth (c_source_handle c))) (Citations.no_source acc))
        (count_if (bool_decide (c_page c = "")) (Citations.no_page acc))
        (count_if (bool_decide (c_date c = "")) (Citations.no_date acc))
        (count_if (c_private c) (Citations.private acc))
        (count_if (negb (bool_decide (c_tag_list c = [])))
           (Citations.tagged acc))
        (count_if (bool_decide (c_confidence c = CONF_VERY_LOW))
           (Citations.very_low acc))
        (count_if (bool_decide (c_confidence c = CONF_LOW))
           (Citations.low acc))
        (count_if (bool_decide (c_confidence c = CONF_NORMAL))
           (Citations.normal acc))
        (count_if (bool_decide (c_confidence c = CONF_HIGH))
           (Citations.high acc))
        (count_if (bool_decide (c_confidence c = CONF_VERY_HIGH))
           (Citations.very_high acc))
        lc).
Proof.
  destruct (analyze_change_returns (Citations.last_changed acc) (c_handle c)
              (c_change c) 20) as [lc Hlc]; [lia|].
  exists lc. unfold Citations.step. rewrite Hlc.
  unfold count_media, count_if, CONF_VERY_LOW, CONF_LOW, CONF_NORMAL,
    CONF_HIGH, CONF_VERY_HIGH.
  destruct (c_media_list c) as [|m ms] eqn:Em;
    repeat case_bool_decide; try lia; try congruence;
    cbn -[Z.add Z.of_nat]; repeat f_equal; lia.
Qed.

Lemma citations_loop_run cs : forall acc,
  exists acc',
    for_each Citations.step cs acc = Some acc' /\
    Citations.media acc'
    = (Citations.media acc + how_many (fun c => c_media_list c <> []) cs)%Z /\
    Citations.media_refs acc'
    = (Citations.media_refs acc + Z.of_nat (length (cs ≫= c_media_list)))%Z /\
    Citations.no_source acc'
    = (Citations.no_source acc
       + how_many (fun c => truth (c_source_handle c) = false) cs)%Z /\
    Citations.no_page acc'
    = (Citations.no_page acc + how_many (fun c => c_page c = "") cs)%Z /\
    Citations.no_date acc'
    = (Citations.no_date acc + how_many (fun c => c_date c = "") cs)%Z /\
    Citations.private acc'
    = (Citations.private acc + how_many (fun c => c_private c = true) cs)%Z /\
    Citations.tagged acc'
    = (Citations.tagged acc + how_many (fun c => c_tag_list c <> []) cs)%Z /\
    Citations.very_low acc'
    = (Citations.very_low acc
       + how_many (fun c => c_confidence c = CONF_VERY_LOW) cs)%Z /\
    Citations.low acc'
    = (Citations.low acc + how_many (fun c => c_confidence c = CONF_LOW) cs)%Z /\
    Citations.normal acc'
    = (Citations.normal acc
       + how_many (fun c => c_confidence c = CONF_NORMAL) cs)%Z /\
    Citations.high acc'
    = (Citations.high acc + how_many (fun c => c_confidence c = CONF_HIGH) cs)%Z /\
    Citations.very_high acc'
    = (Citations.very_high acc
       + how_many (fun c => c_confidence c = CONF_VERY_HIGH) cs)%Z.
Proof.
  induction cs as [|c cs IH]; intros acc.
  - exists acc. simpl. rewrite !how_many_nil. repeat split; try done; lia.
  - destruct (citations_step_run acc c) as [lc Hstep].
    cbn [for_each]. rewrite Hstep. cbn [mbind option_bind].
    match goal with
    | |- context [for_each Citations.step cs ?a] =>
        destruct (IH a)
          as (acc' & Hrun & H1 & H2 & H3 & H4 & H5 & H6 & H7 & H8 & H9 & H10
              & H11 & H12)
    end.
    exists acc'. split; [exact Hrun|].
    cbn in H1, H2, H3, H4, H5, H6, H7, H8, H9, H10, H11, H12.
    rewrite H1, H2, H3, H4, H5, H6, H7, H8, H9, H10, H11, H12.
    rewrite !bind_cons, !length_app.
    repeat split; try lia; apply count_if_how_many;
      rewrite ?negb_true_iff, ?bool_decide_eq_false, ?bool_decide_eq_true;
      done.
Qed.

(** X19: the loop of [examine_citations] never raises, and at its end
    each of the five confidence counters is the number of citations of
    that confidence; a citation whose confidence is none of the five
    constants is counted by none of them, so the five add up to the
    number of citations whose confidence lies between [CONF_VERY_LOW]
    and [CONF_VERY_HIGH].  [no_source], [no_page], [no_date], [private]
    and [tagged] are the numbers of citations without a source handle,
    with an empty page, with an empty date, marked private and with a
    tag; [media_refs] is the number of media references and [media] lies
    between zero and it. *)
Theorem examine_citations_counts_confidence cs :
  exists acc,
    Citations.loop cs = Some acc /\
    Citations.very_low acc
    = how_many (fun c => c_confidence c = CONF_VERY_LOW) cs /\
    Citations.low acc = how_many (fun c => c_confidence c = CONF_LOW) cs /\
    Citations.normal acc = how_many (fun c => c_confidence c = CONF_NORMAL) cs /\
    Citations.high acc = how_many (fun c => c_confidence c = CONF_HIGH) cs /\
    Citations.very_high acc
    = how_many (fun c => c_confidence c = CONF_VERY_HIGH) cs /\
    (Citations.very_low acc + Citations.low acc + Citations.normal acc
     + Citations.high acc + Citations.very_high acc)%Z
    = how_many (fun c => (CONF_VERY_LOW <= c_confidence c <= CONF_VERY_HIGH)%Z)
        cs /\
    Citations.no_source acc
    = how_many (fun c => truth (c_source_handle c) = false) cs /\
    Citations.no_page acc = how_many (fun c => c_page c = "") cs /\
    Citations.no_date acc = how_many (fun c => c_date c = "") cs /\
    Citations.private acc = how_many (fun c => c_private c = true) cs /\
    Citations.tagged acc = how_many (fun c => c_tag_list c <> []) cs /\
    Citations.media_refs acc = Z.of_nat (length (cs ≫= c_media_list)) /\
    (0 <= Citations.media acc <= Citations.media_refs acc)%Z.
Proof.
  destruct (citations_loop_run cs Citations.acc0)
    as (acc & Hrun & H1 & H2 & H3 & H4 & H5 & H6 & H7 & H8 & H9 & H10 & H11
        & H12).
  exists acc. split; [exact Hrun|]. simpl in *.
  rewrite H1, H2, H3, H4, H5, H6, H7, H8, H9, H10, H11, H12, !Z.add_0_l.
  repeat split; try done.
  - clear. induction cs as [|c cs IH]; [done|].
    rewrite !how_many_cons, <- IH.
    unfold CONF_VERY_LOW, CONF_LOW, CONF_NORMAL, CONF_HIGH, CONF_VERY_HIGH.
    repeat case_decide; lia.
  - pose proof (how_many_bounds (fun c => c_media_list c <> []) cs). lia.
  - apply how_many_nonempty_le.
Qed.

(** ** The loop of [examine_people] *)

Lemma incr_run key (gender : People.gender_dict) :
  is_Some (PyMap.get key gender) ->
  People.incr key gender = Some (tally [key] gender).
Proof. intros [n Hn]. unfold People.incr, tally. simpl. by rewrite Hn. Qed.

Lemma incr_if_run (b : bool) key (gender : People.gender_dict) :
  is_Some (PyMap.get key gender) ->
  People.incr_if b key gender = Some (tally (if b then [key] else []) gender).
Proof. intros H. destruct b; [by apply incr_run|done]. Qed.

Lemma tally_is_Some {K} `{EqDecision K} (ks : list K) (d : histogram K) k :
  is_Some (PyMap.get k d) -> is_Some (PyMap.get k (tally ks d)).
Proof. intros H. rewrite tally_get. by case_decide. Qed.

Lemma gender_keys_elem key :
  key ∈ gender_keys <->
  key ∈ ["total"; "private"; "tagged"; "uncited"; "births_missing";
         "births_missing_date"; "births_missing_place"; "births_uncited";
         "births_private"; "deaths_missing"; "deaths_missing_date";
         "deaths_missing_place"; "deaths_uncited"; "deaths_private";
         "living"; "living_not_private"].
Proof. done. Qed.

Ltac gender_key :=
  apply tally_is_Some;
  match goal with
  | H : forall key, key ∈ gender_keys -> is_Some (PyMap.get key ?g)
    |- is_Some (PyMap.get _ ?g) =>
      apply H; apply gender_keys_elem; set_solver
  end.

Lemma birth_step_run events person (gender : People.gender_dict) :
  (forall key, key ∈ gender_keys -> is_Some (PyMap.get key gender)) ->
  (forall ref, p_birth_ref person = Some ref -> is_Some (events ref)) ->
  People.birth_step events person gender
  = Some (tally (birth_bumps events person) gender).
Proof.
  intros Hkeys Href. unfold People.birth_step, birth_bumps.
  destruct (p_birth_ref person) as [ref|].
  - destruct (Href ref eq_refl) as [birth ->]. cbn [mbind option_bind].
    rewrite incr_if_run by (apply (tally_is_Some []), Hkeys, gender_keys_elem; set_solver).
    cbn [mbind option_bind].
    rewrite incr_if_run by gender_key. cbn [mbind option_bind].
    rewrite incr_if_run by (apply tally_is_Some; gender_key).
    cbn [mbind option_bind].
    rewrite incr_if_run by (do 2 apply tally_is_Some; gender_key).
    rewrite <- !tally_app. do 2 f_equal.
    by destruct (truth (le_place birth)).
  - apply incr_run, Hkeys, gender_keys_elem. set_solver.
Qed.

Lemma death_step_run events person (gender : People.gender_dict) :
  (forall key, key ∈ gender_keys -> is_Some (PyMap.get key gender)) ->
  (forall ref, p_death_ref person = Some ref -> is_Some (events ref)) ->
  People.death_step events person gender
  = Some (tally (death_bumps events person) gender).
Proof.
  intros Hkeys Href. unfold People.death_step, death_bumps.
  destruct (p_death_ref person) as [ref|].
  - destruct (Href ref eq_refl) as [death ->]. cbn [mbind option_bind].
    rewrite incr_if_run by (apply (tally_is_Some []), Hkeys, gender_keys_elem; set_solver).
    cbn [mbind option_bind].
    rewrite incr_if_run by gender_key. cbn [mbind option_bind].
    rewrite incr_if_run by (apply tally_is_Some; gender_key).
    cbn [mbind option_bind].
    rewrite incr_if_run by (do 2 apply tally_is_Some; gender_key).
    rewrite <- !tally_app. do 2 f_equal.
    by destruct (truth (le_place death)).
  - rewrite incr_run by (apply Hkeys, gender_keys_elem; set_solver).
    cbn [mbind option_bind]. destruct (p_probably_alive person); [|done].
    rewrite incr_run by gender_key. cbn [mbind option_bind].
    rewrite incr_if_run by (apply tally_is_Some; gender_key).
    rewrite <- !tally_app. do 2 f_equal.
    by destruct (p_private person).
Qed.

Lemma people_person_ref_loop refs : forall n private uncited roles,
  for_each People.person_ref_step refs (n, private, uncited, roles)
  = Some ((n + Z.of_nat (length refs))%Z,
          (private + how_many (fun r => pr_private r = true) refs)%Z,
          (uncited + how_many (fun r => pr_citation_list r = []) refs)%Z,
          tally (pr_rel <$> refs) roles).
Proof.
  induction refs as [|r refs IH]; intros n private uncited roles.
  - simpl. rewrite !how_many_nil. f_equal.
    repeat (apply pair_equal_spec; split); try done; lia.
  - cbn [for_each People.person_ref_step]. rewrite !count_key_run.
    cbn [mbind option_bind]. rewrite IH, !fmap_cons, !how_many_cons.
    simpl length. unfold count_if. f_equal.
    repeat (apply pair_equal_spec; split); try done; try lia.
    + destruct (pr_private r); case_decide; try done; lia.
    + case_bool_decide; case_decide; try done; lia.
Qed.

Lemma people_event_ref_loop refs : forall n roles private,
  for_each People.event_ref_step refs (n, roles, private)
  = Some ((n + Z.of_nat (length refs))%Z,
          tally (er_role <$> refs) roles,
          (private + how_many (fun r => er_private r = true) refs)%Z).
Proof.
  induction refs as [|r refs IH]; intros n roles private.
  - simpl. rewrite !how_many_nil. f_equal.
    repeat (apply pair_equal_spec; split); try done; lia.
  - cbn [for_each People.event_ref_step]. rewrite !count_key_run.
    cbn [mbind option_bind]. rewrite IH, !fmap_cons, !how_many_cons.
    simpl length. unfold count_if. f_equal.
    repeat (apply pair_equal_spec; split); try done; try lia.
    destruct (er_private r); case_decide; try done; lia.
Qed.

Lemma name_step_run n name :
  People.name_step n name = (n + incomplete name)%Z.
Proof.
  unfold People.name_step, incomplete.
  destruct (n_first_name_blank name); [done|].
  case_bool_decide; [done|]. simpl.
  generalize (n_surname_list name). clear. intros l. revert n.
  induction l as [|b l IH]; intros n; simpl.
  - rewrite how_many_nil. lia.
  - rewrite IH, how_many_cons. unfold count_if.
    destruct b; case_decide; try done; lia.
Qed.

Lemma names_loop_run names : forall n,
  foldl People.name_step n names = (n + sum (incomplete <$> names))%Z.
Proof.
  induction names as [|name names IH]; intros n; [simpl; lia|].
  cbn [foldl]. rewrite IH, name_step_run, fmap_cons.
  unfold sum. cbn [foldr]. lia.
Qed.

Lemma get_gender_stats_run gender_stats gender :
  People.get_gender_stats gender_stats gender
  = Some (PyMap.set gender
            (default People.new_gender_stats (PyMap.get gender gender_stats))
            gender_stats,
          default People.new_gender_stats (PyMap.get gender gender_stats)).
Proof.
  unfold People.get_gender_stats, PyMap.mem.
  destruct (PyMap.get gender gender_stats) as [stats|] eqn:E; simpl.
  - rewrite E. simpl. do 2 f_equal. clear -E.
    induction gender_stats as [|[g d] gs IH]; [done|]. simpl in *.
    destruct (decide (gender = g)) as [->|Hne]; [by injection E as ->|].
    f_equal. by apply IH.
  - by rewrite PyMap_get_set, decide_True.
Qed.

(** One turn of the loop of [examine_people] on a person whose birth
    and death references are handles of the tree: the new values of the
    local variables. *)
Lemma people_step_run events acc p :
  gender_stats_ok (People.gender_stats acc) ->
  refs_resolve events p ->
  exists lc,
    People.step events acc p
    = Some (People.mkAcc
        (count_person events (People.gender_stats acc) p)
        (count_if (negb (bool_decide (p_media_list p = [])))
           (People.media acc))
        (People.media_refs acc + Z.of_nat (length (p_media_list p)))%Z
        (People.incomplete_names acc + sum (incomplete <$> names_of p))%Z
        (count_if (bool_decide (p_parent_family_list p = [])
                   && bool_decide (p_family_list p = []))
           (People.no_families acc))
        (tally (pr_rel <$> p_person_ref_list p) (People.association_roles acc))
        (count_if (negb (bool_decide (p_person_ref_list p = [])))
           (People.association acc))
        (People.association_refs acc
         + Z.of_nat (length (p_person_ref_list p)))%Z
        (People.association_private acc
         + how_many (fun r => pr_private r = true) (p_person_ref_list p))%Z
        (People.association_uncited acc
         + how_many (fun r => pr_citation_list r = []) (p_person_ref_list p))%Z
        (tally (er_role <$> p_event_ref_list p) (People.participant_roles acc))
        (count_if (negb (bool_decide (p_event_ref_list p = [])))
           (People.participant acc))
        (People.participant_refs acc
         + Z.of_nat (length (p_event_ref_list p)))%Z
        (People.participant_private acc
         + how_many (fun r => er_private r = true) (p_event_ref_list p))%Z
        lc).
Proof.
  intros Hok [Hbirth Hdeath].
  destruct (analyze_change_returns (People.last_changed acc) (p_handle p)
              (p_change p) 20) as [lc Hlc]; [lia|].
  exists lc. unfold People.step.
  rewrite get_gender_stats_run, Hlc, names_loop_run.
  set (g0 := default People.new_gender_stats
               (PyMap.get (p_gender p) (People.gender_stats acc))).
  assert (forall key, key ∈ gender_keys -> is_Some (PyMap.get key g0)) as Hg0.
  { subst g0. destruct (PyMap.get (p_gender p) (People.gender_stats acc))
      as [stats|] eqn:E.
    - by apply (Hok (p_gender p)).
    - intros key Hkey.
      change (is_Some (PyMap.get key People.new_gender_stats)).
      apply PyMap_elem_of_keys. exact Hkey. }
  cbn [mbind option_bind].
  rewrite incr_run by (apply Hg0, gender_keys_elem; set_solver).
  cbn [mbind option_bind].
  rewrite incr_if_run by gender_key. cbn [mbind option_bind].
  rewrite incr_if_run by (apply tally_is_Some; gender_key).
  cbn [mbind option_bind].
  rewrite incr_if_run by (do 2 apply tally_is_Some; gender_key).
  cbn [mbind option_bind].
  rewrite birth_step_run;
    [|intros key Hkey; do 4 apply tally_is_Some; by apply Hg0|exact Hbirth].
  cbn [mbind option_bind].
  rewrite death_step_run;
    [|intros key Hkey; do 5 apply tally_is_Some; by apply Hg0|exact Hdeath].
  cbn [mbind option_bind].
  rewrite <- !tally_app, PyMap_set_set.
  rewrite people_person_ref_loop, people_event_ref_loop.
  assert (["total"] ++ (if p_private p then ["private"] else [])
          ++ (if negb (bool_decide (p_tag_list p = [])) then ["tagged"] else [])
          ++ (if bool_decide (p_citation_list p = []) then ["uncited"] else [])
          ++ birth_bumps events p ++ death_bumps events p
          = bumps events p) as ->.
  { unfold bumps. by destruct (bool_decide (p_tag_list p = [])). }
  unfold count_person, count_media, count_if, names_of. fold g0.
  destruct (p_media_list p) as [|m ms] eqn:Em;
    destruct (p_person_ref_list p) as [|r rs] eqn:Er;
    destruct (p_event_ref_list p) as [|e es] eqn:Ee;
    cbn -[tally how_many Z.add Z.of_nat sum bumps fmap];
    rewrite ?how_many_nil; repeat f_equal; lia.
Qed.

Lemma sum_app l1 l2 : sum (l1 ++ l2) = (sum l1 + sum l2)%Z.
Proof. unfold sum. induction l1 as [|x l1 IH]; simpl; lia. Qed.

Lemma count_person_ok events gender_stats p :
  gender_stats_ok gender_stats ->
  gender_stats_ok (count_person events gender_stats p).
Proof.
  intros Hok gender stats. unfold count_person.
  rewrite PyMap_get_set. case_decide as Hg; [|by apply Hok].
  intros [= <-] key Hkey. apply (tally_is_Some (bumps events p)).
  destruct (PyMap.get (p_gender p) gender_stats) as [d|] eqn:E.
  - exact (Hok (p_gender p) d E key Hkey).
  - change (is_Some (PyMap.get key People.new_gender_stats)).
    by apply PyMap_elem_of_keys.
Qed.

(** The loop of [examine_people] on people whose references are handles
    of the tree: the local variables at its end, from their values
    [acc] at its start. *)
Lemma people_loop_run events ps : forall acc,
  gender_stats_ok (People.gender_stats acc) ->
  Forall (refs_resolve events) ps ->
  exists acc',
    for_each (People.step events) ps acc = Some acc' /\
    People.gender_stats acc'
    = foldl (count_person events) (People.gender_stats acc) ps /\
    People.media acc'
    = (People.media acc + how_many (fun p => p_media_list p <> []) ps)%Z /\
    People.media_refs acc'
    = (People.media_refs acc + Z.of_nat (length (ps ≫= p_media_list)))%Z /\
    People.incomplete_names acc'
    = (People.incomplete_names acc
       + sum (incomplete <$> (ps ≫= names_of)))%Z /\
    People.no_families acc'
    = (People.no_families acc
       + how_many (fun p => p_parent_family_list p = []
                            /\ p_family_list p = []) ps)%Z /\
    People.association_roles acc'
    = tally (pr_rel <$> (ps ≫= p_person_ref_list))
        (People.association_roles acc) /\
    People.association acc'
    = (People.association acc
       + how_many (fun p => p_person_ref_list p <> []) ps)%Z /\
    People.association_refs acc'
    = (People.association_refs acc
       + Z.of_nat (length (ps ≫= p_person_ref_list)))%Z /\
    People.association_private acc'
    = (People.association_private acc
       + how_many (fun r => pr_private r = true) (ps ≫= p_person_ref_list))%Z /\
    People.association_uncited acc'
    = (People.association_uncited acc
       + how_many (fun r => pr_citation_list r = [])
           (ps ≫= p_person_ref_list))%Z /\
    People.participant_roles acc'
    = tally (er_role <$> (ps ≫= p_event_ref_list))
        (People.participant_roles acc) /\
    People.participant acc'
    = (People.participant acc
       + how_many (fun p => p_event_ref_list p <> []) ps)%Z /\
    People.participant_refs acc'
    = (People.participant_refs acc
       + Z.of_nat (length (ps ≫= p_event_ref_list)))%Z /\
    People.participant_private acc'
    = (People.participant_private acc
       + how_many (fun r => er_private r = true) (ps ≫= p_event_ref_list))%Z.
Proof.
  induction ps as [|p ps IH]; intros acc Hok Hres.
  - exists acc. simpl. rewrite !how_many_nil. unfold sum. simpl.
    repeat split; try done; lia.
  - apply Forall_cons in Hres as [Hp Hres].
    destruct (people_step_run events acc p Hok Hp) as [lc Hstep].
    cbn [for_each]. rewrite Hstep. cbn [mbind option_bind].
    match goal with
    | |- context [for_each (People.step events) ps ?a] =>
        destruct (IH a)
          as (acc' & Hrun & H0 & H1 & H2 & H3 & H4 & H5 & H6 & H7 & H8 & H9
              & H10 & H11 & H12 & H13);
          [by apply count_person_ok|exact Hres|]
    end.
    exists acc'. split; [exact Hrun|].
    cbn in H0, H1, H2, H3, H4, H5, H6, H7, H8, H9, H10, H11, H12, H13.
    rewrite H0, H1, H2, H3, H4, H5, H6, H7, H8, H9, H10, H11, H12, H13.
    rewrite !bind_cons, !fmap_app, !tally_app, !length_app, !how_many_app.
    repeat split; try done; try lia.
    + apply count_if_how_many.
      by rewrite negb_true_iff, bool_decide_eq_false.
    + rewrite sum_app. unfold names_of. rewrite fmap_cons.
      unfold sum. cbn [foldr]. lia.
    + apply count_if_how_many.
      rewrite andb_true_iff, !bool_decide_eq_true. done.
    + apply count_if_how_many.
      by rewrite negb_true_iff, bool_decide_eq_false.
    + apply count_if_how_many.
      by rewrite negb_true_iff, bool_decide_eq_false.
Qed.

(** A person adds to a key of the statistics at most once. *)
Ltac elem_of_list :=
  simpl; rewrite ?elem_of_cons, ?elem_of_nil; tauto.

(** [H1] and [H2] put one key in two lists of strings that have no
    string in common. *)
Ltac apart H1 H2 :=
  repeat (apply elem_of_cons in H1 as [->|H1]);
  try (by apply elem_of_nil in H1);
  apply (bool_decide_pack _) in H2; vm_compute in H2; destruct H2.

Lemma birth_bumps_incl events p key :
  key ∈ birth_bumps events p ->
  key ∈ ["births_missing"; "births_missing_date"; "births_missing_place";
         "births_uncited"; "births_private"].
Proof.
  unfold birth_bumps.
  destruct (p_birth_ref p) as [ref|]; [|elem_of_list].
  destruct (events ref) as [birth|]; [|elem_of_list].
  destruct (bool_decide (le_date birth = "")), (truth (le_place birth)),
    (bool_decide (le_citation_list birth = [])), (le_private birth);
    elem_of_list.
Qed.

Lemma death_bumps_incl events p key :
  key ∈ death_bumps events p ->
  key ∈ ["deaths_missing"; "deaths_missing_date"; "deaths_missing_place";
         "deaths_uncited"; "deaths_private"; "living"; "living_not_private"].
Proof.
  unfold death_bumps.
  destruct (p_death_ref p) as [ref|].
  - destruct (events ref) as [death|]; [|elem_of_list].
    destruct (bool_decide (le_date death = "")), (truth (le_place death)),
      (bool_decide (le_citation_list death = [])), (le_private death);
      elem_of_list.
  - destruct (p_probably_alive p), (p_private p); elem_of_list.
Qed.

Lemma head_bumps_incl p key :
  key ∈ ["total"] ++ (if p_private p then ["private"] else [])
    ++ (if bool_decide (p_tag_list p = []) then [] else ["tagged"])
    ++ (if bool_decide (p_citation_list p = []) then ["uncited"] else []) ->
  key ∈ ["total"; "private"; "tagged"; "uncited"].
Proof.
  destruct (p_private p), (bool_decide (p_tag_list p = [])),
    (bool_decide (p_citation_list p = [])); elem_of_list.
Qed.

Lemma birth_bumps_NoDup events p : NoDup (birth_bumps events p).
Proof.
  unfold birth_bumps.
  destruct (p_birth_ref p) as [ref|]; [|apply NoDup_singleton].
  destruct (events ref) as [birth|]; [|apply NoDup_nil_2].
  destruct (bool_decide (le_date birth = "")), (truth (le_place birth)),
    (bool_decide (le_citation_list birth = [])), (le_private birth);
    simpl; by apply (bool_decide_unpack _).
Qed.

Lemma death_bumps_NoDup events p : NoDup (death_bumps events p).
Proof.
  unfold death_bumps.
  destruct (p_death_ref p) as [ref|].
  - destruct (events ref) as [death|]; [|apply NoDup_nil_2].
    destruct (bool_decide (le_date death = "")), (truth (le_place death)),
      (bool_decide (le_citation_list death = [])), (le_private death);
      simpl; by apply (bool_decide_unpack _).
  - destruct (p_probably_alive p), (p_private p);
      simpl; by apply (bool_decide_unpack _).
Qed.

Lemma bumps_NoDup events p : NoDup (bumps events p).
Proof.
  assert (bumps events p
          = (["total"] ++ (if p_private p then ["private"] else [])
             ++ (if bool_decide (p_tag_list p = []) then [] else ["tagged"])
             ++ (if bool_decide (p_citation_list p = [])
                 then ["uncited"] else []))
            ++ birth_bumps events p ++ death_bumps events p) as ->.
  { unfold bumps. by rewrite <- !app_assoc. }
  apply NoDup_app. split; [|split].
  - destruct (p_private p), (bool_decide (p_tag_list p = [])),
      (bool_decide (p_citation_list p = [])); simpl;
      by apply (bool_decide_unpack _).
  - intros key Hk Hbd. apply head_bumps_incl in Hk.
    apply elem_of_app in Hbd as [Hb|Hd].
    + apply birth_bumps_incl in Hb. apart Hk Hb.
    + apply death_bumps_incl in Hd. apart Hk Hd.
  - apply NoDup_app. split; [apply birth_bumps_NoDup|].
    split; [|apply death_bumps_NoDup].
    intros key Hb Hd. apply birth_bumps_incl in Hb.
    apply death_bumps_incl in Hd. apart Hb Hd.
Qed.

Lemma how_many_bind_NoDup {A K} `{EqDecision K} (f : A -> list K) (k : K)
    (l : list A) :
  (forall x, NoDup (f x)) ->
  how_many (fun k' => k' = k) (l ≫= f) = how_many (fun x => k ∈ f x) l.
Proof.
  intros Hnd. induction l as [|x l IH]; [done|].
  rewrite bind_cons, how_many_app, how_many_cons, IH. f_equal.
  specialize (Hnd x). clear -Hnd. induction (f x) as [|y ys IHy].
  - rewrite how_many_nil. by rewrite decide_False by apply not_elem_of_nil.
  - apply NoDup_cons in Hnd as [Hy Hnd]. rewrite how_many_cons, IHy by done.
    destruct (decide (y = k)) as [->|Hne].
    + rewrite (decide_True (P := k ∈ k :: ys)) by (by left).
      by rewrite decide_False.
    + destruct (decide (k ∈ ys)) as [Hin|Hin].
      * by rewrite (decide_True (P := k ∈ y :: ys)) by (by right).
      * rewrite (decide_False (P := k ∈ y :: ys)); [done|].
        intros [?|?]%elem_of_cons; congruence.
Qed.

Lemma how_many_filter {A} (P Q : A -> Prop) `{forall x, Decision (P x)}
    `{forall x, Decision (Q x)} (l : list A) :
  how_many P (filter Q l) = how_many (fun x => Q x /\ P x) l.
Proof.
  induction l as [|x l IH]; [done|].
  rewrite filter_cons. destruct (decide (Q x)) as [HQ|HQ].
  - rewrite !how_many_cons, IH.
    destruct (decide (P x)); case_decide; try done; try lia; tauto.
  - rewrite !how_many_cons, IH. case_decide; [tauto|lia].
Qed.

(** The statistics of a gender at the end of the loop, from those at
    its start. *)
Lemma gender_stats_get events g ps : forall gender_stats,
  PyMap.get g (foldl (count_person events) gender_stats ps)
  = match PyMap.get g gender_stats with
    | Some stats =>
        Some (tally (filter (fun p => p_gender p = g) ps ≫= bumps events) stats)
    | None =>
        if decide (g ∈ p_gender <$> ps)
        then Some (tally (filter (fun p => p_gender p = g) ps ≫= bumps events)
                     People.new_gender_stats)
        else None
    end.
Proof.
  induction ps as [|p ps IH]; intros gs.
  - simpl. by destruct (PyMap.get g gs).
  - cbn [foldl]. rewrite IH. unfold count_person.
    rewrite PyMap_get_set, filter_cons, fmap_cons.
    destruct (decide (g = p_gender p)) as [->|Hne].
    + rewrite (decide_True (P := p_gender p = p_gender p)) by done.
      rewrite bind_cons.
      destruct (PyMap.get (p_gender p) gs); [by rewrite tally_app|].
      rewrite decide_True by (by left). by rewrite tally_app.
    + rewrite (decide_False (P := p_gender p = g)) by congruence.
      destruct (PyMap.get g gs); [done|].
      destruct (decide (g ∈ p_gender <$> ps)) as [Hin|Hin].
      * by rewrite decide_True by (by right).
      * rewrite decide_False; [done|]. by intros [?|?]%elem_of_cons.
Qed.

Lemma new_gender_stats_get key :
  key ∈ gender_keys -> PyMap.get key People.new_gender_stats = Some 0%Z.
Proof.
  intros Hkey. apply gender_keys_elem in Hkey.
  repeat (apply elem_of_cons in Hkey as [->|Hkey]; [done|]).
  by apply elem_of_nil in Hkey.
Qed.

(** The value of a key of the statistics of the gender [g] at the end
    of the loop of [examine_people]: the number of people of that gender
    who add to the key. *)
Lemma people_gender_value events ps acc g stats key :
  Forall (refs_resolve events) ps ->
  People.loop events ps = Some acc ->
  PyMap.get g (People.gender_stats acc) = Some stats ->
  key ∈ gender_keys ->
  PyMap.get key stats
  = Some (how_many (fun p => p_gender p = g /\ key ∈ bumps events p) ps).
Proof.
  intros Hres Hrun Hg Hkey.
  destruct (people_loop_run events ps People.acc0) as (acc' & Hrun' & H0 & _);
    [by intros g0 d [=]|exact Hres|].
  unfold People.loop in Hrun. rewrite Hrun in Hrun'. injection Hrun' as <-.
  rewrite H0, gender_stats_get in Hg. simpl in Hg.
  case_decide; [|done]. injection Hg as <-.
  rewrite tally_get, new_gender_stats_get by done.
  rewrite <- how_many_filter.
  rewrite <- (how_many_bind_NoDup (bumps events) key _ (bumps_NoDup events)).
  case_decide as Hin; simpl; [done|].
  unfold how_many. rewrite filter_none; [done|].
  apply Forall_forall. intros k Hk ->. done.
Qed.

Lemma refs_resolve_dec events p :
  refs_resolve events p \/ ~ refs_resolve events p.
Proof.
  unfold refs_resolve.
  destruct (p_birth_ref p) as [b|], (p_death_ref p) as [d|];
    try destruct (events b) as [eb|] eqn:Eb;
    try destruct (events d) as [ed|] eqn:Ed;
    try (left; split; intros ref [= <-]; rewrite ?Eb, ?Ed; by eexists);
    try (left; split; intros ref; done);
    right; intros [H1 H2];
    try (destruct (H1 b eq_refl) as [? H]; congruence);
    try (destruct (H2 d eq_refl) as [? H]; congruence).
Qed.

(** One turn of the loop on a person one of whose references is not a
    handle of the tree raises. *)
Lemma people_step_dangling events acc p :
  gender_stats_ok (People.gender_stats acc) ->
  ~ refs_resolve events p ->
  People.step events acc p = None.
Proof.
  intros Hok Hres. unfold People.step.
  destruct (count_media _ _ _) as [media' media_refs'].
  rewrite get_gender_stats_run.
  set (g0 := default People.new_gender_stats
               (PyMap.get (p_gender p) (People.gender_stats acc))).
  assert (forall key, key ∈ gender_keys -> is_Some (PyMap.get key g0)) as Hg0.
  { subst g0. destruct (PyMap.get (p_gender p) (People.gender_stats acc))
      as [stats|] eqn:E.
    - by apply (Hok (p_gender p)).
    - intros key Hkey.
      change (is_Some (PyMap.get key People.new_gender_stats)).
      apply PyMap_elem_of_keys. exact Hkey. }
  cbn [mbind option_bind].
  rewrite incr_run by (apply Hg0, gender_keys_elem; set_solver).
  cbn [mbind option_bind].
  rewrite incr_if_run by gender_key. cbn [mbind option_bind].
  rewrite incr_if_run by (apply tally_is_Some; gender_key).
  cbn [mbind option_bind].
  rewrite incr_if_run by (do 2 apply tally_is_Some; gender_key).
  cbn [mbind option_bind].
  destruct (p_birth_ref p) as [b|] eqn:Eb.
  - destruct (events b) as [eb|] eqn:Eeb.
    + rewrite birth_step_run;
        [|intros key Hkey; do 4 apply tally_is_Some; by apply Hg0
         |intros ref; rewrite Eb; intros [= <-]; rewrite Eeb; by eexists].
      cbn [mbind option_bind].
      destruct (p_death_ref p) as [d|] eqn:Ed.
      * destruct (events d) as [ed|] eqn:Eed.
        -- exfalso. apply Hres. split; intros ref; rewrite ?Eb, ?Ed;
             intros [= <-]; rewrite ?Eeb, ?Eed; by eexists.
        -- unfold People.death_step. by rewrite Ed, Eed.
      * exfalso. apply Hres. split; intros ref; rewrite ?Eb, ?Ed; [|done].
        intros [= <-]. rewrite Eeb. by eexists.
    + unfold People.birth_step. by rewrite Eb, Eeb.
  - rewrite birth_step_run;
      [|intros key Hkey; do 4 apply tally_is_Some; by apply Hg0
       |intros ref; by rewrite Eb].
    cbn [mbind option_bind].
    destruct (p_death_ref p) as [d|] eqn:Ed.
    + destruct (events d) as [ed|] eqn:Eed.
      * exfalso. apply Hres. split; intros ref; rewrite ?Eb, ?Ed; [done|].
        intros [= <-]. rewrite Eed. by eexists.
      * unfold People.death_step. by rewrite Ed, Eed.
    + exfalso. apply Hres. split; intros ref; by rewrite ?Eb, ?Ed.
Qed.

Lemma people_loop_raises events ps : forall acc,
  gender_stats_ok (People.gender_stats acc) ->
  for_each (People.step events) ps acc = None
  <-> Exists (fun p => ~ refs_resolve events p) ps.
Proof.
  induction ps as [|p ps IH]; intros acc Hok.
  - simpl. split; [done|]. by intros ?%Exists_nil.
  - cbn [for_each]. rewrite Exists_cons.
    destruct (refs_resolve_dec events p) as [Hp|Hp].
    + destruct (people_step_run events acc p Hok Hp) as [lc ->].
      cbn [mbind option_bind]. rewrite IH by (by apply count_person_ok).
      split; [by right|]. by intros [?|?].
    + rewrite people_step_dangling by done. split; [by left|done].
Qed.

(** Which people add to which key. *)
Lemma bumps_elem events p key :
  key ∈ bumps events p <->
  key ∈ ["total"] ++ (if p_private p then ["private"] else [])
    ++ (if bool_decide (p_tag_list p = []) then [] else ["tagged"])
    ++ (if bool_decide (p_citation_list p = []) then ["uncited"] else [])
  \/ key ∈ birth_bumps events p \/ key ∈ death_bumps events p.
Proof. unfold bumps. rewrite !elem_of_app. tauto. Qed.

Ltac key_in := apply (bool_decide_unpack _); by vm_compute.
Ltac key_out H := apply (bool_decide_pack _) in H; vm_compute in H; destruct H.

Lemma bumps_head_key events p key :
  key ∈ ["total"; "private"; "tagged"; "uncited"] ->
  key ∈ bumps events p <->
  key ∈ ["total"] ++ (if p_private p then ["private"] else [])
    ++ (if bool_decide (p_tag_list p = []) then [] else ["tagged"])
    ++ (if bool_decide (p_citation_list p = []) then ["uncited"] else []).
Proof.
  intros Hkey. rewrite bumps_elem. split; [|by auto].
  intros [H|[H|H]]; [done| |].
  - apply birth_bumps_incl in H. apart Hkey H.
  - apply death_bumps_incl in H. apart Hkey H.
Qed.

Lemma bumps_birth_key events p key :
  key ∈ ["births_missing"; "births_missing_date"; "births_missing_place";
         "births_uncited"; "births_private"] ->
  key ∈ bumps events p <-> key ∈ birth_bumps events p.
Proof.
  intros Hkey. rewrite bumps_elem. split; [|by auto].
  intros [H|[H|H]]; [|done|].
  - apply head_bumps_incl in H. apart Hkey H.
  - apply death_bumps_incl in H. apart Hkey H.
Qed.

Lemma bumps_death_key events p key :
  key ∈ ["deaths_missing"; "deaths_missing_date"; "deaths_missing_place";
         "deaths_uncited"; "deaths_private"; "living"; "living_not_private"] ->
  key ∈ bumps events p <-> key ∈ death_bumps events p.
Proof.
  intros Hkey. rewrite bumps_elem. split; [|by auto].
  intros [H|[H|H]]; [| |done].
  - apply head_bumps_incl in H. apart Hkey H.
  - apply birth_bumps_incl in H. apart Hkey H.
Qed.

Lemma tally_keys {K} `{EqDecision K} (ks : list K) : forall d : histogram K,
  (forall k, k ∈ ks -> k ∈ d.*1) -> (tally ks d).*1 = d.*1.
Proof.
  induction ks as [|k ks IH]; intros d Hks; [done|].
  assert ((PyMap.set k (default 0 (PyMap.get k d) + 1)%Z d).*1 = d.*1) as Hset.
  { rewrite PyMap_keys_set. unfold PyMap.mem.
    assert (is_Some (PyMap.get k d)) as [n ->]; [|done].
    apply PyMap_elem_of_keys, Hks. by left. }
  rewrite tally_cons, IH, Hset; [done|].
  intros k' Hk'. rewrite Hset. apply Hks. by right.
Qed.

Lemma bumps_incl events p key : key ∈ bumps events p -> key ∈ gender_keys.
Proof.
  rewrite bumps_elem, gender_keys_elem. intros [H|[H|H]].
  - apply head_bumps_incl in H. revert H. elem_of_list.
  - apply birth_bumps_incl in H. revert H. elem_of_list.
  - apply death_bumps_incl in H. revert H. elem_of_list.
Qed.

Ltac bump_cases :=
  split; intros H; try done; try (by key_in); try (by key_out H);
  try (by destruct H as [? ?]).

(** X20: the loop of [examine_people] raises exactly when some person
    has a birth or a death reference whose handle
    [get_event_from_handle] does not resolve; nothing else in the loop
    can fail. *)
Theorem examine_people_raises_iff events ps :
  People.loop events ps = None
  <-> Exists (fun p => ~ refs_resolve events p) ps.
Proof.
  unfold People.loop. apply (people_loop_raises events ps People.acc0).
  by intros g d [=].
Qed.

(** X21: when the birth and death references of the people resolve, the
    loop of [examine_people] ends with statistics for exactly the
    genders that occur among the people; the statistics of a gender have
    the sixteen keys of [get_gender_stats] in their order, and for that
    gender ["total"] is the number of its people, ["private"],
    ["tagged"] and ["uncited"] the numbers of those marked private,
    with a tag and without a citation, ["births_missing"] and
    ["deaths_missing"] the numbers of those without a birth and without
    a death reference, ["living"] the number of those without a death
    reference who are probably alive, and ["living_not_private"] the
    number of the latter who are not marked private. *)
Theorem examine_people_counts_by_gender events ps :
  Forall (refs_resolve events) ps ->
  exists acc,
    People.loop events ps = Some acc /\
    (forall g, is_Some (PyMap.get g (People.gender_stats acc))
               <-> g ∈ p_gender <$> ps) /\
    forall g stats, PyMap.get g (People.gender_stats acc) = Some stats ->
      stats.*1 = gender_keys /\
      PyMap.get "total" stats = Some (how_many (fun p => p_gender p = g) ps) /\
      PyMap.get "private" stats
      = Some (how_many (fun p => p_gender p = g /\ p_private p = true) ps) /\
      PyMap.get "tagged" stats
      = Some (how_many (fun p => p_gender p = g /\ p_tag_list p <> []) ps) /\
      PyMap.get "uncited" stats
      = Some (how_many (fun p => p_gender p = g /\ p_citation_list p = [])
                ps) /\
      PyMap.get "births_missing" stats
      = Some (how_many (fun p => p_gender p = g /\ p_birth_ref p = None) ps) /\
      PyMap.get "deaths_missing" stats
      = Some (how_many (fun p => p_gender p = g /\ p_death_ref p = None) ps) /\
      PyMap.get "living" stats
      = Some (how_many (fun p => p_gender p = g /\ p_death_ref p = None
                                 /\ p_probably_alive p = true) ps) /\
      PyMap.get "living_not_private" stats
      = Some (how_many (fun p => p_gender p = g /\ p_death_ref p = None
                                 /\ p_probably_alive p = true
                                 /\ p_private p = false) ps).
Proof.
  intros Hres.
  destruct (people_loop_run events ps People.acc0) as (acc & Hrun & H0 & _);
    [by intros g0 d [=]|exact Hres|].
  exists acc. split; [exact Hrun|]. split.
  { intros g. rewrite H0, gender_stats_get. simpl.
    case_decide; [by split; [|eauto]|]. split; [by intros [? ?]|done]. }
  intros g stats Hg. split.
  { rewrite H0, gender_stats_get in Hg. simpl in Hg.
    case_decide; [|done]. injection Hg as <-. apply tally_keys.
    intros k Hk. apply list_elem_of_bind in Hk as (p & Hk & _).
    by apply bumps_incl in Hk. }
  pose proof (fun key Hkey =>
                people_gender_value events ps acc g stats key Hres Hrun Hg
                  (proj2 (gender_keys_elem key) Hkey)) as Hval.
  repeat split.
  - rewrite Hval by key_in. f_equal. apply how_many_ext. intros p.
    split; [by intros [? _]|]. intros Hg'. split; [done|].
    apply bumps_elem. left. by left.
  - rewrite Hval by key_in. f_equal. apply how_many_ext. intros p.
    rewrite bumps_head_key by key_in. apply and_iff_compat_l.
    destruct (p_private p), (bool_decide (p_tag_list p = [])),
      (bool_decide (p_citation_list p = [])); bump_cases.
  - rewrite Hval by key_in. f_equal. apply how_many_ext. intros p.
    rewrite bumps_head_key by key_in. apply and_iff_compat_l.
    destruct (p_private p); case_bool_decide as Ht;
      destruct (bool_decide (p_citation_list p = [])); bump_cases.
  - rewrite Hval by key_in. f_equal. apply how_many_ext. intros p.
    rewrite bumps_head_key by key_in. apply and_iff_compat_l.
    destruct (p_private p), (bool_decide (p_tag_list p = []));
      case_bool_decide as Hc; bump_cases.
  - rewrite Hval by key_in. f_equal. apply how_many_ext. intros p.
    rewrite bumps_birth_key by key_in. unfold birth_bumps.
    apply and_iff_compat_l.
    destruct (p_birth_ref p) as [ref|]; [|by split; [|intros; left]].
    destruct (events ref) as [birth|]; [|bump_cases].
    destruct (bool_decide (le_date birth = "")), (truth (le_place birth)),
      (bool_decide (le_citation_list birth = [])), (le_private birth);
      bump_cases.
  - rewrite Hval by key_in. f_equal. apply how_many_ext. intros p.
    rewrite bumps_death_key by key_in. unfold death_bumps.
    apply and_iff_compat_l.
    destruct (p_death_ref p) as [ref|]; [|by split; [|intros; left]].
    destruct (events ref) as [death|]; [|bump_cases].
    destruct (bool_decide (le_date death = "")), (truth (le_place death)),
      (bool_decide (le_citation_list death = [])), (le_private death);
      bump_cases.
  - rewrite Hval by key_in. f_equal. apply how_many_ext. intros p.
    rewrite bumps_death_key by key_in. unfold death_bumps.
    apply and_iff_compat_l.
    destruct (p_death_ref p) as [ref|].
    + destruct (events ref) as [death|]; [|bump_cases].
      destruct (bool_decide (le_date death = "")), (truth (le_place death)),
        (bool_decide (le_citation_list death = [])), (le_private death);
        bump_cases.
    + destruct (p_probably_alive p), (p_private p); bump_cases.
  - rewrite Hval by key_in. f_equal. apply how_many_ext. intros p.
    rewrite bumps_death_key by key_in. unfold death_bumps.
    apply and_iff_compat_l.
    destruct (p_death_ref p) as [ref|].
    + destruct (events ref) as [death|]; [|bump_cases].
      destruct (bool_decide (le_date death = "")), (truth (le_place death)),
        (bool_decide (le_citation_list death = [])), (le_private death);
        bump_cases.
    + destruct (p_probably_alive p), (p_private p); bump_cases;
        by destruct H as (? & ? & ?).
Qed.

Ltac life_event_key lem events :=
  let p := fresh "p" in
  let ref := fresh "ref" in
  let event := fresh "event" in
  f_equal; apply how_many_ext; intros p;
  rewrite lem by key_in; unfold birth_bumps, death_bumps, event_has;
  apply and_iff_compat_l;
  match goal with
  | |- context [p_birth_ref p] => destruct (p_birth_ref p) as [ref|]
  | |- context [p_death_ref p] => destruct (p_death_ref p) as [ref|]
  end;
  [ cbn [mbind option_bind]; destruct (events ref) as [event|];
    [ destruct (bool_decide (le_date event = "")), (truth (le_place event)),
        (bool_decide (le_citation_list event = [])), (le_private event);
      bump_cases
    | bump_cases ]
  | cbn [mbind option_bind];
    try destruct (p_probably_alive p); try destruct (p_private p);
    bump_cases ].

(** X22: when the birth and death references of the people resolve, the
    four statistics of a gender on births count the people of that
    gender who have a birth reference and whose birth event has an empty
    date, has no place, has no citation, is marked private; the four
    statistics on deaths count the same for the death event.  A person
    without the reference is counted by none of the four. *)
Theorem examine_people_counts_life_events events ps :
  Forall (refs_resolve events) ps ->
  exists acc,
    People.loop events ps = Some acc /\
    forall g stats, PyMap.get g (People.gender_stats acc) = Some stats ->
      let births test :=
        Some (how_many (fun p => p_gender p = g
                                 /\ event_has events (p_birth_ref p) test
                                    = true) ps) in
      let deaths test :=
        Some (how_many (fun p => p_gender p = g
                                 /\ event_has events (p_death_ref p) test
                                    = true) ps) in
      PyMap.get "births_missing_date" stats
      = births (fun e => bool_decide (le_date e = "")) /\
      PyMap.get "births_missing_place" stats
      = births (fun e => negb (truth (le_place e))) /\
      PyMap.get "births_uncited" stats
      = births (fun e => bool_decide (le_citation_list e = [])) /\
      PyMap.get "births_private" stats = births le_private /\
      PyMap.get "deaths_missing_date" stats
      = deaths (fun e => bool_decide (le_date e = "")) /\
      PyMap.get "deaths_missing_place" stats
      = deaths (fun e => negb (truth (le_place e))) /\
      PyMap.get "deaths_uncited" stats
      = deaths (fun e => bool_decide (le_citation_list e = [])) /\
      PyMap.get "deaths_private" stats = deaths le_private.
Proof.
  intros Hres.
  destruct (people_loop_run events ps People.acc0) as (acc & Hrun & H0 & _);
    [by intros g0 d [=]|exact Hres|].
  exists acc. split; [exact Hrun|].
  intros g stats Hg births deaths. subst births deaths. cbv beta.
  pose proof (fun key Hkey =>
                people_gender_value events ps acc g stats key Hres Hrun Hg
                  (proj2 (gender_keys_elem key) Hkey)) as Hval.
  repeat split; rewrite Hval by key_in.
  - life_event_key bumps_birth_key events.
  - life_event_key bumps_birth_key events.
  - life_event_key bumps_birth_key events.
  - life_event_key bumps_birth_key events.
  - life_event_key bumps_death_key events.
  - life_event_key bumps_death_key events.
  - life_event_key bumps_death_key events.
  - life_event_key bumps_death_key events.
Qed.

(** X23: when the birth and death references of the people resolve, the
    loop of [examine_people] ends with: [incomplete_names] the sum over
    all names (primary and alternate) of one for a blank first name,
    else one for a name without surnames, else the number of its blank
    surnames; [no_families] the number of people who are in no family
    as a child or as a parent; [association] the number of people with a
    person reference, [association_refs] the number of person
    references, [association_roles] the histogram of their relations,
    whose values add up to [association_refs], [association_private]
    and [association_uncited] the numbers of person references marked
    private and without a citation; the same for [participant] and the
    event references; [media] the number of people with a media
    reference and [media_refs] the number of media references. *)
Theorem examine_people_counts_references events ps :
  Forall (refs_resolve events) ps ->
  exists acc,
    People.loop events ps = Some acc /\
    People.incomplete_names acc = sum (incomplete <$> (ps ≫= names_of)) /\
    People.no_families acc
    = how_many (fun p => p_parent_family_list p = [] /\ p_family_list p = [])
        ps /\
    People.association acc = how_many (fun p => p_person_ref_list p <> []) ps /\
    People.association_refs acc
    = Z.of_nat (length (ps ≫= p_person_ref_list)) /\
    (forall rel, PyMap.get rel (People.association_roles acc)
                 = if decide (rel ∈ pr_rel <$> (ps ≫= p_person_ref_list))
                   then Some (how_many (fun r => pr_rel r = rel)
                                (ps ≫= p_person_ref_list))
                   else None) /\
    histogram_total (People.association_roles acc)
    = People.association_refs acc /\
    People.association_private acc
    = how_many (fun r => pr_private r = true) (ps ≫= p_person_ref_list) /\
    People.association_uncited acc
    = how_many (fun r => pr_citation_list r = []) (ps ≫= p_person_ref_list) /\
    People.participant acc = how_many (fun p => p_event_ref_list p <> []) ps /\
    People.participant_refs acc
    = Z.of_nat (length (ps ≫= p_event_ref_list)) /\
    (forall role, PyMap.get role (People.participant_roles acc)
                  = if decide (role ∈ er_role <$> (ps ≫= p_event_ref_list))
                    then Some (how_many (fun r => er_role r = role)
                                 (ps ≫= p_event_ref_list))
                    else None) /\
    histogram_total (People.participant_roles acc)
    = People.participant_refs acc /\
    People.participant_private acc
    = how_many (fun r => er_private r = true) (ps ≫= p_event_ref_list) /\
    People.media acc = how_many (fun p => p_media_list p <> []) ps /\
    People.media_refs acc = Z.of_nat (length (ps ≫= p_media_list)).
Proof.
  intros Hres.
  destruct (people_loop_run events ps People.acc0)
    as (acc & Hrun & _ & H1 & H2 & H3 & H4 & H5 & H6 & H7 & H8 & H9 & H10
        & H11 & H12 & H13);
    [by intros g0 d [=]|exact Hres|].
  exists acc. split; [exact Hrun|]. simpl in *.
  rewrite H1, H2, H3, H4, H5, H6, H7, H8, H9, H10, H11, H12, H13.
  rewrite !tally_total, !length_fmap.
  unfold histogram_total, sum. simpl.
  repeat split; try lia.
  - intros rel. apply tally_get_from_empty.
  - intros role. apply tally_get_from_empty.
Qed.

Lemma append_nil s : "" +:+ s = s.
Proof. done. Qed.

Lemma append_cons a s t : String a s +:+ t = String a (s +:+ t).
Proof. done. Qed.

Lemma all_chars_mono (P Q : Ascii.ascii -> bool) s :
  (forall a, P a = true -> Q a = true) ->
  all_chars P s = true -> all_chars Q s = true.
Proof.
  intros HPQ. induction s as [|a s IH]; simpl; [done|].
  rewrite !andb_true_iff. intros [Ha Hs]. auto.
Qed.

Lemma all_chars_app P s1 s2 :
  all_chars P (s1 +:+ s2) = all_chars P s1 && all_chars P s2.
Proof.
  induction s1 as [|a s1 IH]; [done|].
  rewrite append_cons. simpl. by rewrite IH, andb_assoc.
Qed.

Lemma pretty_N_go_chars P x : forall s,
  (forall n, P (pretty_N_char n) = true) ->
  all_chars P s = true -> all_chars P (pretty_N_go x s) = true.
Proof.
  induction (N.lt_wf_0 x) as [x _ IH]; intros s HP Hs.
  assert (x = 0 \/ 0 < x)%N as [->|Hx] by lia.
  - by rewrite pretty_N_go_0.
  - rewrite pretty_N_go_step by done. apply IH; [by apply N.div_lt|done|].
    simpl. by rewrite HP, Hs.
Qed.

Lemma digit_or_dash_char n : digit_or_dash (pretty_N_char n) = true.
Proof. unfold pretty_N_char. by repeat case_match. Qed.

Lemma pretty_N_chars (x : N) : all_chars digit_or_dash (pretty x) = true.
Proof.
  unfold pretty, pretty_N. case_decide; [done|].
  apply pretty_N_go_chars; [apply digit_or_dash_char|done].
Qed.

(** The numeral of an integer is made of digits and the sign. *)
Lemma pretty_Z_chars (x : Z) : all_chars digit_or_dash (pretty x) = true.
Proof.
  destruct x as [|p|p]; [done|apply (pretty_N_chars (Npos p))|].
  change (pretty (Z.neg p)) with ("-" +:+ pretty (Npos p)).
  rewrite all_chars_app, pretty_N_chars. done.
Qed.

Lemma digit_or_dash_is_not c a :
  digit_or_dash c = false -> digit_or_dash a = true -> is_not c a = true.
Proof.
  intros Hc Ha. unfold is_not. destruct (Ascii.eqb_spec a c) as [->|]; [|done].
  congruence.
Qed.

Lemma pretty_Z_without c (x : Z) :
  digit_or_dash c = false -> all_chars (is_not c) (pretty x) = true.
Proof.
  intros Hc. apply (all_chars_mono digit_or_dash); [|apply pretty_Z_chars].
  intros a. by apply digit_or_dash_is_not.
Qed.

(** Two strings that agree up to their first underscore and after
    it. *)
Lemma split_at_underscore b b' k k' :
  all_chars (is_not "_"%char) b = true -> all_chars (is_not "_"%char) b' = true ->
  (b +:+ "_") +:+ k = (b' +:+ "_") +:+ k' -> b = b' /\ k = k'.
Proof.
  revert b'. induction b as [|a b IH]; intros [|a' b'];
    repeat (rewrite append_cons || rewrite append_nil); simpl; rewrite ?andb_true_iff.
  - by intros _ _ [= ->].
  - intros _ [Ha _] [= <- _]. done.
  - intros [Ha _] _ [= -> _]. done.
  - intros [_ Hb] [_ Hb'] [= -> Heq].
    destruct (IH b' Hb Hb' Heq) as [-> ->]. done.
Qed.

Lemma gender_prefix_body g : gender_prefix g = gender_body g +:+ "_".
Proof. unfold gender_prefix, gender_body. by repeat case_bool_decide. Qed.

Lemma gender_body_plain g c :
  digit_or_dash c = false ->
  all_chars (is_not c) "malefemaleunknown" = true ->
  all_chars (is_not c) (gender_body g) = true.
Proof.
  intros Hc Hnames. unfold gender_body.
  repeat case_bool_decide; [| | |by apply pretty_Z_without];
    revert Hnames; unfold is_not; simpl; rewrite !andb_true_iff; tauto.
Qed.

Lemma pretty_not_name (g : Z) name :
  all_chars digit_or_dash name = false -> pretty g <> name.
Proof. intros Hname Heq. by rewrite <- Heq, pretty_Z_chars in Hname. Qed.

Lemma gender_body_inj g g' : gender_body g = gender_body g' -> g = g'.
Proof.
  unfold gender_body. repeat case_bool_decide; subst; intros E; try done;
    try (by apply pretty_not_name in E);
    try (symmetry in E; by apply pretty_not_name in E).
  by apply (inj pretty).
Qed.

(** A new key determines the gender and the key of the statistic. *)
Lemma new_key_inj g g' key key' :
  gender_prefix g +:+ key = gender_prefix g' +:+ key' -> g = g' /\ key = key'.
Proof.
  rewrite !gender_prefix_body. intros Heq.
  apply split_at_underscore in Heq as [Hg Hkey];
    [|by apply gender_body_plain..].
  split; [by apply gender_body_inj|done].
Qed.

Lemma for_each_app {S A} (body : S -> A -> option S) l1 l2 s :
  for_each body (l1 ++ l2) s = for_each body l1 s ≫= for_each body l2.
Proof.
  revert s. induction l1 as [|a l1 IH]; intros s; simpl; [done|].
  destruct (body s a) as [s'|]; simpl; [apply IH|done].
Qed.

Lemma for_each_fmap {S A B} (body : S -> B -> option S) (f : A -> B) l s :
  for_each body (f <$> l) s = for_each (fun s a => body s (f a)) l s.
Proof.
  revert s. induction l as [|a l IH]; intros s; simpl; [done|].
  destruct (body s (f a)) as [s'|]; simpl; [apply IH|done].
Qed.

Lemma find2_update (payload : Dict2) index section new_key v k sk :
  PyDict.get index payload = Some section ->
  find2 (PyDict.update index (PyDict.update new_key v section) payload) k sk
  = if decide (k = index /\ sk = new_key) then Some v else find2 payload k sk.
Proof.
  intros Hsection. unfold find2.
  destruct (decide (index = k)) as [<-|Hk].
  - rewrite PyDict_get_update_eq, Hsection. simpl.
    destruct (decide (new_key = sk)) as [<-|Hsk].
    + rewrite PyDict_get_update_eq. by rewrite decide_True.
    + rewrite PyDict_get_update_ne by done.
      rewrite decide_False; [done|]. by intros [_ ->].
  - rewrite PyDict_get_update_ne by done.
    rewrite decide_False; [done|]. by intros [-> _].
Qed.

Lemma route_entry_flat prefix payload (item : string * Z) :
  route_entry prefix payload item
  = route_entry "" payload (prefix +:+ item.1, item.2).
Proof. done. Qed.

(** The items entered under keys of their own: each is in its section,
    and nothing else of the payload has changed. *)
Lemma route_items_run (items : list (string * Z)) : forall payload : Dict2,
  NoDup items.*1 ->
  (forall index, index ∈ ["uncited"; "privacy"; "tag"; "person"] ->
                 is_Some (PyDict.get index payload)) ->
  exists payload',
    for_each (route_entry "") items payload = Some payload' /\
    payload'.*1 = payload.*1 /\
    (forall new_key value, (new_key, value) ∈ items ->
       find2 payload' (gender_index new_key) new_key = Some (VInt value)) /\
    (forall k sk, sk ∉ items.*1 -> find2 payload' k sk = find2 payload k sk) /\
    (forall k sk, k <> gender_index sk ->
                  find2 payload' k sk = find2 payload k sk).
Proof.
  induction items as [|[nk v] items IH]; intros payload Hnodup Hsections.
  - exists payload. repeat split; try done. by intros ? ? ?%elem_of_nil.
  - rewrite fmap_cons in Hnodup. apply NoDup_cons in Hnodup as [Hnk Hnodup].
    assert (is_Some (PyDict.get (gender_index nk) payload)) as [section Hs].
    { apply Hsections. unfold gender_index.
      repeat case_match; set_solver. }
    set (payload1 := PyDict.update (gender_index nk)
                       (PyDict.update nk (VInt v) section) payload).
    assert (route_entry "" payload (nk, v) = Some payload1) as Hstep.
    { unfold route_entry. rewrite append_nil. cbn [fst snd]. by rewrite Hs. }
    assert (forall k sk, find2 payload1 k sk
              = if decide (k = gender_index nk /\ sk = nk) then Some (VInt v)
                else find2 payload k sk) as H1
      by (intros; by apply find2_update).
    destruct (IH payload1 Hnodup) as (payload' & Hrun & Hkeys & Hin & Hout & Hother).
    { intros index Hindex. subst payload1.
      by apply PyDict_update_keeps, Hsections. }
    exists payload'. split; [cbn [for_each]; by rewrite Hstep|].
    split; [|split; [|split]].
    + rewrite Hkeys. subst payload1. clear -Hs.
      induction payload as [|[k0 v0] payload IHp]; [done|]. simpl in *.
      destruct (decide (gender_index nk = k0)) as [<-|Hne]; [done|].
      rewrite fmap_cons. f_equal. by apply IHp.
    + intros new_key value [[= -> ->]|Hitem]%elem_of_cons.
      * rewrite Hout by done. rewrite H1. by rewrite decide_True.
      * by apply Hin.
    + intros k sk Hsk. rewrite fmap_cons, not_elem_of_cons in Hsk.
      destruct Hsk as [Hne Hsk]. rewrite Hout by done. rewrite H1.
      rewrite decide_False; [done|]. by intros [_ ->].
    + intros k sk Hk. rewrite Hother by done. rewrite H1.
      rewrite decide_False; [done|]. by intros [-> ->].
Qed.

Lemma PyMap_get_elem_of {K V} `{EqDecision K} (k : K) (v : V) d :
  NoDup d.*1 -> (k, v) ∈ d -> PyMap.get k d = Some v.
Proof.
  induction d as [|[k0 v0] d IH]; [by intros _ ?%elem_of_nil|].
  rewrite fmap_cons. intros [Hk0 Hd]%NoDup_cons [[= -> ->]|Hin]%elem_of_cons;
    simpl.
  - by rewrite decide_True.
  - rewrite decide_False; [by apply IH|]. intros ->.
    apply Hk0. apply list_elem_of_fmap. by exists (k0, v).
Qed.

Lemma PyMap_get_Some_elem_of {K V} `{EqDecision K} (k : K) (v : V) d :
  PyMap.get k d = Some v -> (k, v) ∈ d.
Proof.
  induction d as [|[k0 v0] d IH]; simpl; [done|].
  destruct (decide (k = k0)) as [->|Hne].
  - intros [= ->]. by left.
  - intros H. right. by apply IH.
Qed.

(** The two loops of the routing visit the items of [new_items]. *)
Lemma route_gender_stats_flat gender_stats payload :
  NoDup gender_stats.*1 ->
  route_gender_stats gender_stats payload
  = for_each (route_entry "") (new_items gender_stats) payload.
Proof.
  intros Hnodup. unfold route_gender_stats, new_items.
  assert (forall rest payload,
            (forall g, g ∈ rest -> g ∈ gender_stats) ->
            for_each (fun payload gender =>
                        stats ← PyMap.get gender gender_stats;
                        for_each (route_entry (gender_prefix gender)) stats
                          payload) rest.*1 payload
            = for_each (route_entry "")
                (rest ≫= (fun g => (fun item : string * Z =>
                    (gender_prefix g.1 +:+ item.1, item.2)) <$> g.2)) payload)
    as Hgen; [|by apply Hgen].
  induction rest as [|[g stats] rest IH]; intros p Hin; [done|].
  rewrite fmap_cons, bind_cons, for_each_app. cbn [for_each fst snd].
  rewrite (PyMap_get_elem_of g stats) by (done || apply Hin; by left).
  cbn [mbind option_bind]. rewrite for_each_fmap.
  destruct (for_each _ stats p) as [p'|]; [|done].
  cbn [mbind option_bind]. apply IH. intros; apply Hin. by right.
Qed.

Lemma new_items_elem gender_stats new_key value :
  (new_key, value) ∈ new_items gender_stats <->
  exists g stats key, (g, stats) ∈ gender_stats /\ (key, value) ∈ stats /\
                      new_key = gender_prefix g +:+ key.
Proof.
  unfold new_items. rewrite list_elem_of_bind. split.
  - intros ([g stats] & Hitem & Hg).
    apply list_elem_of_fmap in Hitem as ([key v] & [= -> ->] & Hitem).
    by exists g, stats, key.
  - intros (g & stats & key & Hg & Hitem & ->). exists (g, stats).
    split; [|done]. apply list_elem_of_fmap. by exists (key, value).
Qed.

Lemma new_items_keys_elem gender_stats new_key :
  new_key ∈ (new_items gender_stats).*1 <->
  exists g stats key, (g, stats) ∈ gender_stats /\ key ∈ stats.*1 /\
                      new_key = gender_prefix g +:+ key.
Proof.
  rewrite list_elem_of_fmap. split.
  - intros ([nk v] & -> & Hitem).
    apply new_items_elem in Hitem as (g & stats & key & Hg & Hitem & ->).
    exists g, stats, key. repeat split; [done|].
    apply list_elem_of_fmap. by exists (key, v).
  - intros (g & stats & key & Hg & Hkey & ->).
    apply list_elem_of_fmap in Hkey as ([key' v] & -> & Hitem).
    exists (gender_prefix g +:+ key', v). split; [done|].
    apply new_items_elem. by exists g, stats, key'.
Qed.

Lemma fmap_bind {A B C} (f : B -> C) (g : A -> list B) (l : list A) :
  f <$> (l ≫= g) = l ≫= (fun a => f <$> g a).
Proof.
  induction l as [|a l IH]; [done|]. by rewrite !bind_cons, fmap_app, IH.
Qed.

Lemma new_items_NoDup gender_stats :
  NoDup gender_stats.*1 ->
  (forall g stats, (g, stats) ∈ gender_stats -> NoDup stats.*1) ->
  NoDup (new_items gender_stats).*1.
Proof.
  intros Hgs Hstats. unfold new_items. rewrite fmap_bind.
  apply NoDup_bind.
  - intros [g stats] [g' stats'] nk Hg Hg' H1 H2. simpl in *.
    rewrite <- list_fmap_compose in H1, H2.
    apply list_elem_of_fmap in H1 as ([key v] & -> & _).
    apply list_elem_of_fmap in H2 as ([key' v'] & Heq & _). simpl in Heq.
    apply new_key_inj in Heq as [-> _]. f_equal.
    apply (PyMap_get_elem_of _ _ _ Hgs) in Hg, Hg'. congruence.
  - intros [g stats] Hg. simpl.
    assert (((fun item : string * Z =>
                (gender_prefix g +:+ item.1, item.2)) <$> stats).*1
            = String.append (gender_prefix g) <$> stats.*1) as ->
      by (by rewrite <- !list_fmap_compose).
    apply NoDup_fmap_2; [apply _|]. by apply (Hstats g).
  - by apply NoDup_fmap_1 in Hgs.
Qed.

(** An occurrence of a string does not begin at a character that is
    not its first. *)
Lemma contains_skip c pat pre s :
  all_chars (is_not c) pre = true ->
  contains (String c pat) (pre +:+ s) = contains (String c pat) s.
Proof.
  induction pre as [|a pre IH]; [done|]. rewrite append_cons.
  cbn [all_chars]. rewrite andb_true_iff. intros [Ha Hpre].
  cbn [contains String.prefix]. rewrite (IH Hpre).
  destruct (ascii_dec c a) as [->|Hne]; [|done].
  unfold is_not in Ha. by rewrite Ascii.eqb_refl in Ha.
Qed.

Lemma gender_index_skip pre key :
  all_chars digit_or_dash pre = true ->
  gender_index ((pre +:+ "_") +:+ key) = gender_index key.
Proof.
  intros Hpre. unfold gender_index.
  rewrite !contains_skip; [done|..];
    rewrite all_chars_app; apply andb_true_iff; (split; [|done]);
    apply (all_chars_mono digit_or_dash); try done;
    intros a; by apply digit_or_dash_is_not.
Qed.

Lemma gender_keys_NoDup : NoDup gender_keys.
Proof. apply (bool_decide_unpack _). by vm_compute. Qed.

Lemma count_person_NoDup events gender_stats p :
  NoDup gender_stats.*1 -> NoDup (count_person events gender_stats p).*1.
Proof.
  intros Hnodup. unfold count_person. rewrite PyMap_keys_set.
  unfold PyMap.mem.
  destruct (PyMap.get (p_gender p) gender_stats) eqn:E; [done|].
  apply NoDup_app. split; [done|]. split; [|apply NoDup_singleton].
  intros g Hg ->%list_elem_of_singleton.
  apply PyMap_elem_of_keys in Hg as [? Hg]. congruence.
Qed.

Lemma people_gender_stats_NoDup events ps : forall gender_stats,
  NoDup gender_stats.*1 ->
  NoDup (foldl (count_person events) gender_stats ps).*1.
Proof.
  induction ps as [|p ps IH]; intros gs Hgs; [done|].
  cbn [foldl]. by apply IH, count_person_NoDup.
Qed.

(** At the end of the loop of [examine_people] the statistics hold the
    genders of the people, each once, each with the sixteen keys. *)
Lemma people_gender_stats_shape events ps acc :
  Forall (refs_resolve events) ps ->
  People.loop events ps = Some acc ->
  NoDup (People.gender_stats acc).*1 /\
  (forall g, g ∈ (People.gender_stats acc).*1 <-> g ∈ p_gender <$> ps) /\
  (forall g stats, (g, stats) ∈ People.gender_stats acc ->
                   stats.*1 = gender_keys).
Proof.
  intros Hres Hrun.
  destruct (people_loop_run events ps People.acc0) as (acc' & Hrun' & H0 & _);
    [by intros g0 d [=]|exact Hres|].
  unfold People.loop in Hrun. rewrite Hrun in Hrun'. injection Hrun' as <-.
  assert (NoDup (People.gender_stats acc).*1) as Hnodup.
  { rewrite H0. apply people_gender_stats_NoDup. simpl. apply NoDup_nil_2. }
  split; [exact Hnodup|]. split.
  - intros g. rewrite PyMap_elem_of_keys, H0, gender_stats_get. simpl.
    case_decide; [by split; [|eauto]|]. split; [by intros [? ?]|done].
  - intros g stats Hg. apply (PyMap_get_elem_of _ _ _ Hnodup) in Hg.
    rewrite H0, gender_stats_get in Hg. simpl in Hg.
    case_decide; [|done]. injection Hg as <-. apply tally_keys.
    intros k Hk. apply list_elem_of_bind in Hk as (p & Hk & _).
    by apply bumps_incl in Hk.
Qed.

Lemma gender_body_not_person g : gender_body g <> "person".
Proof.
  unfold gender_body. repeat case_bool_decide; try done.
  by apply pretty_not_name.
Qed.

Lemma new_key_not_person g key rest :
  gender_prefix g +:+ key <> ("person" +:+ "_") +:+ rest.
Proof.
  rewrite gender_prefix_body. intros Heq.
  apply split_at_underscore in Heq as [Hg _];
    [by apply gender_body_not_person in Hg| |done].
  by apply gender_body_plain.
Qed.

(** The section of each of the sixteen statistics of a gender. *)
Lemma gender_statistics_sections_aux g :
  Forall (fun key => gender_index (gender_prefix g +:+ key) = section_of key)
    gender_keys.
Proof.
  unfold gender_prefix. repeat case_bool_decide.
  - apply (bool_decide_unpack _). by vm_compute.
  - apply (bool_decide_unpack _). by vm_compute.
  - apply (bool_decide_unpack _). by vm_compute.
  - apply Forall_forall. intros key Hkey.
    rewrite gender_index_skip by apply pretty_Z_chars.
    revert key Hkey. apply Forall_forall.
    apply (bool_decide_unpack _). by vm_compute.
Qed.

(** X24: the loop that enters the gender statistics in the payload, run
    on statistics whose genders and whose keys are each listed once and
    on a payload with the sections ["uncited"], ["privacy"], ["tag"]
    and ["person"], never raises and keeps the sections of the payload
    and their order.  Afterwards every statistic of every gender is
    found under the key [prefix + key] in the section that the key is
    entered in, so no statistic overwrites another, and every entry of
    the payload under another key is as before. *)
Theorem route_gender_stats_enters_all gender_stats (payload : Dict2) :
  NoDup gender_stats.*1 ->
  (forall g stats, (g, stats) ∈ gender_stats -> NoDup stats.*1) ->
  (forall index, index ∈ ["uncited"; "privacy"; "tag"; "person"] ->
                 is_Some (PyDict.get index payload)) ->
  exists payload',
    route_gender_stats gender_stats payload = Some payload' /\
    payload'.*1 = payload.*1 /\
    (forall g stats key value,
       PyMap.get g gender_stats = Some stats ->
       PyMap.get key stats = Some value ->
       find2 payload' (gender_index (gender_prefix g +:+ key))
         (gender_prefix g +:+ key) = Some (VInt value)) /\
    (forall k sk,
       (forall g stats key, (g, stats) ∈ gender_stats -> key ∈ stats.*1 ->
                            sk <> gender_prefix g +:+ key) ->
       find2 payload' k sk = find2 payload k sk).
Proof.
  intros Hgs Hstats Hsections.
  destruct (route_items_run (new_items gender_stats) payload)
    as (payload' & Hrun & Hkeys & Hin & Hout & _);
    [by apply new_items_NoDup|exact Hsections|].
  exists payload'. rewrite route_gender_stats_flat by done.
  split; [exact Hrun|]. split; [exact Hkeys|]. split.
  - intros g stats key value Hg Hkey. apply Hin, new_items_elem.
    exists g, stats, key. repeat split; by apply PyMap_get_Some_elem_of.
  - intros k sk Hsk. apply Hout.
    intros (g & stats & key & Hg & Hkey & ->)%new_items_keys_elem.
    by apply (Hsk g stats key).
Qed.

(** X25: for every gender, also one that is printed as a numeral, the
    section that a statistic is entered in depends on its key only:
    ["uncited"], ["births_uncited"] and ["deaths_uncited"] go to the
    section ["uncited"]; ["private"], ["births_private"],
    ["deaths_private"] and also ["living_not_private"] go to
    ["privacy"]; ["tagged"] goes to ["tag"]; the other nine go to
    ["person"]. *)
Theorem gender_statistics_sections g :
  Forall (fun key => gender_index (gender_prefix g +:+ key) = section_of key)
    gender_keys.
Proof. apply gender_statistics_sections_aux. Qed.

(** X26: [examine_people] from the loop to the entry of the statistics:
    when the birth and death references of the people resolve, the
    payload has the six sections of the literal in their order; for a
    gender that occurs among the people, each of the sixteen statistics
    is found under [prefix + key] in the section of the key and is the
    number of people of that gender who added to the key; for a gender
    that does not occur there is no such entry; and ["person_total"],
    ["person_incomplete_names"] and ["person_no_family_connection"]
    are still in the section ["person"] with the values of the
    literal. *)
Theorem examine_people_payload_by_gender events ps total_people :
  Forall (refs_resolve events) ps ->
  exists acc payload,
    People.loop events ps = Some acc /\
    route_gender_stats (People.gender_stats acc)
      (people_sections total_people acc) = Some payload /\
    payload.*1 = ["changed"; "person"; "media"; "uncited"; "privacy"; "tag"] /\
    (forall g key, key ∈ gender_keys ->
       find2 payload (section_of key) (gender_prefix g +:+ key)
       = if decide (g ∈ p_gender <$> ps)
         then Some (VInt (how_many (fun p => p_gender p = g
                                             /\ key ∈ bumps events p) ps))
         else None) /\
    find2 payload "person" "person_total" = Some (VInt total_people) /\
    find2 payload "person" "person_incomplete_names"
    = Some (VInt (sum (incomplete <$> (ps ≫= names_of)))) /\
    find2 payload "person" "person_no_family_connection"
    = Some (VInt (how_many (fun p => p_parent_family_list p = []
                                     /\ p_family_list p = []) ps)).
Proof.
  intros Hres.
  destruct (people_loop_run events ps People.acc0)
    as (acc & Hrun & _ & _ & _ & Hnames & Hfam & _);
    [by intros g0 d [=]|exact Hres|].
  destruct (people_gender_stats_shape events ps acc Hres Hrun)
    as (Hnodup & Hgenders & Hkeys).
  destruct (route_items_run (new_items (People.gender_stats acc))
              (people_sections total_people acc))
    as (payload & Hroute & Hpkeys & Hin & Hout & _).
  { apply new_items_NoDup; [done|]. intros g stats Hg.
    rewrite (Hkeys g stats Hg). apply gender_keys_NoDup. }
  { intros index Hindex.
    repeat (apply elem_of_cons in Hindex as [->|Hindex]; [by eexists|]).
    by apply elem_of_nil in Hindex. }
  exists acc, payload. split; [exact Hrun|].
  rewrite route_gender_stats_flat by done.
  split; [exact Hroute|]. split; [by rewrite Hpkeys|].
  assert (forall rest, find2 payload "person" (("person" +:+ "_") +:+ rest)
                       = find2 (people_sections total_people acc) "person"
                           (("person" +:+ "_") +:+ rest)) as Hperson.
  { intros rest. apply Hout.
    intros (g & stats & key & _ & _ & Heq)%new_items_keys_elem.
    symmetry in Heq. by apply new_key_not_person in Heq. }
  split; [|repeat split].
  - intros g key Hkey.
    assert (gender_index (gender_prefix g +:+ key) = section_of key) as <-.
    { pose proof (gender_statistics_sections_aux g) as Htable.
      rewrite Forall_forall in Htable. by apply Htable. }
    destruct (decide (g ∈ p_gender <$> ps)) as [Hg|Hg].
    + apply Hgenders, PyMap_elem_of_keys in Hg as [stats Hg].
      apply Hin, new_items_elem. exists g, stats, key.
      split; [by apply PyMap_get_Some_elem_of|]. split; [|done].
      apply PyMap_get_Some_elem_of.
      by apply (people_gender_value events ps acc g stats key).
    + rewrite Hout.
      * assert (gender_index (gender_prefix g +:+ key) = section_of key) as ->.
        { pose proof (gender_statistics_sections_aux g) as Htable.
          rewrite Forall_forall in Htable. by apply Htable. }
        unfold find2, section_of. apply gender_keys_elem in Hkey.
        repeat case_bool_decide; simpl; try done.
        destruct (decide _) as [Heq|_]; [by apply new_key_not_person in Heq|].
        destruct (decide _) as [Heq|_]; [by apply new_key_not_person in Heq|].
        destruct (decide _) as [Heq|_]; [by apply new_key_not_person in Heq|].
        done.
      * intros (g' & stats & key' & Hg' & _ & Heq)%new_items_keys_elem.
        apply new_key_inj in Heq as [<- _]. apply Hg, Hgenders.
        apply list_elem_of_fmap. by exists (g, stats).
  - etrans; [exact (Hperson "total")|done].
  - etrans; [exact (Hperson "incomplete_names")|]. unfold find2. simpl.
    rewrite Hnames. simpl. by rewrite Z.add_0_l.
  - etrans; [exact (Hperson "no_family_connection")|]. unfold find2. simpl.
    rewrite Hfam. simpl. by rewrite Z.add_0_l.
Qed.

(** ** The theorems on sample people *)

Lemma examine_people_counts_by_gender_witness :
  exists acc,
    People.loop sample_events sample_people = Some acc /\
    (forall g, is_Some (PyMap.get g (People.gender_stats acc))
               <-> g ∈ p_gender <$> sample_people) /\
    forall g stats, PyMap.get g (People.gender_stats acc) = Some stats ->
      stats.*1 = gender_keys /\
      PyMap.get "total" stats = Some (how_many (fun p => p_gender p = g) sample_people) /\
      PyMap.get "private" stats
      = Some (how_many (fun p => p_gender p = g /\ p_private p = true) sample_people) /\
      PyMap.get "tagged" stats
      = Some (how_many (fun p => p_gender p = g /\ p_tag_list p <> []) sample_people) /\
      PyMap.get "uncited" stats
      = Some (how_many (fun p => p_gender p = g /\ p_citation_list p = [])
                sample_people) /\
      PyMap.get "births_missing" stats
      = Some (how_many (fun p => p_gender p = g /\ p_birth_ref p = None) sample_people) /\
      PyMap.get "deaths_missing" stats
      = Some (how_many (fun p => p_gender p = g /\ p_death_ref p = None) sample_people) /\
      PyMap.get "living" stats
      = Some (how_many (fun p => p_gender p = g /\ p_death_ref p = None
                                 /\ p_probably_alive p = true) sample_people) /\
      PyMap.get "living_not_private" stats
      = Some (how_many (fun p => p_gender p = g /\ p_death_ref p = None
                                 /\ p_probably_alive p = true
                                 /\ p_private p = false) sample_people).
Proof.
  apply (examine_people_counts_by_gender sample_events sample_people).
  repeat (apply Forall_cons; split); [..|apply Forall_nil];
    (split; intros ref Href; try done; injection Href as <-; by eexists).
Defined.

Lemma examine_people_counts_life_events_witness :
  exists acc,
    People.loop sample_events sample_people = Some acc /\
    forall g stats, PyMap.get g (People.gender_stats acc) = Some stats ->
      let births test :=
        Some (how_many (fun p => p_gender p = g
                                 /\ event_has sample_events (p_birth_ref p) test
                                    = true) sample_people) in
      let deaths test :=
        Some (how_many (fun p => p_gender p = g
                                 /\ event_has sample_events (p_death_ref p) test
                                    = true) sample_people) in
      PyMap.get "births_missing_date" stats
      = births (fun e => bool_decide (le_date e = "")) /\
      PyMap.get "births_missing_place" stats
      = births (fun e => negb (truth (le_place e))) /\
      PyMap.get "births_uncited" stats
      = births (fun e => bool_decide (le_citation_list e = [])) /\
      PyMap.get "births_private" stats = births le_private /\
      PyMap.get "deaths_missing_date" stats
      = deaths (fun e => bool_decide (le_date e = "")) /\
      PyMap.get "deaths_missing_place" stats
      = deaths (fun e => negb (truth (le_place e))) /\
      PyMap.get "deaths_uncited" stats
      = deaths (fun e => bool_decide (le_citation_list e = [])) /\
      PyMap.get "deaths_private" stats = deaths le_private.
Proof.
  apply (examine_people_counts_life_events sample_events sample_people).
  repeat (apply Forall_cons; split); [..|apply Forall_nil];
    (split; intros ref Href; try done; injection Href as <-; by eexists).
Defined.

Lemma examine_people_counts_references_witness :
  exists acc,
    People.loop sample_events sample_people = Some acc /\
    People.incomplete_names acc = sum (incomplete <$> (sample_people ≫= names_of)) /\
    People.no_families acc
    = how_many (fun p => p_parent_family_list p = [] /\ p_family_list p = [])
        sample_people /\
    People.association acc = how_many (fun p => p_person_ref_list p <> []) sample_people /\
    People.association_refs acc
    = Z.of_nat (length (sample_people ≫= p_person_ref_list)) /\
    (forall rel, PyMap.get rel (People.association_roles acc)
                 = if decide (rel ∈ pr_rel <$> (sample_people ≫= p_person_ref_list))
                   then Some (how_many (fun r => pr_rel r = rel)
                                (sample_people ≫= p_person_ref_list))
                   else None) /\
    histogram_total (People.association_roles acc)
    = People.association_refs acc /\
    People.association_private acc
    = how_many (fun r => pr_private r = true) (sample_people ≫= p_person_ref_list) /\
    People.association_uncited acc
    = how_many (fun r => pr_citation_list r = []) (sample_people ≫= p_person_ref_list) /\
    People.participant acc = how_many (fun p => p_event_ref_list p <> []) sample_people /\
    People.participant_refs acc
    = Z.of_nat (length (sample_people ≫= p_event_ref_list)) /\
    (forall role, PyMap.get role (People.participant_roles acc)
                  = if decide (role ∈ er_role <$> (sample_people ≫= p_event_ref_list))
                    then Some (how_many (fun r => er_role r = role)
                                 (sample_people ≫= p_event_ref_list))
                    else None) /\
    histogram_total (People.participant_roles acc)
    = People.participant_refs acc /\
    People.participant_private acc
    = how_many (fun r => er_private r = true) (sample_people ≫= p_event_ref_list) /\
    People.media acc = how_many (fun p => p_media_list p <> []) sample_people /\
    People.media_refs acc = Z.of_nat (length (sample_people ≫= p_media_list)).
Proof.
  apply (examine_people_counts_references sample_events sample_people).
  repeat (apply Forall_cons; split); [..|apply Forall_nil];
    (split; intros ref Href; try done; injection Href as <-; by eexists).
Defined.

Lemma route_gender_stats_enters_all_witness :
  exists payload',
    route_gender_stats sample_gender_stats sample_sections = Some payload' /\
    payload'.*1 = sample_sections.*1 /\
    (forall g stats key value,
       PyMap.get g sample_gender_stats = Some stats ->
       PyMap.get key stats = Some value ->
       find2 payload' (gender_index (gender_prefix g +:+ key))
         (gender_prefix g +:+ key) = Some (VInt value)) /\
    (forall k sk,
       (forall g stats key, (g, stats) ∈ sample_gender_stats -> key ∈ stats.*1 ->
                            sk <> gender_prefix g +:+ key) ->
       find2 payload' k sk = find2 sample_sections k sk).
Proof.
  apply (route_gender_stats_enters_all sample_gender_stats sample_sections).
  - apply (bool_decide_unpack _). by vm_compute.
  - intros g stats Hg.
    apply elem_of_cons in Hg as [[= -> ->]|Hg]; [|by apply elem_of_nil in Hg].
    apply (bool_decide_unpack _). by vm_compute.
  - intros index Hindex.
    repeat (apply elem_of_cons in Hindex as [->|Hindex]; [by eexists|]).
    by apply elem_of_nil in Hindex.
Defined.

Lemma examine_people_payload_by_gender_witness :
  exists acc payload,
    People.loop sample_events sample_people = Some acc /\
    route_gender_stats (People.gender_stats acc)
      (people_sections 2%Z acc) = Some payload /\
    payload.*1 = ["changed"; "person"; "media"; "uncited"; "privacy"; "tag"] /\
    (forall g key, key ∈ gender_keys ->
       find2 payload (section_of key) (gender_prefix g +:+ key)
       = if decide (g ∈ p_gender <$> sample_people)
         then Some (VInt (how_many (fun p => p_gender p = g
                                             /\ key ∈ bumps sample_events p) sample_people))
         else None) /\
    find2 payload "person" "person_total" = Some (VInt 2%Z) /\
    find2 payload "person" "person_incomplete_names"
    = Some (VInt (sum (incomplete <$> (sample_people ≫= names_of)))) /\
    find2 payload "person" "person_no_family_connection"
    = Some (VInt (how_many (fun p => p_parent_family_list p = []
                                     /\ p_family_list p = []) sample_people)).
Proof.
  apply (examine_people_payload_by_gender sample_events sample_people 2).
  repeat (apply Forall_cons; split); [..|apply Forall_nil];
    (split; intros ref Href; try done; injection Href as <-; by eexists).
Defined.
